(** * Question deduplication and answer cache: a shallow embedding

    This development embeds the question-matching engine of the tutoring
    bot (module [enhanced_question_deduplication]), the cache and
    correction parts of the persistence layer (module [database]) and the
    cache endpoints of the dashboard (module [admin_dashboard]), and
    proves properties of the embedded functions.

    Conventions.
    - Text is a sequence of code points in the range 0..255 (the Latin-1
      block of Unicode), carried by [ascii]; the character classes of
      Python's [str] and [re] are transcribed for that range.  Code points
      above 255 are outside the model.
    - Scores are Python floats, that is binary64 numbers.  A finite
      binary64 number is represented by the rational it denotes ([Q]), and
      every floating-point operation of the source rounds its exact result
      to the nearest binary64 number, ties to even ([Float64.round]); the
      weights and thresholds are the binary64 numbers nearest to the
      decimals written in the source.  Scores built from ratios between 0
      and 1 stay far from the largest binary64 number; the results of
      numpy, which may be infinite or not a number, are carried by
      [Float64.number].
    - [difflib.SequenceMatcher], the embedding client and numpy's [dot]
      and [linalg.norm] are external to the repository: they are
      parameters of the sections that use them.  [embed_query] may raise,
      and so may [dot] (on vectors of different lengths).
    - The relational store is a pair of tables (lists of rows).  A
      statement executes and commits unless the model says otherwise: in
      [find_similar_question] and [cache_scientific_question] the driver
      refuses a text with the code point 0, the INSERT of
      [cache_scientific_question] fails on a value that does not fit its
      column and on a key already present, and
      [update_interaction_feedback] fails on a feedback that is no
      INTEGER.  The other statements are given texts without the code
      point 0 and values that fit their columns, and the usage counters
      stay within theirs.  Connection errors are not represented.
      Timestamps are integers; where the source subtracts an interval of
      days they count seconds. *)

From stdpp Require Import gmap strings list.
From Stdlib Require Import Ascii QArith Qround Qpower Qabs Lia Lqa.

Open Scope list_scope.

(** ** Characters *)

Module Char.

Definition code (c : ascii) : N := N_of_ascii c.

Definition in_range (lo hi : N) (c : ascii) : bool :=
  ((lo <=? code c) && (code c <=? hi))%N.

Definition is_code (n : N) (c : ascii) : bool := (code c =? n)%N.

(** [\d] of [re] on [str]: the decimal digits; in Latin-1 these are 0-9. *)
Definition is_digit (c : ascii) : bool := in_range 48 57 c.

Definition is_AZ (c : ascii) : bool := in_range 65 90 c.
Definition is_az (c : ascii) : bool := in_range 97 122 c.

(** [str.isspace], which is also [\s] of [re] and the separator set of
    [str.split()] and [str.strip()]. *)
Definition is_space (c : ascii) : bool :=
  in_range 9 13 c || in_range 28 32 c || is_code 133 c || is_code 160 c.

(** [\w] of [re] on [str]: alphanumeric code points and the underscore.
    In Latin-1 the alphanumerics beyond ASCII are the letters 170, 181,
    186, 192-214, 216-246, 248-255 and the numerics 178, 179, 185,
    188-190. *)
Definition is_word (c : ascii) : bool :=
  is_digit c || is_AZ c || is_az c || is_code 95 c
  || is_code 170 c || is_code 181 c || is_code 186 c
  || in_range 192 214 c || in_range 216 246 c || in_range 248 255 c
  || in_range 178 179 c || is_code 185 c || in_range 188 190 c.

(** [str.lower] on one code point: A-Z and the Latin-1 capitals 192-222
    (215 is the multiplication sign) move up by 32. *)
Definition lower (c : ascii) : ascii :=
  if is_AZ c || (in_range 192 222 c && negb (is_code 215 c))
  then ascii_of_N (code c + 32) else c.

(** [str.upper] on one code point.  The upper-case forms of 181, 223 and
    255 lie outside Latin-1; they are left unchanged here.  The source
    applies [upper] to formula matches only, which are ASCII. *)
Definition upper (c : ascii) : ascii :=
  if is_az c || (in_range 224 254 c && negb (is_code 247 c))
  then ascii_of_N (code c - 32) else c.

(** Equality of two code points under [re.IGNORECASE] (within Latin-1). *)
Definition eq_ci (a b : ascii) : bool := (code (lower a) =? code (lower b))%N.

Definition eqb (a b : ascii) : bool := (code a =? code b)%N.

End Char.

(** ** Python string primitives over code-point lists *)

Module Str.

Definition t := list ascii.

Definition of_string (s : string) : t := String.list_ascii_of_string s.
Definition to_string (l : t) : string := String.string_of_list_ascii l.

Definition lower (s : t) : t := map Char.lower s.
Definition upper (s : t) : t := map Char.upper s.

(** [s.startswith(p)] *)
Fixpoint starts_with (p s : t) : bool :=
  match p, s with
  | [], _ => true
  | x :: p', y :: s' => Char.eqb x y && starts_with p' s'
  | _ :: _, [] => false
  end.

(** [p in s] for a non-empty or empty needle *)
Fixpoint contains (p s : t) : bool :=
  starts_with p s ||
  match s with
  | [] => false
  | _ :: s' => contains p s'
  end.

(** [s.replace(old, new)] for a non-empty [old]: the occurrences are
    taken left to right and do not overlap.  [skip] counts the characters
    of the occurrence just replaced that are still to be passed over. *)
Fixpoint replace_from (old new : t) (skip : nat) (s : t) : t :=
  match s with
  | [] => []
  | c :: s' =>
      match skip with
      | S n => replace_from old new n s'
      | O =>
          if starts_with old s
          then new ++ replace_from old new (length old - 1) s'
          else c :: replace_from old new 0 s'
      end
  end.

Definition replace (old new s : t) : t := replace_from old new 0 s.

(** [s.split()]: the maximal runs of non-space characters, left to
    right.  A non-space character opens a word when it ends the text or a
    space follows it, and otherwise extends the word that starts right
    after it. *)
Fixpoint split (s : t) : list t :=
  match s with
  | [] => []
  | c :: s' =>
      if Char.is_space c then split s'
      else match s' with
           | [] => [[c]]
           | d :: _ =>
               if Char.is_space d then [c] :: split s'
               else match split s' with
                    | w :: ws => (c :: w) :: ws
                    | [] => [[c]]
                    end
           end
  end.

(** [sep.join(ws)] *)
Fixpoint join (sep : t) (ws : list t) : t :=
  match ws with
  | [] => []
  | [w] => w
  | w :: ws' => w ++ sep ++ join sep ws'
  end.

(** [s.strip()] *)
Fixpoint lstrip (s : t) : t :=
  match s with
  | c :: s' => if Char.is_space c then lstrip s' else s
  | [] => []
  end.

Definition rstrip (s : t) : t := rev (lstrip (rev s)).

Definition strip (s : t) : t := rstrip (lstrip s).

(** [s.rsplit(sep, 1)] for a one-character separator: the text before
    and after the last separator, or the text alone when it has none. *)
Fixpoint rsplit1 (sep : ascii) (s : t) : list t :=
  match s with
  | [] => [[]]
  | c :: s' =>
      match rsplit1 sep s' with
      | [a; b] => [c :: a; b]
      | _ => if Char.eqb c sep then [[]; s'] else [c :: s']
      end
  end.

End Str.

(** ** A backtracking matcher for the regular expressions of the source

    The patterns of the source are written as terms of [regex]; [run]
    follows the search order of Python's [re]: alternatives left to right,
    greedy repetition, giving back one iteration at a time on failure. *)

Module Re.

Inductive regex : Type :=
| Eps
| Cls (p : ascii -> bool)      (* one character of a class *)
| Seq (r1 r2 : regex)
| Alt (r1 r2 : regex)          (* r1|r2 *)
| Star (r : regex)             (* r*  *)
| WordB                        (* \b  *)
| Grp (n : nat) (r : regex).   (* the n-th capturing group *)

Definition Opt (r : regex) : regex := Alt r Eps.      (* r? *)
Definition Plus (r : regex) : regex := Seq r (Star r). (* r+ *)

(** A literal under IGNORECASE. *)
Fixpoint LitCI (s : Str.t) : regex :=
  match s with
  | [] => Eps
  | [c] => Cls (Char.eq_ci c)
  | c :: s' => Seq (Cls (Char.eq_ci c)) (LitCI s')
  end.

(** The matcher state: the character before the current position (for
    [\b]), the text still to read, and the groups captured so far, the
    latest first. *)
Record mstate : Type := MState {
  prev : option ascii;
  rest : Str.t;
  caps : list (nat * Str.t)
}.

Definition word_at (o : option ascii) : bool :=
  match o with Some c => Char.is_word c | None => false end.

Definition at_boundary (st : mstate) : bool :=
  xorb (word_at (prev st)) (word_at (head (rest st))).

(** The text read between two states of one match attempt. *)
Definition consumed (st st' : mstate) : Str.t :=
  firstn (length (rest st) - length (rest st')) (rest st).

(** Greedy repetition of [body]: try one more iteration, which must read
    at least one character, and fall back to the continuation.  [n]
    bounds the number of iterations and is the length of the text left
    when the repetition starts. *)
Fixpoint star_loop {A : Type}
    (body : mstate -> (mstate -> option A) -> option A)
    (k : mstate -> option A) (n : nat) (st : mstate) : option A :=
  match n with
  | O => k st
  | S n' =>
      match body st (fun st' =>
              if (length (rest st') <? length (rest st))%nat
              then star_loop body k n' st' else None) with
      | Some x => Some x
      | None => k st
      end
  end.

Fixpoint run {A : Type} (r : regex) (st : mstate) (k : mstate -> option A)
  : option A :=
  match r with
  | Eps => k st
  | Cls p =>
      match rest st with
      | c :: s' => if p c then k (MState (Some c) s' (caps st)) else None
      | [] => None
      end
  | Seq r1 r2 => run r1 st (fun st1 => run r2 st1 k)
  | Alt r1 r2 =>
      match run r1 st k with
      | Some x => Some x
      | None => run r2 st k
      end
  | Star r' => star_loop (run r') k (length (rest st)) st
  | WordB => if at_boundary st then k st else None
  | Grp n r' =>
      run r' st (fun st' => k (MState (prev st') (rest st')
                                 ((n, consumed st st') :: caps st')))
  end.

(** One match: the matched text and its groups. *)
Record rmatch : Type := RMatch { whole : Str.t; groups : list (nat * Str.t) }.

Fixpoint group_of (n : nat) (gs : list (nat * Str.t)) : Str.t :=
  match gs with
  | [] => []
  | (i, g) :: gs' => if (i =? n)%nat then g else group_of n gs'
  end.

Definition group (n : nat) (m : rmatch) : Str.t := group_of n (groups m).

(** [pattern.match] at one position of the text. *)
Definition match_at (r : regex) (p : option ascii) (s : Str.t) : option rmatch :=
  run r (MState p s []) (fun st' =>
    Some (RMatch (firstn (length s - length (rest st')) s) (caps st'))).

(** The scan shared by [re.sub] and [re.findall]: the text cut into
    matches and the characters between them.  None of the patterns of the
    source matches the empty string, and an empty match is not taken. *)
Inductive piece : Type :=
| PChar (c : ascii)
| PMatch (m : rmatch).

Fixpoint scan (r : regex) (p : option ascii) (skip : nat) (s : Str.t)
  : list piece :=
  match s with
  | [] => []
  | c :: s' =>
      match skip with
      | S n => scan r (Some c) n s'
      | O =>
          match match_at r p s with
          | Some m =>
              match length (whole m) with
              | O => PChar c :: scan r (Some c) 0 s'
              | S n => PMatch m :: scan r (Some c) n s'
              end
          | None => PChar c :: scan r (Some c) 0 s'
          end
      end
  end.

(** [re.sub(r, repl, s)] with [repl] a function of the match. *)
Definition sub (r : regex) (repl : rmatch -> Str.t) (s : Str.t) : Str.t :=
  flat_map (fun x => match x with PChar c => [c] | PMatch m => repl m end)
           (scan r None 0 s).

(** [re.findall(r, s)] for a pattern without capturing groups. *)
Definition findall (r : regex) (s : Str.t) : list Str.t :=
  flat_map (fun x => match x with PChar _ => [] | PMatch m => [whole m] end)
           (scan r None 0 s).

End Re.

(** ** Binary64 arithmetic

    Python's [float] and numpy's [float64] are IEEE 754 binary64 numbers
    under round-to-nearest, ties to even. *)

Module Float64.

Open Scope Q_scope.

(** The nearest integer, a tie going to the even one. *)
Definition nearest_even (q : Q) : Z :=
  let f := Qfloor q in
  match Qcompare (q - inject_Z f) (1 # 2) with
  | Lt => f
  | Gt => (f + 1)%Z
  | Eq => if Z.even f then f else (f + 1)%Z
  end.

(** The exponent [e] with [2^e <= q < 2^(e+1)], for a positive [q]. *)
Definition exponent (q : Q) : Z :=
  let e0 := (Z.log2 (Qnum q) - Z.log2 (Zpos (Qden q)))%Z in
  if Qle_bool (2 ^ e0) q then e0 else (e0 - 1)%Z.

(** The exponent of the unit in the last place: 53 significant bits, and
    no finer than 2^-1074 (the subnormal numbers). *)
Definition ulp_exponent (q : Q) : Z := Z.max (exponent q - 52) (-1074).

Definition round_positive (q : Q) : Q :=
  let e := ulp_exponent q in
  inject_Z (nearest_even (q / 2 ^ e)) * 2 ^ e.

(** The binary64 number nearest to [q], in lowest terms.  The exponent
    has no upper limit here; [rounded] below adds the overflow. *)
Definition round (q : Q) : Q :=
  Qred (match Qcompare q 0 with
        | Eq => 0
        | Gt => round_positive q
        | Lt => - round_positive (- q)
        end).

(** [x * y] and [x + y] on finite numbers. *)
Definition mul (x y : Q) : Q := round (x * y).
Definition add (x y : Q) : Q := round (x + y).

(** A binary64 value as numpy produces it: finite, infinite or not a
    number.  The sign of a zero is not represented: it shows only in a
    division by zero, where the zero is taken as positive (the divisor
    of the cosine is a product of norms, which are not negative). *)
Inductive number : Type :=
| Finite (q : Q)
| Infinity (negative : bool)
| NaN.

(** The largest finite number, (2^53 - 1) * 2^971. *)
Definition largest : Q := inject_Z (2 ^ 53 - 1) * 2 ^ 971.

Definition is_negative (q : Q) : bool := negb (Qle_bool 0 q).

(** An exact result rounded: infinite when the rounded magnitude exceeds
    the largest finite number. *)
Definition rounded (q : Q) : number :=
  let r := round q in
  if Qle_bool (Qabs r) largest then Finite r else Infinity (is_negative r).

(** [x * y] *)
Definition times (x y : number) : number :=
  match x, y with
  | NaN, _ | _, NaN => NaN
  | Finite a, Finite b => rounded (a * b)
  | Infinity s, Finite b | Finite b, Infinity s =>
      if Qeq_bool b 0 then NaN else Infinity (xorb s (is_negative b))
  | Infinity s, Infinity s' => Infinity (xorb s s')
  end.

(** [x / y]; numpy divides by zero without raising. *)
Definition over (x y : number) : number :=
  match x, y with
  | NaN, _ | _, NaN => NaN
  | Infinity _, Infinity _ => NaN
  | Infinity s, Finite b => Infinity (xorb s (is_negative b))
  | Finite _, Infinity _ => Finite 0
  | Finite a, Finite b =>
      if Qeq_bool b 0
      then if Qeq_bool a 0 then NaN else Infinity (is_negative a)
      else rounded (a / b)
  end.

(** [x == 0] *)
Definition is_zero (x : number) : bool :=
  match x with
  | Finite q => Qeq_bool q 0
  | _ => false
  end.

(** [x > y] and [x >= y]: false when either is not a number. *)
Definition greater (x y : number) : bool :=
  match x, y with
  | NaN, _ | _, NaN => false
  | Finite a, Finite b => negb (Qle_bool a b)
  | Finite _, Infinity s => s
  | Infinity s, Finite _ => negb s
  | Infinity s, Infinity s' => negb s && s'
  end.

Definition at_least (x y : number) : bool :=
  match x, y with
  | NaN, _ | _, NaN => false
  | Finite a, Finite b => Qle_bool b a
  | Finite _, Infinity s => s
  | Infinity s, Finite _ => negb s
  | Infinity s, Infinity s' => negb s || s'
  end.

End Float64.

(** ** The store: tables [cached_scientific_questions] and [interactions] *)

Module CachedQuestion.

(** One row of [cached_scientific_questions].  Timestamps are integers;
    a JSONB embedding is a list of numbers. *)
Record t : Type := Row {
  id : Z;
  question_text : string;
  normalized_text : string;
  answer_text : string;
  embedding : option (list Q);
  image_hash : option string;
  times_used : Z;
  last_used : Z;
  created_at : Z;
  is_corrected : option bool;
  corrected_at : option Z;
  correction_source : option string;
  metadata : option (list (string * string))
}.

End CachedQuestion.

Module Interaction.

(** One row of [interactions] (the columns the cache operations touch,
    and the texts). *)
Record t : Type := Row {
  id : Z;
  user_id : string;
  user_input : string;
  bot_response : string;
  is_corrected : option bool;
  corrected_text : option string;
  user_feedback : Z;
  cached_question_id : option Z
}.

End Interaction.

Module Database.

Record Db : Type := MkDb {
  cached_scientific_questions : list CachedQuestion.t;
  interactions : list Interaction.t;
  (** the next value of the SERIAL sequence of the cache table *)
  cached_id_seq : Z
}.

(** Python truthiness of the values the code tests. *)
Definition truthy_bool (o : option bool) : bool :=
  match o with Some b => b | None => false end.
Definition truthy_str (o : option string) : bool :=
  match o with Some s => negb (bool_decide (s = ""%string)) | None => false end.
Definition truthy_list {A : Type} (o : option (list A)) : bool :=
  match o with Some (_ :: _) => true | _ => false end.
Definition truthy_int (o : option Z) : bool :=
  match o with Some z => negb (z =? 0)%Z | None => false end.

(** [ORDER BY last_used DESC].  SQL leaves the order of rows with equal
    [last_used] open; here they keep their table order (a stable
    insertion sort: a row is put before the first row that is not more
    recent than it).  The statements below that concern the order hold
    for every order the database may choose among such rows: they speak
    of a most recently used row, not of the first. *)
Fixpoint insert_by_last_used (r : CachedQuestion.t) (l : list CachedQuestion.t)
  : list CachedQuestion.t :=
  match l with
  | [] => [r]
  | x :: l' =>
      if (CachedQuestion.last_used x <=? CachedQuestion.last_used r)%Z
      then r :: l
      else x :: insert_by_last_used r l'
  end.

Definition order_by_last_used_desc (l : list CachedQuestion.t)
  : list CachedQuestion.t :=
  foldr insert_by_last_used [] l.

Definition has_id (i : Z) (r : CachedQuestion.t) : bool :=
  (CachedQuestion.id r =? i)%Z.

(** [UPDATE ... SET times_used = times_used + 1, last_used = CURRENT_TIMESTAMP
    WHERE id = ...] *)
Definition bump_usage (now : Z) (r : CachedQuestion.t) : CachedQuestion.t :=
  CachedQuestion.Row
    (CachedQuestion.id r) (CachedQuestion.question_text r)
    (CachedQuestion.normalized_text r) (CachedQuestion.answer_text r)
    (CachedQuestion.embedding r) (CachedQuestion.image_hash r)
    (CachedQuestion.times_used r + 1) now
    (CachedQuestion.created_at r) (CachedQuestion.is_corrected r)
    (CachedQuestion.corrected_at r) (CachedQuestion.correction_source r)
    (CachedQuestion.metadata r).

Definition update_where {A : Type} (p : A -> bool) (f : A -> A) (l : list A)
  : list A :=
  map (fun r => if p r then f r else r) l.

(** The driver refuses to send a string that holds the code point 0. *)
Definition sendable (s : string) : bool :=
  forallb (fun c => negb (Char.is_code 0 c)) (Str.of_string s).

(** The values of an INTEGER column. *)
Definition int4 (z : Z) : bool :=
  (-2147483648 <=? z)%Z && (z <=? 2147483647)%Z.

(** [image_hash VARCHAR(64)]: a longer value is refused.  (SQL truncates
    a longer value whose excess is blank; image hashes are hexadecimal
    digests, and that case is treated as refused too.) *)
Definition hash_accepted (image_hash : option string) : bool :=
  match image_hash with
  | Some h => sendable h && (length (Str.of_string h) <=? 64)%nat
  | None => true
  end.

(** [Json(metadata) if metadata else None]: JSONB has no code point 0. *)
Definition metadata_accepted (metadata : option (list (string * string)))
  : bool :=
  match metadata with
  | Some m => forallb (fun kv => sendable kv.1 && sendable kv.2) m
  | None => true
  end.

(** [cache_scientific_question]: the INSERT names six columns; the others
    take their defaults ([times_used] 1, both timestamps now,
    [is_corrected] FALSE).  Returns the new id.  When the statement
    fails, the except branch rolls back and returns [None]: the statement
    is refused before it runs when a text holds the code point 0, when
    the hash does not fit its column or when the metadata cannot be
    stored; it fails after drawing the id when the id is outside INTEGER
    or is the key of a row already present, and a value drawn from the
    sequence is not given back. *)
Definition cache_scientific_question (now : Z)
    (question_text normalized_text answer_text : string)
    (embedding : list Q) (image_hash : option string)
    (metadata : option (list (string * string))) (db : Db)
  : option Z * Db :=
  let cached_id := cached_id_seq db in
  let row :=
    CachedQuestion.Row cached_id question_text normalized_text answer_text
      (Some embedding) image_hash 1 now now (Some false) None None
      (if truthy_list metadata then metadata else None) in
  if negb (sendable question_text && sendable normalized_text
           && sendable answer_text && hash_accepted image_hash
           && metadata_accepted metadata)
  then (None, db)
  else if negb (int4 cached_id)
          || existsb (has_id cached_id) (cached_scientific_questions db)
  then
    (None,
     MkDb (cached_scientific_questions db) (interactions db)
          (cached_id_seq db + 1))
  else
    (Some cached_id,
     MkDb (cached_scientific_questions db ++ [row]) (interactions db)
          (cached_id_seq db + 1)).

(** [get_cached_question_by_image_hash]: the most recently used row with
    that hash; its usage is bumped in the store, and the row as it was
    read is returned. *)
Definition get_cached_question_by_image_hash (now : Z) (image_hash : string)
    (db : Db) : option CachedQuestion.t * Db :=
  let rows :=
    List.filter
      (fun r => bool_decide (CachedQuestion.image_hash r = Some image_hash))
      (cached_scientific_questions db) in
  match order_by_last_used_desc rows with
  | row :: _ =>
      (Some row,
       MkDb (update_where (has_id (CachedQuestion.id row)) (bump_usage now)
               (cached_scientific_questions db))
            (interactions db) (cached_id_seq db))
  | [] => (None, db)
  end.

(** [get_recent_cached_questions]: the [limit] most recently used rows.
    The SELECT lists seven of the columns; the dictionaries built from
    them are represented by the rows, of which only those columns are
    read afterwards. *)
Definition get_recent_cached_questions (limit : nat) (db : Db)
  : list CachedQuestion.t :=
  firstn limit (order_by_last_used_desc (cached_scientific_questions db)).

(** [UPDATE ... SET answer_text, is_corrected = TRUE, corrected_at =
    CURRENT_TIMESTAMP, correction_source WHERE id = ...] *)
Definition set_answer (now : Z) (new_answer correction_source : string)
    (r : CachedQuestion.t) : CachedQuestion.t :=
  CachedQuestion.Row
    (CachedQuestion.id r) (CachedQuestion.question_text r)
    (CachedQuestion.normalized_text r) new_answer
    (CachedQuestion.embedding r) (CachedQuestion.image_hash r)
    (CachedQuestion.times_used r) (CachedQuestion.last_used r)
    (CachedQuestion.created_at r) (Some true)
    (Some now) (Some correction_source)
    (CachedQuestion.metadata r).

(** [update_cached_question_answer]: returns [cursor.rowcount > 0]. *)
Definition update_cached_question_answer (now : Z) (cached_question_id : Z)
    (new_answer correction_source : string) (db : Db) : bool * Db :=
  let rowcount :=
    length (List.filter (has_id cached_question_id)
              (cached_scientific_questions db)) in
  ((0 <? rowcount)%nat,
   MkDb (update_where (has_id cached_question_id)
           (set_answer now new_answer correction_source)
           (cached_scientific_questions db))
        (interactions db) (cached_id_seq db)).

(** [get_cached_question_by_text]: as [get_cached_question_by_image_hash],
    on the column [normalized_text]. *)
Definition get_cached_question_by_text (now : Z) (normalized_text : string)
    (db : Db) : option CachedQuestion.t * Db :=
  let rows :=
    List.filter
      (fun r => bool_decide (CachedQuestion.normalized_text r = normalized_text))
      (cached_scientific_questions db) in
  match order_by_last_used_desc rows with
  | row :: _ =>
      (Some row,
       MkDb (update_where (has_id (CachedQuestion.id row)) (bump_usage now)
               (cached_scientific_questions db))
            (interactions db) (cached_id_seq db))
  | [] => (None, db)
  end.

(** [get_cached_question_by_id]: [fetchone] of [SELECT * ... WHERE id]. *)
Definition get_cached_question_by_id (cached_id : Z) (db : Db)
  : option CachedQuestion.t :=
  head (List.filter (has_id cached_id) (cached_scientific_questions db)).

(** [ORDER BY times_used DESC], rows with equal [times_used] in table
    order. *)
Fixpoint insert_by_times_used (r : CachedQuestion.t) (l : list CachedQuestion.t)
  : list CachedQuestion.t :=
  match l with
  | [] => [r]
  | x :: l' =>
      if (CachedQuestion.times_used x <=? CachedQuestion.times_used r)%Z
      then r :: l
      else x :: insert_by_times_used r l'
  end.

Definition order_by_times_used_desc (l : list CachedQuestion.t)
  : list CachedQuestion.t :=
  foldr insert_by_times_used [] l.

(** The dictionary returned by [get_cache_statistics]. *)
Record cache_statistics : Type := CacheStatistics {
  total_cached : nat;
  total_hits : Z;
  corrected_count : nat;
  top_questions : list (string * Z);
  hit_rate : Q
}.

(** [get_cache_statistics].  [SUM(times_used)] is NULL on an empty table,
    which the code turns into 0, as it does a sum of 0; the hit rate is
    Python's true division of the hits by the number of rows. *)
Definition get_cache_statistics (db : Db) : cache_statistics :=
  let rows := cached_scientific_questions db in
  let total := length rows in
  let total_hits := foldr (fun r s => CachedQuestion.times_used r + s)%Z 0%Z rows in
  let corrected :=
    length (List.filter
              (fun r => bool_decide (CachedQuestion.is_corrected r = Some true))
              rows) in
  let top_questions :=
    map (fun r => (CachedQuestion.question_text r, CachedQuestion.times_used r))
        (firstn 5 (order_by_times_used_desc rows)) in
  CacheStatistics total total_hits corrected top_questions
    (if (0 <? total)%nat
     then inject_Z total_hits / inject_Z (Z.of_nat total)
     else 0).

(** [CURRENT_TIMESTAMP - INTERVAL 'days days'], timestamps counting
    seconds and a day having 24 hours. *)
Definition days_ago (now days : Z) : Z := (now - days * 86400)%Z.

(** The WHERE clause of [delete_old_cache_entries]. *)
Definition old_entry (now days min_usage : Z) (r : CachedQuestion.t) : bool :=
  (CachedQuestion.last_used r <? days_ago now days)%Z
  && (CachedQuestion.times_used r <? min_usage)%Z.

(** [delete_old_cache_entries]: returns the number of rows deleted. *)
Definition delete_old_cache_entries (now days min_usage : Z) (db : Db)
  : nat * Db :=
  let deleted_ids :=
    map CachedQuestion.id
        (List.filter (old_entry now days min_usage)
           (cached_scientific_questions db)) in
  (length deleted_ids,
   MkDb (List.filter (fun r => negb (old_entry now days min_usage r))
           (cached_scientific_questions db))
        (interactions db) (cached_id_seq db)).

(** *** The interactions table *)

Definition has_interaction_id (i : Z) (r : Interaction.t) : bool :=
  (Interaction.id r =? i)%Z.

(** [get_interaction_by_id] *)
Definition get_interaction_by_id (interaction_id : Z) (db : Db)
  : option Interaction.t :=
  head (List.filter (has_interaction_id interaction_id) (interactions db)).

(** [SET user_feedback = ...] *)
Definition set_feedback (feedback : Z) (i : Interaction.t) : Interaction.t :=
  Interaction.Row (Interaction.id i) (Interaction.user_id i)
    (Interaction.user_input i) (Interaction.bot_response i)
    (Interaction.is_corrected i) (Interaction.corrected_text i)
    feedback (Interaction.cached_question_id i).

(** [update_interaction_feedback].  The function has no except branch:
    when the feedback is outside INTEGER the statement raises, the
    exception leaves the function and nothing is stored ([None]). *)
Definition update_interaction_feedback (interaction_id feedback : Z) (db : Db)
  : option Db :=
  if int4 feedback
  then
    Some (MkDb (cached_scientific_questions db)
            (update_where (has_interaction_id interaction_id)
               (set_feedback feedback) (interactions db))
            (cached_id_seq db))
  else None.

(** [SET is_corrected = TRUE, corrected_text = ..., user_feedback = 0] *)
Definition set_correction (corrected_text : string) (i : Interaction.t)
  : Interaction.t :=
  Interaction.Row (Interaction.id i) (Interaction.user_id i)
    (Interaction.user_input i) (Interaction.bot_response i)
    (Some true) (Some corrected_text) 0 (Interaction.cached_question_id i).

Definition update_interaction_correction (interaction_id : Z)
    (corrected_text : string) (db : Db) : Db :=
  MkDb (cached_scientific_questions db)
       (update_where (has_interaction_id interaction_id)
          (set_correction corrected_text) (interactions db))
       (cached_id_seq db).

(** [SET cached_question_id = ...] *)
Definition set_link (cached_question_id : Z) (i : Interaction.t)
  : Interaction.t :=
  Interaction.Row (Interaction.id i) (Interaction.user_id i)
    (Interaction.user_input i) (Interaction.bot_response i)
    (Interaction.is_corrected i) (Interaction.corrected_text i)
    (Interaction.user_feedback i) (Some cached_question_id).

Definition link_correction_to_cache (interaction_id cached_question_id : Z)
    (db : Db) : Db :=
  MkDb (cached_scientific_questions db)
       (update_where (has_interaction_id interaction_id)
          (set_link cached_question_id) (interactions db))
       (cached_id_seq db).



(** [SET user_feedback = 1, corrected_text = bot_response,
    is_corrected = TRUE] (a row of the model always carries a
    response) *)
Definition set_approved (i : Interaction.t) : Interaction.t :=
  Interaction.Row (Interaction.id i) (Interaction.user_id i)
    (Interaction.user_input i) (Interaction.bot_response i)
    (Some true) (Some (Interaction.bot_response i)) 1
    (Interaction.cached_question_id i).

(** [mark_interaction_as_approved]: returns [cursor.rowcount > 0]. *)
Definition mark_interaction_as_approved (interaction_id : Z) (db : Db)
  : bool * Db :=
  ((0 <? length (List.filter (has_interaction_id interaction_id)
                   (interactions db)))%nat,
   MkDb (cached_scientific_questions db)
        (update_where (has_interaction_id interaction_id) set_approved
           (interactions db))
        (cached_id_seq db)).

(** [delete_interaction_by_id]: returns [cursor.rowcount > 0]. *)
Definition delete_interaction_by_id (interaction_id : Z) (db : Db)
  : bool * Db :=
  ((0 <? length (List.filter (has_interaction_id interaction_id)
                   (interactions db)))%nat,
   MkDb (cached_scientific_questions db)
        (List.filter (fun i => negb (has_interaction_id interaction_id i))
           (interactions db))
        (cached_id_seq db)).

End Database.

(** ** The signature extractor of [EnhancedQuestionDeduplicator] *)

Module Dedup.

Import Re.

Definition lit (s : string) : Str.t := Str.of_string s.

(** A character class given by the list of its members. *)
Definition one_of (s : string) (c : ascii) : bool :=
  existsb (Char.eqb c) (lit s).

(** [[a-d]] under IGNORECASE. *)
Definition is_choice (c : ascii) : bool := Char.in_range 97 100 (Char.lower c).

(** *** [_extract_chemical_formulas] *)

(** [[A-Z][a-z]?\d*] *)
Definition element_re : regex :=
  Seq (Cls Char.is_AZ) (Seq (Opt (Cls Char.is_az)) (Star (Cls Char.is_digit))).

(** The pattern [\b E (?: E )* \b] of the source, where [E] stands for
    [[A-Z][a-z]?\d*]. *)
Definition formula_re : regex :=
  Seq WordB (Seq element_re (Seq (Star element_re) WordB)).

Definition english_words : list string :=
  ["A"; "I"; "In"; "On"; "As"; "At"; "An"; "Is"; "It"; "To"; "Be"]%string.

Definition _extract_chemical_formulas (text : string) : gset string :=
  let matches := findall formula_re (Str.of_string text) in
  fold_left
    (fun formulas m =>
       if negb (bool_decide (Str.to_string m ∈ english_words))
          && (1 <? length m)%nat
       then formulas ∪ {[ Str.to_string (Str.upper m) ]}
       else formulas)
    matches ∅.

(** *** [_extract_numbers_and_units] *)

Definition degree_C : Str.t := [ascii_of_N 176; "C"%char].

(** [(?:mol|g|kg|L|mL|M|atm|Pa|K|°C|J|kJ|eV)] under IGNORECASE *)
Definition unit_re : regex :=
  Alt (LitCI (lit "mol")) (Alt (LitCI (lit "g")) (Alt (LitCI (lit "kg"))
  (Alt (LitCI (lit "L")) (Alt (LitCI (lit "mL")) (Alt (LitCI (lit "M"))
  (Alt (LitCI (lit "atm")) (Alt (LitCI (lit "Pa")) (Alt (LitCI (lit "K"))
  (Alt (LitCI degree_C) (Alt (LitCI (lit "J")) (Alt (LitCI (lit "kJ"))
  (LitCI (lit "eV"))))))))))))).

(** [\d+\.?\d*] *)
Definition decimal_re : regex :=
  Seq (Plus (Cls Char.is_digit))
      (Seq (Opt (Cls (Char.eqb "."%char))) (Star (Cls Char.is_digit))).

(** [\d+\.?\d*\s*(?:mol|...|eV)] *)
Definition number_unit_re : regex :=
  Seq decimal_re (Seq (Star (Cls Char.is_space)) unit_re).

(** [\b\d+\.?\d*\b] *)
Definition number_re : regex := Seq WordB (Seq decimal_re WordB).

Definition _extract_numbers_and_units (text : string) : gset string :=
  fold_left
    (fun numbers pattern =>
       numbers ∪ list_to_set (map Str.to_string
                                (findall pattern (Str.of_string text))))
    [number_unit_re; number_re] ∅.

(** *** [_extract_chemistry_keywords] *)

Definition chemistry_terms : list string :=
  ["oxidation"; "reduction"; "electron"; "atom"; "molecule"; "ion";
   "compound"; "element"; "reaction"; "bond"; "orbital"; "configuration";
   "valence"; "charge"; "state"; "number"; "mass"; "molar"; "concentration";
   "acid"; "base"; "salt"; "pH"; "buffer"; "equilibrium"; "catalyst";
   "transition"; "metal"; "nonmetal"; "periodic"; "table"; "group"; "period";
   "alkali"; "halogen"; "noble"; "gas"; "solid"; "liquid";
   "solution"; "solvent"; "solute"; "dissolve"; "precipitate";
   "exothermic"; "endothermic"; "energy"; "enthalpy"; "entropy"]%string.

Definition _extract_chemistry_keywords (text : string) : gset string :=
  let text_lower := Str.lower (Str.of_string text) in
  fold_left
    (fun keywords term =>
       if Str.contains (lit term) text_lower
       then keywords ∪ {[ term ]} else keywords)
    chemistry_terms ∅.

(** *** [_normalize_answer_choices] *)

(** [\([a-d]\)] and [\[[a-d]\]] *)
Definition paren_choice_re : regex :=
  Seq (Cls (Char.eqb "("%char)) (Seq (Cls is_choice) (Cls (Char.eqb ")"%char))).
Definition bracket_choice_re : regex :=
  Seq (Cls (Char.eqb "["%char)) (Seq (Cls is_choice) (Cls (Char.eqb "]"%char))).

(** [([a-d])-\s*] and [([a-d])\.\s*] *)
Definition dash_choice_re : regex :=
  Seq (Grp 1 (Cls is_choice))
      (Seq (Cls (Char.eqb "-"%char)) (Star (Cls Char.is_space))).
Definition dot_choice_re : regex :=
  Seq (Grp 1 (Cls is_choice))
      (Seq (Cls (Char.eqb "."%char)) (Star (Cls Char.is_space))).

(** [lambda m: m.group(0)[1] + ')'] *)
Definition second_char_paren (m : rmatch) : Str.t :=
  firstn 1 (skipn 1 (whole m)) ++ lit ")".

(** The template [\1) ] *)
Definition group1_paren_space (m : rmatch) : Str.t := group 1 m ++ lit ") ".

Definition _normalize_answer_choices (text : Str.t) : Str.t :=
  let text := sub paren_choice_re second_char_paren text in
  let text := sub bracket_choice_re second_char_paren text in
  let text := sub dash_choice_re group1_paren_space text in
  let text := sub dot_choice_re group1_paren_space text in
  text.

(** *** [_extract_question_fingerprint] *)

(** [\s*\d+[:\)\.-]?\s*] *)
Definition number_tail_re : regex :=
  Seq (Star (Cls Char.is_space))
      (Seq (Plus (Cls Char.is_digit))
           (Seq (Opt (Cls (one_of ":).-")))
                (Star (Cls Char.is_space)))).

(** [(?:question|q)?\s*\d+[:\)\.-]?\s*] under IGNORECASE *)
Definition question_number_re : regex :=
  Seq (Opt (Alt (LitCI (lit "question")) (LitCI (lit "q")))) number_tail_re.

Definition fillers : list string :=
  [" the "; " a "; " an "; " is "; " are "; " of "; " in "; " at "; " to ";
   " from "; " with "]%string.

(** [([A-Z][a-z]?)\s+(\d+)], case-sensitive *)
Definition spaced_formula_re : regex :=
  Seq (Grp 1 (Seq (Cls Char.is_AZ) (Opt (Cls Char.is_az))))
      (Seq (Plus (Cls Char.is_space)) (Grp 2 (Plus (Cls Char.is_digit)))).

(** [[^\w\s\+\-\=\(\)\[\]]] *)
Definition punctuation_re : regex :=
  Cls (fun c => negb (Char.is_word c || Char.is_space c || one_of "+-=()[]" c)).

(** [' '.join(text.split())] *)
Definition collapse_spaces (text : Str.t) : Str.t :=
  Str.join (lit " ") (Str.split text).

Definition remove_fillers (text : Str.t) : Str.t :=
  fold_left (fun text filler => Str.replace (lit filler) (lit " ") text)
            fillers text.

Definition fingerprint (text : Str.t) : Str.t :=
  let text := Str.lower text in
  let text := sub question_number_re (fun _ => lit " ") text in
  let text := _normalize_answer_choices text in
  let text := collapse_spaces text in
  let text := remove_fillers text in
  let text := sub spaced_formula_re (fun m => group 1 m ++ group 2 m) text in
  let text := sub punctuation_re (fun _ => []) text in
  let text := collapse_spaces text in
  Str.strip text.

Definition _extract_question_fingerprint (text : string) : string :=
  Str.to_string (fingerprint (Str.of_string text)).

(** *** The similarity scorer *)

Record signature : Type := Signature {
  sig_fingerprint : string;
  sig_formulas : gset string;
  sig_numbers : gset string;
  sig_keywords : gset string
}.

Definition _create_question_signature (text : string) : signature :=
  Signature (_extract_question_fingerprint text)
            (_extract_chemical_formulas text)
            (_extract_numbers_and_units text)
            (_extract_chemistry_keywords text).

(** The dictionary of scores returned by [_compute_signature_similarity]. *)
Record scores : Type := Scores {
  score_fingerprint : Q;
  score_formulas : Q;
  score_numbers : Q;
  score_keywords : Q;
  score_combined : Q
}.

(** The literals 0.85, 0.75 and 0.82. *)
Definition HIGH_CONFIDENCE_THRESHOLD : Q := Float64.round (85 # 100).
Definition MEDIUM_CONFIDENCE_THRESHOLD : Q := Float64.round (75 # 100).
Definition SEMANTIC_EMBEDDING_THRESHOLD : Q := Float64.round (82 # 100).

Definition Qgtb (x y : Q) : bool := negb (Qle_bool x y).   (* x > y  *)
Definition Qgeb (x y : Q) : bool := Qle_bool y x.          (* x >= y *)

(** [_compute_set_overlap]: the Jaccard index, 0 when a set is empty.
    Python's division of two integers gives the binary64 number nearest
    to the quotient; the quotient is kept exact here and is rounded where
    [_compute_signature_similarity] takes it. *)
Definition _compute_set_overlap (set1 set2 : gset string) : Q :=
  if bool_decide (set1 = ∅) || bool_decide (set2 = ∅) then 0
  else
    let intersection := size (set1 ∩ set2) in
    let union := size (set1 ∪ set2) in
    if (0 <? union)%nat
    then inject_Z (Z.of_nat intersection) / inject_Z (Z.of_nat union)
    else 0.

Section Scorer.

(** [SequenceMatcher(None, a, b).ratio()] of [difflib]. *)
Variable ratio : string -> string -> Q.

(** [numpy.dot] and [numpy.linalg.norm] on embeddings.  [dot] raises
    ([None]) on vectors of different lengths. *)
Variable np_dot : list Q -> list Q -> option Float64.number.
Variable np_norm : list Q -> Float64.number.

Definition _compute_fuzzy_similarity (text1 text2 : string) : Q :=
  ratio text1 text2.

(** [_compute_cosine_similarity]; [None] when [numpy.dot] raises. *)
Definition _compute_cosine_similarity (embedding1 embedding2 : list Q)
  : option Float64.number :=
  match np_dot embedding1 embedding2 with
  | None => None
  | Some dot_product =>
      let norm1 := np_norm embedding1 in
      let norm2 := np_norm embedding2 in
      if Float64.is_zero norm1 || Float64.is_zero norm2
      then Some (Float64.Finite 0)
      else Some (Float64.over dot_product (Float64.times norm1 norm2))
  end.

(** [_compute_signature_similarity].  The combined score is evaluated
    from left to right, each product and each sum rounded. *)
Definition _compute_signature_similarity (sig1 sig2 : signature) : scores :=
  let fingerprint :=
    _compute_fuzzy_similarity (sig_fingerprint sig1) (sig_fingerprint sig2) in
  let formulas :=
    Float64.round
      (_compute_set_overlap (sig_formulas sig1) (sig_formulas sig2)) in
  let numbers :=
    Float64.round
      (_compute_set_overlap (sig_numbers sig1) (sig_numbers sig2)) in
  let keywords :=
    Float64.round
      (_compute_set_overlap (sig_keywords sig1) (sig_keywords sig2)) in
  Scores fingerprint formulas numbers keywords
    (Float64.add
       (Float64.add
          (Float64.add
             (Float64.mul fingerprint (Float64.round (40 # 100)))
             (Float64.mul formulas (Float64.round (35 # 100))))
          (Float64.mul keywords (Float64.round (15 # 100))))
       (Float64.mul numbers (Float64.round (10 # 100)))).

(** *** The deduplication engine *)

(** The embedding client: [embed_query] returns a vector or raises
    ([None]). *)
Definition embedder : Type := string -> option (list Q).

(** The object: [self.embeddings] is [None] when the constructor could
    not create the client. *)
Record EnhancedQuestionDeduplicator : Type := Deduplicator {
  embeddings : option embedder
}.

(** What the engine acts on: the store, and the texts sent to the
    embedding service so far (latest first). *)
Record world : Type := World {
  store : Database.Db;
  embed_calls : list string
}.

Definition approved (q : CachedQuestion.t) : bool :=
  Database.truthy_bool (CachedQuestion.is_corrected q).

(** The loop of layer 2 over the pool: the best approved entry so far
    and its combined score ([best_scores_detail] only feeds the log). *)
Definition signature_step (incoming_sig : signature)
    (best : option CachedQuestion.t * Q)
    (cached_q : CachedQuestion.t) : option CachedQuestion.t * Q :=
  if negb (approved cached_q) then best
  else
    let cached_text := CachedQuestion.question_text cached_q in
    let cached_sig := _create_question_signature cached_text in
    let scores := _compute_signature_similarity incoming_sig cached_sig in
    if Qgtb (score_combined scores) (snd best)
    then (Some cached_q, score_combined scores)
    else best.

Definition signature_layer (incoming_sig : signature)
    (cached_questions : list CachedQuestion.t) : option CachedQuestion.t * Q :=
  fold_left (signature_step incoming_sig) cached_questions (None, 0).

(** The loop of layer 3, one entry and the whole pool; [None] when the
    comparison with an entry raises. *)
Definition semantic_step (question_embedding : list Q)
    (best : option CachedQuestion.t * Float64.number)
    (cached_q : CachedQuestion.t)
  : option (option CachedQuestion.t * Float64.number) :=
  if negb (approved cached_q)
     || negb (Database.truthy_list (CachedQuestion.embedding cached_q))
  then Some best
  else
    match _compute_cosine_similarity question_embedding
            (default [] (CachedQuestion.embedding cached_q)) with
    | None => None
    | Some semantic_sim =>
        if Float64.greater semantic_sim (snd best)
        then Some (Some cached_q, semantic_sim)
        else Some best
    end.

Fixpoint semantic_loop (question_embedding : list Q)
    (cached_questions : list CachedQuestion.t)
    (best : option CachedQuestion.t * Float64.number)
  : option (option CachedQuestion.t * Float64.number) :=
  match cached_questions with
  | [] => Some best
  | cached_q :: rest =>
      match semantic_step question_embedding best cached_q with
      | None => None
      | Some best' => semantic_loop question_embedding rest best'
      end
  end.

Definition semantic_layer (question_embedding : list Q)
    (cached_questions : list CachedQuestion.t)
  : option (option CachedQuestion.t * Float64.number) :=
  semantic_loop question_embedding cached_questions (None, Float64.Finite 0).

(** Layer 1: the row fetched by image hash is a hit when it is approved.
    [None]: the hash holds the code point 0, and
    [get_cached_question_by_image_hash] raises before it reads
    anything. *)
Definition image_hash_layer (now : Z) (image_hash : option string)
    (db : Database.Db) : option (option CachedQuestion.t * Database.Db) :=
  if Database.truthy_str image_hash
  then
    if negb (Database.sendable (default ""%string image_hash)) then None
    else
      let '(exact_match, db') :=
        Database.get_cached_question_by_image_hash now
          (default ""%string image_hash) db in
      match exact_match with
      | Some q => if approved q then Some (Some q, db') else Some (None, db')
      | None => Some (None, db')
      end
  else Some (None, db).

(** [find_similar_question].  An exception raised inside the [try] block
    (by the driver in layer 1, by [embed_query], or by numpy in the loop
    of layer 3) ends the call with [None]; the usage bump of layer 1 is
    committed before the later layers run and stays. *)
Definition find_similar_question (self : EnhancedQuestionDeduplicator)
    (now : Z) (question_text : string) (image_hash : option string)
    (w : world) : option CachedQuestion.t * world :=
  match embeddings self with
  | None => (None, w)
  | Some client =>
      match image_hash_layer now image_hash (store w) with
      | None => (None, w)
      | Some (Some exact_match, db) =>
          (Some exact_match, World db (embed_calls w))
      | Some (None, db) =>
          (* layer 2: signature matching *)
          let incoming_sig := _create_question_signature question_text in
          let cached_questions := Database.get_recent_cached_questions 200 db in
          let '(best_match, best_score) :=
            signature_layer incoming_sig cached_questions in
          if Qgeb best_score HIGH_CONFIDENCE_THRESHOLD
          then (best_match, World db (embed_calls w))
          else if Qgeb best_score MEDIUM_CONFIDENCE_THRESHOLD
          then (best_match, World db (embed_calls w))
          else
            (* layer 3: semantic embedding *)
            let w3 := World db (question_text :: embed_calls w) in
            match client question_text with
            | None => (None, w3)
            | Some question_embedding =>
                match semantic_layer question_embedding cached_questions with
                | None => (None, w3)
                | Some (best_semantic_match, best_semantic_score) =>
                    if Float64.at_least best_semantic_score
                         (Float64.Finite SEMANTIC_EMBEDDING_THRESHOLD)
                    then (best_semantic_match, w3)
                    else (None, w3)
                end
            end
      end
  end.

(** [cache_question] *)
Definition cache_question (self : EnhancedQuestionDeduplicator) (now : Z)
    (question_text answer_text : string) (image_hash : option string)
    (metadata : option (list (string * string))) (w : world)
  : bool * world :=
  match embeddings self with
  | None => (false, w)
  | Some client =>
      let signature := _create_question_signature question_text in
      let normalized_text := sig_fingerprint signature in
      let w1 := World (store w) (question_text :: embed_calls w) in
      match client question_text with
      | None => (false, w1)
      | Some question_embedding =>
          let '(cached_id, db) :=
            Database.cache_scientific_question now question_text
              normalized_text answer_text question_embedding image_hash
              metadata (store w) in
          (Database.truthy_int cached_id, World db (embed_calls w1))
      end
  end.

(** [update_cached_answer] *)
Definition update_cached_answer (now : Z) (cached_question_id : Z)
    (new_answer correction_source : string) (w : world) : bool * world :=
  let '(success, db) :=
    Database.update_cached_question_answer now cached_question_id
      new_answer correction_source (store w) in
  (success, World db (embed_calls w)).

End Scorer.

End Dedup.

(** ** The cache deletion endpoint of the dashboard *)

Module AdminDashboard.

Import Database.

(** The JSON answer of the endpoint: success with the number and the ids
    of the interactions unlinked, or the error [Cached question not
    found]. *)
Inductive delete_response : Type :=
| Deleted (unlinked_count : nat) (affected_interactions : list Z)
| NotFound.

Definition success (r : delete_response) : bool :=
  match r with Deleted _ _ => true | NotFound => false end.

Definition linked_to (cached_id : Z) (i : Interaction.t) : bool :=
  bool_decide (Interaction.cached_question_id i = Some cached_id).

(** [SET cached_question_id = NULL, is_corrected = FALSE,
    corrected_text = NULL] *)
Definition unlink (i : Interaction.t) : Interaction.t :=
  Interaction.Row (Interaction.id i) (Interaction.user_id i)
    (Interaction.user_input i) (Interaction.bot_response i)
    (Some false) None (Interaction.user_feedback i) None.

(** [delete_cached_question]: the three statements run in one
    transaction on a working copy of the store, which is committed when
    the DELETE returned a row and rolled back otherwise. *)
Definition delete_cached_question (cached_id : Z) (db : Db)
  : delete_response * Db :=
  let affected_ids :=
    map Interaction.id (List.filter (linked_to cached_id) (interactions db)) in
  let unlinked_count :=
    length (List.filter (linked_to cached_id) (interactions db)) in
  let interactions' := update_where (linked_to cached_id) unlink (interactions db) in
  let deleted :=
    List.filter (has_id cached_id) (cached_scientific_questions db) in
  let cached' :=
    List.filter (fun r => negb (has_id cached_id r))
      (cached_scientific_questions db) in
  match deleted with
  | _ :: _ =>
      (Deleted unlinked_count affected_ids,
       MkDb cached' interactions' (cached_id_seq db))
  | [] => (NotFound, db)
  end.


Section ForceUpdate.

Variable ratio : string -> string -> Q.
Variable np_dot : list Q -> list Q -> option Float64.number.
Variable np_norm : list Q -> Float64.number.


End ForceUpdate.

(** *** Uploads of the broadcast feature *)

Definition ALLOWED_EXTENSIONS : list string :=
  ["png"; "jpg"; "jpeg"; "gif"; "mp4"; "mov"; "avi"; "mp3"; "opus"; "wav";
   "m4a"; "pdf"]%string.

(** [allowed_file]: ['.' in filename and
    filename.rsplit('.', 1)[1].lower() in ALLOWED_EXTENSIONS] *)
Definition allowed_file (filename : string) : bool :=
  let s := Str.of_string filename in
  Str.contains (Str.of_string ".") s
  && bool_decide
       (Str.to_string (Str.lower (nth 1 (Str.rsplit1 "."%char s) []))
          ∈ ALLOWED_EXTENSIONS).

End AdminDashboard.

(** ** Sample collaborators and data for the examples *)

Module Sample.

(** A stand-in for [SequenceMatcher.ratio]: 1 on equal texts, else 0. *)
Definition ratio (a b : string) : Q :=
  if bool_decide (a = b) then 1 else 0.

(** Stand-ins for numpy on vectors: the dot product, defined on vectors
    of one length, and the 1-norm in place of the Euclidean norm; each is
    computed exactly and rounded once. *)
Fixpoint dot (u v : list Q) : option Q :=
  match u, v with
  | [], [] => Some 0
  | x :: u', y :: v' =>
      match dot u' v' with
      | Some d => Some (x * y + d)
      | None => None
      end
  | _, _ => None
  end.

Definition np_dot (u v : list Q) : option Float64.number :=
  match dot u v with
  | Some d => Some (Float64.rounded d)
  | None => None
  end.

Fixpoint norm1 (u : list Q) : Q :=
  match u with
  | x :: u' => (if Qle_bool 0 x then x else - x) + norm1 u'
  | [] => 0
  end.

Definition np_norm (u : list Q) : Float64.number := Float64.rounded (norm1 u).

(** An embedding client that answers every text with the same vector,
    and one whose call raises. *)
Definition constant_client : Dedup.embedder := fun _ => Some [1; 0].
Definition failing_client : Dedup.embedder := fun _ => None.

Definition question (i : Z) (text : string) (hash : option string)
    (used_at : Z) (ok : bool) : CachedQuestion.t :=
  CachedQuestion.Row i text text "answer"%string (Some [1; 0]) hash 1
    used_at used_at (Some ok) None None None.

Definition interaction (i : Z) (link : option Z) : Interaction.t :=
  Interaction.Row i "user"%string "input"%string "output"%string
    (Some true) (Some "fixed"%string) 0 link.

(** A store with three cached questions (the second unapproved), three
    interactions linked to question 1 and one linked to question 2. *)
Definition db0 : Database.Db :=
  Database.MkDb
    [question 1 "What is the oxidation state of Fe in Fe2O3?"
       (Some "abc123"%string) 5 true;
     question 2 "Explain NaCl solubility" (Some "ffee00"%string) 7 false;
     question 3 "Define a catalyst" None 6 true]
    [interaction 10 (Some 1%Z); interaction 11 (Some 2%Z);
     interaction 12 (Some 1%Z); interaction 13 None; interaction 14 (Some 1%Z)]
    4.

Definition world0 : Dedup.world := Dedup.World db0 [].

(** A client whose vectors are orthogonal to the stored embeddings. *)
Definition orthogonal_client : Dedup.embedder := fun _ => Some [0; 1].

(** Two rows cached from the same image: the first was approved, the
    second, used more recently, was not. *)
Definition db1 : Database.Db :=
  Database.MkDb
    [question 1 "What is the oxidation state of Fe in Fe2O3?"
       (Some "abc123"%string) 5 true;
     question 2 "What is the oxidation state of Fe in Fe2O3?"
       (Some "abc123"%string) 7 false]
    [] 3.

Definition world1 : Dedup.world := Dedup.World db1 [].

(** One approved row whose text has the fingerprint and the numbers of
    "NaCl KOH acid base 5 ml", one of its two formulas and one of its two
    keywords. *)
Definition db2 : Database.Db :=
  Database.MkDb [question 1 "NaCl koh acid ba!se 5 ml" None 5 true] [] 2.

Definition world2 : Dedup.world := Dedup.World db2 [].

End Sample.

(** ** Vocabulary of the statements *)

Module Vocabulary.

(** The best entry kept by a loop over the pool is approved. *)
Definition best_approved {S : Type} (best : option CachedQuestion.t * S)
  : Prop :=
  forall q, best.1 = Some q -> Dedup.approved q = true.

(** What the loops of layers 2 and 3 use of the comparisons [>] and [>=]
    of their scores; the laws hold of rationals and of binary64 values,
    where a value that is not a number compares false with everything. *)
Record comparison_laws {S : Type} (gt ge : S -> S -> bool) : Prop := {
  gt_above : forall a b c, gt a b = true -> gt c b = false -> ge c a = false;
  gt_strict : forall a b, gt a b = true -> ge b a = false;
  gt_below : forall a b c, gt a b = true -> ge c b = false -> ge c a = false;
  gt_trans : forall a b c, gt a b = true -> gt b c = true -> gt a c = true;
  ge_gt : forall a b, ge a b = false -> gt a b = false;
  ge_gt_trans : forall a b c, ge a b = true -> gt b c = true -> gt a c = true;
  ge_over : forall a b t z,
      ge a t = true -> ge a b = false -> gt b z = true -> ge b t = true;
  ge_under : forall a b t z,
      ge a t = true -> gt a b = false -> gt b z = true -> ge b t = true
}.

(** [x] is the first of the entries of [l] selected by [keep] whose
    score is the highest among them: no selected entry before it scores
    as high, no selected entry after it scores higher. *)
Definition is_first_max {A S : Type} (gt ge : S -> S -> bool)
    (keep : A -> bool) (score : A -> S) (l : list A) (x : A) : Prop :=
  exists l1 l2,
    l = l1 ++ x :: l2
    /\ keep x = true
    /\ (forall y, y ∈ l1 -> keep y = true -> ge (score y) (score x) = false)
    /\ (forall y, y ∈ l2 -> keep y = true -> gt (score y) (score x) = false).

(** The loop shared by layers 2 and 3: keep the first entry whose score
    exceeds the best so far. *)
Definition best_step {A S : Type} (gt : S -> S -> bool) (keep : A -> bool)
    (score : A -> S) (best : option A * S) (x : A) : option A * S :=
  if negb (keep x) then best
  else if gt (score x) (snd best) then (Some x, score x) else best.

(** The text left after its longest prefix of characters of a class. *)
Fixpoint skip (p : ascii -> bool) (s : Str.t) : Str.t :=
  match s with
  | c :: s' => if p c then skip p s' else s
  | [] => []
  end.

(** [s] starts with [p], case being ignored. *)
Fixpoint starts_ci (p s : Str.t) : bool :=
  match p, s with
  | [], _ => true
  | x :: p', y :: s' => Char.eq_ci x y && starts_ci p' s'
  | _ :: _, [] => false
  end.

(** The text after one of the four marks [: ) . -], if it starts with
    one. *)
Definition after_mark (s : Str.t) : Str.t :=
  match s with
  | c :: s' => if Dedup.one_of ":).-" c then s' else s
  | [] => []
  end.

(** What the part of the question-number pattern after its optional
    word leaves of a text: white space, then at least one digit and the
    digits after it, then one of the four marks if present, then white
    space. *)
Definition number_tail (s : Str.t) : option Str.t :=
  match skip Char.is_space s with
  | c :: s1 =>
      if Char.is_digit c
      then
        Some (skip Char.is_space (after_mark (skip Char.is_digit s1)))
      else None
  | [] => None
  end.

(** What is left of a text when a match of the question-number pattern
    is in the middle of its digits at the start of that text. *)
Definition digits_tail (s : Str.t) : Str.t :=
  skip Char.is_space (after_mark (skip Char.is_digit s)).

(** A text whose last character is a digit. *)
Definition ends_with_digit (s : Str.t) : Prop :=
  exists k c, s = k ++ [c] /\ Char.is_digit c = true.

(** The question-number stage of the fingerprint. *)
Definition strip_numbers (s : Str.t) : Str.t :=
  Re.sub Dedup.question_number_re (fun _ => Dedup.lit " ") s.

(** What a match of the question-number pattern at the start of a text
    leaves of it: the word "question" is tried first, then "q", then no
    word. *)
Definition number_match (s : Str.t) : option Str.t :=
  match (if starts_ci (Dedup.lit "question") s
         then number_tail (drop 8 s) else None) with
  | Some rem => Some rem
  | None =>
      match (if starts_ci (Dedup.lit "q") s
             then number_tail (drop 1 s) else None) with
      | Some rem => Some rem
      | None => number_tail s
      end
  end.

(** A pattern without [\b]. *)
Fixpoint no_boundary (r : Re.regex) : bool :=
  match r with
  | Re.Eps | Re.Cls _ => true
  | Re.Seq r1 r2 | Re.Alt r1 r2 => no_boundary r1 && no_boundary r2
  | Re.Star r' | Re.Grp _ r' => no_boundary r'
  | Re.WordB => false
  end.

(** A continuation that does not look at the previous character. *)
Definition prev_blind {A : Type} (k : Re.mstate -> option A) : Prop :=
  forall pv1 pv2 s cs, k (Re.MState pv1 s cs) = k (Re.MState pv2 s cs).

(** Greedy repetition of one character class, by recursion on the text. *)
Fixpoint star_cls {A : Type} (p : ascii -> bool) (k : Re.mstate -> option A)
    (s : Str.t) (cs : list (nat * Str.t)) : option A :=
  match s with
  | c :: s' =>
      if p c
      then match star_cls p k s' cs with
           | Some x => Some x
           | None => k (Re.MState None s cs)
           end
      else k (Re.MState None s cs)
  | [] => k (Re.MState None [] cs)
  end.

(** The stages of the fingerprint after the question-number stage. *)
Definition finish (text : Str.t) : Str.t :=
  let text := Dedup._normalize_answer_choices text in
  let text := Dedup.collapse_spaces text in
  let text := Dedup.remove_fillers text in
  let text :=
    Re.sub Dedup.spaced_formula_re
      (fun m => Re.group 1 m ++ Re.group 2 m) text in
  let text := Re.sub Dedup.punctuation_re (fun _ => []) text in
  let text := Dedup.collapse_spaces text in
  Str.strip text.

(** The stage meant to close up "Fe 2" into "Fe2", and the punctuation
    stage. *)
Definition close_formulas (text : Str.t) : Str.t :=
  Re.sub Dedup.spaced_formula_re (fun m => Re.group 1 m ++ Re.group 2 m) text.

Definition strip_punctuation (text : Str.t) : Str.t :=
  Re.sub Dedup.punctuation_re (fun _ => []) text.

(** A capital letter, or a capital letter and a small letter: the shape
    of an element symbol. *)
Definition is_symbol (s : Str.t) : bool :=
  match s with
  | [c] => Char.is_AZ c
  | [c; l] => Char.is_AZ c && Char.is_az l
  | _ => false
  end.

Definition all_digits (s : Str.t) : bool := forallb Char.is_digit s.
Definition all_spaces (s : Str.t) : bool := forallb Char.is_space s.
Definition nonempty (s : Str.t) : bool :=
  match s with [] => false | _ => true end.

(** The characters the punctuation stage keeps. *)
Definition kept_char (c : ascii) : bool :=
  Char.is_word c || Char.is_space c || Dedup.one_of "+-=()[]" c.

(** Two outcomes of a match attempt on [a ++ X1] and [a ++ X2] that
    agree: both fail, or both leave the same text, or both stop inside
    [a] at the same place. *)
Definition sync (X1 X2 a : Str.t) (o1 o2 : option Str.t) : Prop :=
  (o1 = None /\ o2 = None)
  \/ (exists r, o1 = Some r /\ o2 = Some r)
  \/ (exists a', a' `suffix_of` a
                 /\ o1 = Some (a' ++ X1) /\ o2 = Some (a' ++ X2)).

(** A word of [str.split()]: non-empty and free of white space. *)
Definition is_word_str (w : Str.t) : Prop :=
  w <> [] /\ Forall (fun c => Char.is_space c = false) w.

(** A text that does not start with white space. *)
Definition no_lead (s : Str.t) : Prop :=
  match s with
  | c :: _ => Char.is_space c = false
  | [] => True
  end.

(** A match whose text and groups are made of characters satisfying
    [P]. *)
Definition caps_ok (P : ascii -> Prop) (cs : list (nat * Str.t)) : Prop :=
  Forall (fun g => Forall P g.2) cs.

Definition match_ok (P : ascii -> Prop) (m : Re.rmatch) : Prop :=
  Forall P (Re.whole m) /\ caps_ok P (Re.groups m).

Definition piece_ok (P : ascii -> Prop) (x : Re.piece) : Prop :=
  match x with
  | Re.PChar c => P c
  | Re.PMatch m => match_ok P m
  end.

Definition state_ok (P : ascii -> Prop) (st : Re.mstate) : Prop :=
  Forall P (Re.rest st) /\ caps_ok P (Re.caps st).

(** The combined signature score of a pool entry against the incoming
    text, and the cosine score of its stored embedding against the
    embedding of the incoming text. *)
Definition sig_score (ratio : string -> string -> Q) (text : string)
    (q : CachedQuestion.t) : Q :=
  Dedup.score_combined
    (Dedup._compute_signature_similarity ratio
       (Dedup._create_question_signature text)
       (Dedup._create_question_signature (CachedQuestion.question_text q))).

(** The comparison of the incoming embedding with the stored embedding
    of a pool entry: [None] when numpy raises; and its value, no number
    standing for a comparison that raised. *)
Definition cos_score (np_dot : list Q -> list Q -> option Float64.number)
    (np_norm : list Q -> Float64.number)
    (e : list Q) (q : CachedQuestion.t) : option Float64.number :=
  Dedup._compute_cosine_similarity np_dot np_norm e
    (default [] (CachedQuestion.embedding q)).

Definition cos_value (np_dot : list Q -> list Q -> option Float64.number)
    (np_norm : list Q -> Float64.number)
    (e : list Q) (q : CachedQuestion.t) : Float64.number :=
  default Float64.NaN (cos_score np_dot np_norm e q).

(** An approved entry with a stored, non-empty embedding. *)
Definition has_embedding (q : CachedQuestion.t) : bool :=
  Dedup.approved q && Database.truthy_list (CachedQuestion.embedding q).

(** A non-empty image hash that the driver refuses. *)
Definition hash_refused (image_hash : option string) : bool :=
  Database.truthy_str image_hash
  && negb (Database.sendable (default ""%string image_hash)).

(** The fetch of layer 1: by image hash when a non-empty hash is given
    that the driver accepts. *)
Definition fetch_by_hash (now : Z) (image_hash : option string)
    (db : Database.Db) : option CachedQuestion.t * Database.Db :=
  match image_hash with
  | Some h =>
      if bool_decide (h = ""%string) || negb (Database.sendable h)
      then (None, db)
      else Database.get_cached_question_by_image_hash now h db
  | None => (None, db)
  end.

(** What the loop has established after reading the entries [seen]. *)
Definition loop_state {A S : Type} (gt ge : S -> S -> bool) (zero : S)
    (keep : A -> bool) (score : A -> S)
    (seen : list A) (best : option A * S) : Prop :=
  (best.1 = None /\ best.2 = zero
   /\ forall y, y ∈ seen -> keep y = true -> gt (score y) zero = false)
  \/ (exists x, best.1 = Some x /\ best.2 = score x
                /\ gt (score x) zero = true
                /\ is_first_max gt ge keep score seen x).

(** [q] is a best entry of the pool among those selected by [keep]: no
    selected entry scores higher, and no selected entry that scores as
    high was used more recently.  Where the database leaves the order of
    two rows open, the loop may keep either. *)
Definition best_in_pool {S : Type} (gt ge : S -> S -> bool)
    (keep : CachedQuestion.t -> bool) (score : CachedQuestion.t -> S)
    (pool : list CachedQuestion.t) (q : CachedQuestion.t) : Prop :=
  q ∈ pool /\ keep q = true
  /\ (forall y, y ∈ pool -> keep y = true -> gt (score y) (score q) = false)
  /\ (forall y, y ∈ pool -> keep y = true -> ge (score y) (score q) = true ->
        (CachedQuestion.last_used y <= CachedQuestion.last_used q)%Z).

(** [q] is a best approved entry of the pool by combined score: no
    approved entry scores higher, and no approved entry with the same
    score was used more recently. *)
Definition best_signature_match (ratio : string -> string -> Q)
    (text : string) (pool : list CachedQuestion.t) (q : CachedQuestion.t)
  : Prop :=
  q ∈ pool /\ Dedup.approved q = true
  /\ (forall y, y ∈ pool -> Dedup.approved y = true ->
        sig_score ratio text y <= sig_score ratio text q)
  /\ (forall y, y ∈ pool -> Dedup.approved y = true ->
        sig_score ratio text y == sig_score ratio text q ->
        (CachedQuestion.last_used y <= CachedQuestion.last_used q)%Z).

(** A row of [rows] that satisfies [p] and was used at least as recently
    as every row of [rows] that satisfies [p]. *)
Definition latest_with (p : CachedQuestion.t -> Prop)
    (rows : list CachedQuestion.t) (row : CachedQuestion.t) : Prop :=
  row ∈ rows /\ p row
  /\ forall q, q ∈ rows -> p q ->
       (CachedQuestion.last_used q <= CachedQuestion.last_used row)%Z.

(** [rows'] is [rows] with the usage of the rows of id [i] bumped, row by
    row. *)
Definition usage_bumped (now i : Z) (rows rows' : list CachedQuestion.t)
  : Prop :=
  length rows' = length rows
  /\ forall n q, rows !! n = Some q ->
       rows' !! n
       = Some (if bool_decide (CachedQuestion.id q = i)
               then Database.bump_usage now q else q).

(** [q'] is [q], or [q] with its usage bumped. *)
Definition usage_only (now : Z) (q q' : CachedQuestion.t) : Prop :=
  q' = q \/ q' = Database.bump_usage now q.

(** Most recently used first: no row is used more recently than a row
    before it. *)
Fixpoint recent_first (l : list CachedQuestion.t) : Prop :=
  match l with
  | [] => True
  | a :: l' =>
      Forall (fun b =>
                (CachedQuestion.last_used b <= CachedQuestion.last_used a)%Z) l'
      /\ recent_first l'
  end.

(** The ids of the cache table are distinct and were drawn from the
    sequence, and every row counts at least the use that created it. *)
Definition store_ok (db : Database.Db) : Prop :=
  NoDup (map CachedQuestion.id (Database.cached_scientific_questions db))
  /\ (forall q, q ∈ Database.cached_scientific_questions db ->
        (CachedQuestion.id q < Database.cached_id_seq db)%Z)
  /\ (forall q, q ∈ Database.cached_scientific_questions db ->
        (1 <= CachedQuestion.times_used q)%Z).

(** Every character class of [r] lies within [C]. *)
Fixpoint classes_within (C : ascii -> bool) (r : Re.regex) : Prop :=
  match r with
  | Re.Cls p => forall c, p c = true -> C c = true
  | Re.Seq r1 r2 => classes_within C r1 /\ classes_within C r2
  | Re.Alt r1 r2 => classes_within C r1 /\ classes_within C r2
  | Re.Star r' => classes_within C r'
  | Re.Grp _ r' => classes_within C r'
  | Re.Eps => True
  | Re.WordB => True
  end.

(** [st'] is reached from [st] by reading characters of [C]. *)
Definition reads (C : ascii -> bool) (st st' : Re.mstate) : Prop :=
  exists pre, Re.rest st = pre ++ Re.rest st'
              /\ Forall (fun c => C c = true) pre.

(** The characters a match of the formula pattern is made of. *)
Definition formula_char (c : ascii) : bool :=
  Char.is_AZ c || Char.is_az c || Char.is_digit c.

(** A text without a full stop. *)
Definition no_dot (s : Str.t) : Prop := Forall (fun c => c <> "."%char) s.

(** An image hash with a character that is not a blank after its 64th
    character: too long for its column. *)
Definition hash_overlong (image_hash : option string) : Prop :=
  exists h c, image_hash = Some h
              /\ c ∈ drop 64 (Str.of_string h) /\ c <> " "%char.

(** Two texts that differ only in digits: where the one has a run of
    digits the other has a run of digits, any number of times; every
    other character, a sign or a decimal point included, is the same. *)
Inductive digits_changed : string -> string -> Prop :=
| digits_same (t : string) : digits_changed t t
| digits_step (pre d1 d2 post t : string) :
    all_digits (Str.of_string d1) = true ->
    nonempty (Str.of_string d1) = true ->
    all_digits (Str.of_string d2) = true ->
    nonempty (Str.of_string d2) = true ->
    digits_changed (pre +:+ d2 +:+ post) t ->
    digits_changed (pre +:+ d1 +:+ post) t.

End Vocabulary.

(** * Properties *)

(** Case analysis on the 256 code points. *)
Ltac each_char c :=
  destruct c as [[|] [|] [|] [|] [|] [|] [|] [|]].

(** ** Binary64 rounding *)

Section Float64Facts.

Import Float64.
Open Scope Q_scope.

Lemma pow2_positive (e : Z) : 0 < 2 ^ e.
Proof. apply Qpower_0_lt. reflexivity. Qed.

Lemma pow2_integer (e : Z) : (0 <= e)%Z -> 2 ^ e == inject_Z (2 ^ e).
Proof. intros H. symmetry. apply (Zpower_Qpower 2 e H). Qed.

Lemma pow2_plus (a b : Z) : 2 ^ (a + b) == 2 ^ a * 2 ^ b.
Proof. apply Qpower_plus. discriminate. Qed.

Lemma pow2_le (a b : Z) : (a <= b)%Z -> 2 ^ a <= 2 ^ b.
Proof. intros H. apply Qpower_le_compat_l; [exact H | discriminate]. Qed.

Lemma pow2_lt (a b : Z) : (a < b)%Z -> 2 ^ a < 2 ^ b.
Proof. intros H. apply Qpower_lt_compat_l; [exact H | reflexivity]. Qed.

Lemma nearest_even_bounds (q : Q) :
  (Qfloor q <= nearest_even q <= Qfloor q + 1)%Z.
Proof.
  unfold nearest_even. cbn zeta.
  destruct (Qcompare _ _); [destruct (Z.even _)|..]; lia.
Qed.

Lemma nearest_even_mono (x y : Q) :
  x <= y -> (nearest_even x <= nearest_even y)%Z.
Proof.
  intros H. pose proof (Qfloor_resp_le _ _ H) as Hf.
  destruct (Z.eq_dec (Qfloor x) (Qfloor y)) as [E|N].
  - unfold nearest_even. cbn zeta. rewrite <- E.
    destruct (Qcompare_spec (y - inject_Z (Qfloor x)) (1 # 2)) as [Hy|Hy|Hy];
      destruct (Qcompare_spec (x - inject_Z (Qfloor x)) (1 # 2)) as [Hx|Hx|Hx];
      try destruct (Z.even _); try lia; exfalso; lra.
  - pose proof (nearest_even_bounds x). pose proof (nearest_even_bounds y). lia.
Qed.

Lemma nearest_even_integer (k : Z) : nearest_even (inject_Z k) = k.
Proof.
  unfold nearest_even. cbn zeta. rewrite Qfloor_Z.
  destruct (Qcompare_spec (inject_Z k - inject_Z k) (1 # 2)) as [H|H|H];
    [exfalso; lra | reflexivity | exfalso; lra].
Qed.

Lemma nearest_even_error (q : Q) :
  - (1 # 2) <= inject_Z (nearest_even q) - q <= 1 # 2.
Proof.
  pose proof (Qfloor_le q) as Hlo. pose proof (Qlt_floor q) as Hhi.
  rewrite inject_Z_plus in Hhi. change (inject_Z 1) with 1 in Hhi.
  unfold nearest_even. cbn zeta.
  destruct (Qcompare_spec (q - inject_Z (Qfloor q)) (1 # 2)) as [H|H|H];
    [destruct (Z.even _)|..]; rewrite ?inject_Z_plus;
    change (inject_Z 1) with 1; lra.
Qed.

Lemma exponent_spec (q : Q) :
  0 < q -> 2 ^ exponent q <= q < 2 ^ (exponent q + 1).
Proof.
  intros Hq. destruct q as [n d].
  assert (Hn : (0 < n)%Z) by (unfold Qlt in Hq; cbn in Hq; lia).
  unfold exponent. cbn [Qnum Qden].
  set (a := Z.log2 n). set (b := Z.log2 (Z.pos d)).
  destruct (Z.log2_spec n Hn) as [Ha1 Ha2]. fold a in Ha1, Ha2.
  destruct (Z.log2_spec (Z.pos d) eq_refl) as [Hb1 Hb2]. fold b in Hb1, Hb2.
  assert (Ha0 : (0 <= a)%Z) by apply Z.log2_nonneg.
  assert (Hb0 : (0 <= b)%Z) by apply Z.log2_nonneg.
  assert (Hnd : n # d == inject_Z n / inject_Z (Z.pos d)) by apply Qmake_Qdiv.
  assert (Hdpos : 0 < inject_Z (Z.pos d)) by reflexivity.
  assert (Hqd : (n # d) * inject_Z (Z.pos d) == inject_Z n).
  { rewrite Hnd. field. discriminate. }
  rewrite <- Z.add_1_r in Ha2, Hb2.
  rewrite Zle_Qle in Ha1, Hb1. rewrite Zlt_Qlt in Ha2, Hb2.
  rewrite <- pow2_integer in Ha1, Ha2, Hb1, Hb2 by lia.
  pose proof (pow2_plus (a - b) b) as E1.
  replace (a - b + b)%Z with a in E1 by lia.
  pose proof (pow2_plus (a - b) 1) as E2.
  pose proof (pow2_plus (a - b - 1) 1) as E3.
  replace (a - b - 1 + 1)%Z with (a - b)%Z in E3 by lia.
  pose proof (pow2_plus a 1) as E4.
  pose proof (pow2_plus b 1) as E5.
  change (2 ^ 1) with 2 in E2, E3, E4, E5.
  pose proof (pow2_positive (a - b)) as P1.
  pose proof (pow2_positive (a - b - 1)) as P2.
  pose proof (pow2_positive b) as P3.
  set (X := 2 ^ (a - b)) in *. set (Y := 2 ^ (a - b - 1)) in *.
  set (A := 2 ^ a) in *. set (B := 2 ^ b) in *.
  set (N := inject_Z n) in *. set (D := inject_Z (Z.pos d)) in *.
  set (q := n # d) in *.
  assert (Hup : q < 2 * X).
  { (* q * D = N < 2A = 2 X B <= 2 X D *)
    apply Qnot_le_lt. intros Hc.
    assert (2 * X * D <= q * D) by (apply Qmult_le_compat_r; [exact Hc | lra]).
    assert (X * B <= X * D).
    { rewrite !(Qmult_comm X). apply Qmult_le_compat_r; lra. }
    lra. }
  assert (Hlow : Y < q).
  { (* Y * D < Y * 2B = X B = A <= N = q D *)
    apply Qnot_le_lt. intros Hc.
    assert (q * D <= Y * D) by (apply Qmult_le_compat_r; [exact Hc | lra]).
    assert (Y * D < Y * (2 * B)).
    { rewrite !(Qmult_comm Y). apply Qmult_lt_compat_r; lra. }
    assert (Y * (2 * B) == X * B) by (rewrite E3; ring).
    lra. }
  destruct (Qle_bool X q) eqn:Hc.
  - apply Qle_bool_iff in Hc. split; [exact Hc|]. rewrite E2. lra.
  - assert (Hlt : q < X).
    { apply Qnot_le_lt. intros Hle. apply Qle_bool_iff in Hle. congruence. }
    replace (a - b - 1 + 1)%Z with (a - b)%Z by lia. fold X. fold Y.
    split; lra.
Qed.

Lemma exponent_unique (q : Q) (e : Z) :
  2 ^ e <= q < 2 ^ (e + 1) -> exponent q = e.
Proof.
  intros [H1 H2].
  assert (Hq : 0 < q) by (pose proof (pow2_positive e); lra).
  destruct (exponent_spec q Hq) as [S1 S2].
  destruct (Z.lt_trichotomy (exponent q) e) as [Hlt|[E|Hgt]]; [exfalso|exact E|exfalso].
  - pose proof (pow2_le (exponent q + 1) e ltac:(lia)). lra.
  - pose proof (pow2_le (e + 1) (exponent q) ltac:(lia)). lra.
Qed.

Lemma exponent_mono (x y : Q) :
  0 < x -> x <= y -> (exponent x <= exponent y)%Z.
Proof.
  intros Hx Hxy.
  destruct (exponent_spec x Hx) as [X1 X2].
  destruct (exponent_spec y ltac:(lra)) as [Y1 Y2].
  destruct (Z_le_gt_dec (exponent x) (exponent y)) as [H|H]; [exact H|exfalso].
  pose proof (pow2_le (exponent y + 1) (exponent x) ltac:(lia)). lra.
Qed.

Lemma exponent_proper (x y : Q) : 0 < x -> x == y -> exponent x = exponent y.
Proof.
  intros Hx E. symmetry. apply exponent_unique. rewrite <- E.
  apply exponent_spec, Hx.
Qed.

Lemma round_positive_nonneg (x : Q) : 0 < x -> 0 <= round_positive x.
Proof.
  intros Hx. unfold round_positive. cbn zeta.
  pose proof (pow2_positive (ulp_exponent x)) as Hp.
  assert (H : inject_Z 0 <= x / 2 ^ ulp_exponent x).
  { apply Qle_shift_div_l; [exact Hp|]. change (inject_Z 0) with 0. lra. }
  pose proof (nearest_even_mono _ _ H) as Hm.
  rewrite (nearest_even_integer 0) in Hm.
  apply Qmult_le_0_compat; [|lra].
  rewrite Zle_Qle in Hm. exact Hm.
Qed.

Lemma round_positive_proper (x y : Q) :
  0 < x -> x == y -> round_positive x == round_positive y.
Proof.
  intros Hx E. unfold round_positive, ulp_exponent. cbn zeta.
  rewrite <- (exponent_proper x y Hx E).
  assert (E' : x / 2 ^ Z.max (exponent x - 52) (-1074)
               == y / 2 ^ Z.max (exponent x - 52) (-1074))
    by (apply Qdiv_comp; [exact E | reflexivity]).
  apply Qmult_comp; [|reflexivity].
  unfold nearest_even. cbn zeta.
  rewrite (Qfloor_comp _ _ E').
  rewrite (Qcompare_comp _ _ (Qminus_comp _ _ E' _ _ (Qeq_refl _)) _ _ (Qeq_refl (1 # 2))).
  reflexivity.
Qed.

Lemma scaled_le (x y p : Q) : 0 < p -> x <= y -> x / p <= y / p.
Proof.
  intros Hp H. apply Qle_shift_div_l; [exact Hp|].
  assert (x / p * p == x) by (field; lra). lra.
Qed.

Lemma round_positive_mono (x y : Q) :
  0 < x -> x <= y -> round_positive x <= round_positive y.
Proof.
  intros Hx Hxy. assert (Hy : 0 < y) by lra.
  pose proof (exponent_mono x y Hx Hxy) as Hexp.
  destruct (exponent_spec x Hx) as [X1 X2].
  destruct (exponent_spec y Hy) as [Y1 Y2].
  unfold round_positive. cbn zeta.
  set (ex := ulp_exponent x). set (ey := ulp_exponent y).
  assert (Hle : (ex <= ey)%Z) by (unfold ex, ey, ulp_exponent; lia).
  pose proof (pow2_positive ex) as Px. pose proof (pow2_positive ey) as Py.
  destruct (Z.eq_dec ex ey) as [E|N].
  - rewrite <- E. apply Qmult_le_compat_r; [|lra].
    rewrite <- Zle_Qle. apply nearest_even_mono. apply scaled_le; assumption.
  - assert (Hey : ey = (exponent y - 52)%Z) by (unfold ex, ey, ulp_exponent in *; lia).
    assert (Hlx : (exponent x + 1 <= exponent y)%Z)
      by (unfold ex, ey, ulp_exponent in *; lia).
    (* the rounded y is at least 2^(exponent y) *)
    assert (Hbig : 2 ^ exponent y <= inject_Z (nearest_even (y / 2 ^ ey)) * 2 ^ ey).
    { assert (H52 : inject_Z (2 ^ 52) <= y / 2 ^ ey).
      { rewrite <- pow2_integer by lia. apply Qle_shift_div_l; [exact Py|].
        rewrite <- pow2_plus. replace (52 + ey)%Z with (exponent y) by lia.
        exact Y1. }
      apply nearest_even_mono in H52. rewrite nearest_even_integer in H52.
      rewrite Zle_Qle in H52. rewrite <- pow2_integer in H52 by lia.
      assert (E : 2 ^ exponent y == 2 ^ 52 * 2 ^ ey).
      { rewrite <- pow2_plus. replace (52 + ey)%Z with (exponent y) by lia.
        reflexivity. }
      rewrite E. apply Qmult_le_compat_r; [exact H52 | lra]. }
    (* the rounded x is at most 2^(exponent y) *)
    set (k := Z.max (exponent x + 1 - ex) 0).
    assert (Hsmall : inject_Z (nearest_even (x / 2 ^ ex)) * 2 ^ ex <= 2 ^ (k + ex)).
    { assert (Hk : x / 2 ^ ex <= inject_Z (2 ^ k)).
      { rewrite <- pow2_integer by (unfold k; lia).
        apply Qle_shift_div_r; [exact Px|]. rewrite <- pow2_plus.
        pose proof (pow2_le (exponent x + 1) (k + ex) ltac:(unfold k; lia)).
        lra. }
      apply nearest_even_mono in Hk. rewrite nearest_even_integer in Hk.
      rewrite Zle_Qle in Hk. rewrite <- pow2_integer in Hk by (unfold k; lia).
      rewrite pow2_plus. apply Qmult_le_compat_r; [exact Hk | lra]. }
    pose proof (pow2_le (k + ex) (exponent y) ltac:(unfold k; lia)).
    lra.
Qed.

Lemma round_equation (q : Q) :
  round q == match Qcompare q 0 with
             | Eq => 0
             | Gt => round_positive q
             | Lt => - round_positive (- q)
             end.
Proof. unfold round. apply Qred_correct. Qed.

Lemma round_mono (x y : Q) : x <= y -> round x <= round y.
Proof.
  intros H. rewrite !round_equation.
  pose proof (round_positive_nonneg y) as A.
  pose proof (round_positive_nonneg (- x)) as B.
  pose proof (round_positive_mono (- y) (- x)) as C.
  pose proof (round_positive_mono x y) as D.
  destruct (Qcompare_spec x 0) as [Hx|Hx|Hx];
    destruct (Qcompare_spec y 0) as [Hy|Hy|Hy];
    first [specialize (A ltac:(lra)) | clear A];
    first [specialize (B ltac:(lra)) | clear B];
    first [specialize (C ltac:(lra) ltac:(lra)) | clear C];
    first [specialize (D ltac:(lra) ltac:(lra)) | clear D];
    lra.
Qed.

Lemma round_proper (x y : Q) : x == y -> round x = round y.
Proof.
  intros E. unfold round. apply Qred_complete.
  rewrite <- (Qcompare_comp _ _ E _ _ (Qeq_refl 0)).
  destruct (Qcompare_spec x 0) as [Hx|Hx|Hx]; [reflexivity| |].
  - apply Qopp_comp, round_positive_proper; [lra | apply Qopp_comp, E].
  - apply round_positive_proper; assumption.
Qed.

Lemma round_nonneg (x : Q) : 0 <= x -> 0 <= round x.
Proof. intros H. apply (round_mono 0 x H). Qed.

End Float64Facts.

Section RoundingError.

Import Float64.
Open Scope Q_scope.

Lemma round_zero : round 0 = 0.
Proof. reflexivity. Qed.

(** The error of rounding a number below [2^(k+1)] is at most half a
    unit in the last place of that range. *)
Lemma round_positive_error (x : Q) (k : Z) :
  0 < x < 2 ^ (k + 1) -> (-1074 <= k - 52)%Z ->
  Qabs (round_positive x - x) <= 2 ^ (k - 53).
Proof.
  intros [Hx Hk] Hrange.
  destruct (exponent_spec x Hx) as [X1 X2].
  assert (Hexp : (exponent x <= k)%Z).
  { destruct (Z_le_gt_dec (exponent x) k) as [H|H]; [exact H|exfalso].
    pose proof (pow2_le (k + 1) (exponent x) ltac:(lia)). lra. }
  unfold round_positive. cbn zeta.
  set (e := ulp_exponent x).
  assert (He : (e <= k - 52)%Z) by (unfold e, ulp_exponent; lia).
  pose proof (pow2_positive e) as Pe.
  pose proof (nearest_even_error (x / 2 ^ e)) as [E1 E2].
  set (n := inject_Z (nearest_even (x / 2 ^ e))) in *.
  assert (Hx' : x == x / 2 ^ e * 2 ^ e) by (field; lra).
  set (m := x / 2 ^ e) in *.
  pose proof (pow2_le (e - 1) (k - 53) ltac:(lia)) as Hle.
  pose proof (pow2_plus (e - 1) 1) as Hhalf.
  replace (e - 1 + 1)%Z with e in Hhalf by lia.
  change (2 ^ 1) with 2 in Hhalf.
  apply Qabs_Qle_condition.
  assert (H1 : (n - m) * 2 ^ e <= (1 # 2) * 2 ^ e)
    by (apply Qmult_le_compat_r; lra).
  assert (H2 : - (1 # 2) * 2 ^ e <= (n - m) * 2 ^ e)
    by (apply Qmult_le_compat_r; lra).
  assert (H3 : n * 2 ^ e - x == (n - m) * 2 ^ e).
  { rewrite Hx' at 1. ring. }
  split; lra.
Qed.

Lemma round_error_below_two (x : Q) :
  0 <= x < 2 -> Qabs (round x - x) <= 1 # 9007199254740992.
Proof.
  intros [H0 H2]. rewrite round_equation.
  destruct (Qcompare_spec x 0) as [E|E|E]; [|lra|].
  - apply Qabs_Qle_condition. split; lra.
  - apply (round_positive_error x 0); [|lia]. split; [exact E | exact H2].
Qed.

End RoundingError.

(** ** The Jaccard index: auxiliary facts *)

Section OverlapFacts.

Import Dedup.

Lemma gset_intersection_comm (set1 set2 : gset string) :
  set1 ∩ set2 = set2 ∩ set1.
Proof. apply (comm_L (∩)). Qed.

Lemma gset_union_comm (set1 set2 : gset string) : set1 ∪ set2 = set2 ∪ set1.
Proof. apply (comm_L (∪)). Qed.

Lemma gset_intersection_idemp (set1 : gset string) : set1 ∩ set1 = set1.
Proof. apply (idemp_L (∩)). Qed.

Lemma gset_union_idemp (set1 : gset string) : set1 ∪ set1 = set1.
Proof. apply (idemp_L (∪)). Qed.

Lemma size_ratio_range (a b : nat) :
  (a <= b)%nat -> (0 < b)%nat ->
  0 <= inject_Z (Z.of_nat a) / inject_Z (Z.of_nat b) <= 1.
Proof.
  intros Hab Hb.
  assert (Hpos : 0 < inject_Z (Z.of_nat b)).
  { rewrite <- (Zlt_Qlt 0). lia. }
  split.
  - apply Qle_shift_div_l; [exact Hpos|]. rewrite Qmult_0_l.
    rewrite <- (Zle_Qle 0). lia.
  - apply Qle_shift_div_r; [exact Hpos|]. rewrite Qmult_1_l.
    rewrite <- Zle_Qle. lia.
Qed.

Lemma set_overlap_nonempty (set1 set2 : gset string) :
  set1 <> ∅ -> set2 <> ∅ ->
  (0 < size (set1 ∪ set2))%nat
  /\ _compute_set_overlap set1 set2
     = inject_Z (Z.of_nat (size (set1 ∩ set2)))
       / inject_Z (Z.of_nat (size (set1 ∪ set2))).
Proof.
  intros H1 H2.
  assert (Hu : (0 < size (set1 ∪ set2))%nat).
  { destruct (size (set1 ∪ set2)) eqn:E; [|lia].
    apply size_empty_iff in E. exfalso. apply H1.
    apply leibniz_equiv, (union_positive_l _ _ E). }
  split; [exact Hu|].
  unfold _compute_set_overlap.
  rewrite (bool_decide_eq_false_2 _ H1), (bool_decide_eq_false_2 _ H2).
  cbn [orb]. apply Nat.ltb_lt in Hu. rewrite Hu. reflexivity.
Qed.

Lemma set_overlap_empty (set1 set2 : gset string) :
  set1 = ∅ \/ set2 = ∅ -> _compute_set_overlap set1 set2 = 0.
Proof.
  intros H. unfold _compute_set_overlap.
  destruct H as [H|H]; rewrite (bool_decide_eq_true_2 _ H);
    [|rewrite orb_true_r]; reflexivity.
Qed.

Lemma set_overlap_bounds (set1 set2 : gset string) :
  0 <= _compute_set_overlap set1 set2 <= 1.
Proof.
  destruct (decide (set1 = ∅)) as [H1|H1].
  { rewrite (set_overlap_empty set1 set2 (or_introl H1)).
    split; apply Qle_bool_iff; reflexivity. }
  destruct (decide (set2 = ∅)) as [H2|H2].
  { rewrite (set_overlap_empty set1 set2 (or_intror H2)).
    split; apply Qle_bool_iff; reflexivity. }
  destruct (set_overlap_nonempty set1 set2 H1 H2) as [Hu ->].
  apply size_ratio_range; [|exact Hu].
  apply subseteq_size. etrans; [apply intersection_subseteq_l|].
  apply union_subseteq_l.
Qed.

Lemma set_overlap_disjoint (set1 set2 : gset string) :
  set1 ∩ set2 = ∅ -> _compute_set_overlap set1 set2 == 0.
Proof.
  intros Hd.
  destruct (decide (set1 = ∅)) as [H1|H1];
    [by rewrite (set_overlap_empty set1 set2 (or_introl H1))|].
  destruct (decide (set2 = ∅)) as [H2|H2];
    [by rewrite (set_overlap_empty set1 set2 (or_intror H2))|].
  destruct (set_overlap_nonempty set1 set2 H1 H2) as [_ ->].
  rewrite Hd, size_empty. reflexivity.
Qed.

End OverlapFacts.

(** ** The weighted combination of the similarity scores *)

Section ScorerProperties.

Variable ratio : string -> string -> Q.

Import Dedup.

Lemma overlap_rounded_range (set1 set2 : gset string) :
  0 <= _compute_set_overlap set1 set2 <= 1 ->
  0 <= Float64.round (_compute_set_overlap set1 set2) <= 1.
Proof.
  intros [H0 H1]. split.
  - apply round_nonneg, H0.
  - apply (round_mono _ 1 H1).
Qed.

Lemma mul_mono (x y w : Q) :
  0 <= w -> x <= y -> Float64.mul x w <= Float64.mul y w.
Proof.
  intros Hw H. apply round_mono. apply Qmult_le_compat_r; assumption.
Qed.

Lemma add_mono (x y x' y' : Q) :
  x <= x' -> y <= y' -> Float64.add x y <= Float64.add x' y'.
Proof. intros H1 H2. apply round_mono. lra. Qed.

Lemma weights_nonneg :
  0 <= Float64.round (40 # 100) /\ 0 <= Float64.round (35 # 100)
  /\ 0 <= Float64.round (15 # 100) /\ 0 <= Float64.round (10 # 100).
Proof. repeat split; apply round_nonneg; discriminate. Qed.

(** The weighted sum as the source evaluates it. *)
Lemma combined_mono (f o k n f' o' k' n' : Q) :
  f <= f' -> o <= o' -> k <= k' -> n <= n' ->
  Float64.add
    (Float64.add
       (Float64.add (Float64.mul f (Float64.round (40 # 100)))
                    (Float64.mul o (Float64.round (35 # 100))))
       (Float64.mul k (Float64.round (15 # 100))))
    (Float64.mul n (Float64.round (10 # 100)))
  <= Float64.add
       (Float64.add
          (Float64.add (Float64.mul f' (Float64.round (40 # 100)))
                       (Float64.mul o' (Float64.round (35 # 100))))
          (Float64.mul k' (Float64.round (15 # 100))))
       (Float64.mul n' (Float64.round (10 # 100))).
Proof.
  intros Hf Ho Hk Hn. destruct weights_nonneg as (W1 & W2 & W3 & W4).
  repeat apply add_mono; apply mul_mono; assumption.
Qed.

(** The weighted sum as the source evaluates it lies within 2^-50 of the
    weighted sum of the decimal weights, for component scores between 0
    and 1. *)
Lemma combined_error (f o k n : Q) :
  0 <= f <= 1 -> 0 <= o <= 1 -> 0 <= k <= 1 -> 0 <= n <= 1 ->
  Qabs
    (Float64.add
       (Float64.add
          (Float64.add (Float64.mul f (Float64.round (40 # 100)))
                       (Float64.mul o (Float64.round (35 # 100))))
          (Float64.mul k (Float64.round (15 # 100))))
       (Float64.mul n (Float64.round (10 # 100)))
     - ((2 # 5) * f + (7 # 20) * o + (3 # 20) * k + (1 # 10) * n))
  <= 1 # 1125899906842624.
Proof.
  intros Hf Ho Hk Hn. unfold Float64.add, Float64.mul.
  replace (Float64.round (40 # 100))
    with (3602879701896397 # 9007199254740992) by (vm_compute; reflexivity).
  replace (Float64.round (35 # 100))
    with (3152519739159347 # 9007199254740992) by (vm_compute; reflexivity).
  replace (Float64.round (15 # 100))
    with (5404319552844595 # 36028797018963968) by (vm_compute; reflexivity).
  replace (Float64.round (10 # 100))
    with (3602879701896397 # 36028797018963968) by (vm_compute; reflexivity).
  set (x1 := f * (3602879701896397 # 9007199254740992)).
  set (x2 := o * (3152519739159347 # 9007199254740992)).
  set (x3 := k * (5404319552844595 # 36028797018963968)).
  set (x4 := n * (3602879701896397 # 36028797018963968)).
  assert (B1 : 0 <= x1 < 2) by (unfold x1; lra).
  assert (B2 : 0 <= x2 < 2) by (unfold x2; lra).
  assert (B3 : 0 <= x3 < 2) by (unfold x3; lra).
  assert (B4 : 0 <= x4 < 2) by (unfold x4; lra).
  pose proof (round_error_below_two x1 B1) as E1.
  pose proof (round_error_below_two x2 B2) as E2.
  pose proof (round_error_below_two x3 B3) as E3.
  pose proof (round_error_below_two x4 B4) as E4.
  apply Qabs_Qle_condition in E1, E2, E3, E4.
  pose proof (round_nonneg x1 (proj1 B1)) as N1.
  pose proof (round_nonneg x2 (proj1 B2)) as N2.
  pose proof (round_nonneg x3 (proj1 B3)) as N3.
  pose proof (round_nonneg x4 (proj1 B4)) as N4.
  set (p1 := Float64.round x1) in *. set (p2 := Float64.round x2) in *.
  set (p3 := Float64.round x3) in *. set (p4 := Float64.round x4) in *.
  assert (B5 : 0 <= p1 + p2 < 2) by (unfold x1, x2 in *; lra).
  pose proof (round_error_below_two _ B5) as E5.
  apply Qabs_Qle_condition in E5.
  pose proof (round_nonneg _ (proj1 B5)) as N5.
  set (s1 := Float64.round (p1 + p2)) in *.
  assert (B6 : 0 <= s1 + p3 < 2) by (unfold x1, x2, x3 in *; lra).
  pose proof (round_error_below_two _ B6) as E6.
  apply Qabs_Qle_condition in E6.
  pose proof (round_nonneg _ (proj1 B6)) as N6.
  set (s2 := Float64.round (s1 + p3)) in *.
  assert (B7 : 0 <= s2 + p4 < 2) by (unfold x1, x2, x3, x4 in *; lra).
  pose proof (round_error_below_two _ B7) as E7.
  apply Qabs_Qle_condition in E7.
  set (s3 := Float64.round (s2 + p4)) in *.
  apply Qabs_Qle_condition. unfold x1, x2, x3, x4 in *. split; lra.
Qed.

(** C9.  For every pair of signatures the four component scores are the
    similarity ratio of the two fingerprints and the overlaps of the two
    sets of formulas, of keywords and of numbers, and the combined score
    is 0.40 * fingerprint + 0.35 * formulas + 0.15 * keywords
    + 0.10 * numbers as binary64 arithmetic evaluates it from left to
    right; for a ratio between 0 and 1 it lies within 2^-50 of that sum
    taken exactly.  Between any two results of
    [_compute_signature_similarity], if no component score is lower in
    the second than in the first (in particular if one is higher and the
    other three are the same), the combined score of the second is not
    lower either. *)
Theorem combined_score_weighted_monotone :
  (forall sig1 sig2 : signature,
     let s := _compute_signature_similarity ratio sig1 sig2 in
     score_fingerprint s = ratio (sig_fingerprint sig1) (sig_fingerprint sig2)
     /\ score_formulas s
        = Float64.round
            (_compute_set_overlap (sig_formulas sig1) (sig_formulas sig2))
     /\ score_keywords s
        = Float64.round
            (_compute_set_overlap (sig_keywords sig1) (sig_keywords sig2))
     /\ score_numbers s
        = Float64.round
            (_compute_set_overlap (sig_numbers sig1) (sig_numbers sig2))
     /\ score_combined s
        = Float64.add
            (Float64.add
               (Float64.add
                  (Float64.mul (score_fingerprint s) (Float64.round (40 # 100)))
                  (Float64.mul (score_formulas s) (Float64.round (35 # 100))))
               (Float64.mul (score_keywords s) (Float64.round (15 # 100))))
            (Float64.mul (score_numbers s) (Float64.round (10 # 100)))
     /\ (0 <= ratio (sig_fingerprint sig1) (sig_fingerprint sig2) <= 1 ->
         Qabs (score_combined s
               - ((2 # 5) * score_fingerprint s + (7 # 20) * score_formulas s
                  + (3 # 20) * score_keywords s + (1 # 10) * score_numbers s))
         <= 1 # 1125899906842624))
  /\
  (forall sig1 sig2 sig1' sig2' : signature,
     let s := _compute_signature_similarity ratio sig1 sig2 in
     let s' := _compute_signature_similarity ratio sig1' sig2' in
     score_fingerprint s <= score_fingerprint s' ->
     score_formulas s <= score_formulas s' ->
     score_keywords s <= score_keywords s' ->
     score_numbers s <= score_numbers s' ->
     score_combined s <= score_combined s').
Proof.
  split.
  - intros sig1 sig2 s. subst s.
    cbn [_compute_signature_similarity score_combined score_fingerprint
           score_formulas score_keywords score_numbers].
    unfold _compute_fuzzy_similarity.
    repeat (split; [reflexivity|]).
    intros Hr. apply combined_error; [exact Hr|..];
      apply overlap_rounded_range, set_overlap_bounds.
  - intros sig1 sig2 sig1' sig2' s s'. subst s s'.
    cbn [_compute_signature_similarity score_combined score_fingerprint
           score_formulas score_keywords score_numbers].
    apply combined_mono.
Qed.

End ScorerProperties.

(** C9 at concrete results: a text compared with another text and with
    itself, and the distance of a combined score to the exact sum. *)
Lemma combined_score_weighted_monotone_witness :
  Dedup.score_combined
    (Dedup._compute_signature_similarity Sample.ratio
       (Dedup._create_question_signature "Fe2O3 oxidation")
       (Dedup._create_question_signature "NaCl gas"))
  <= Dedup.score_combined
    (Dedup._compute_signature_similarity Sample.ratio
       (Dedup._create_question_signature "Fe2O3 oxidation")
       (Dedup._create_question_signature "Fe2O3 oxidation"))
  /\ (let s := Dedup._compute_signature_similarity Sample.ratio
                 (Dedup._create_question_signature "Fe2O3 oxidation")
                 (Dedup._create_question_signature "NaCl oxidation") in
      Qabs (Dedup.score_combined s
            - ((2 # 5) * Dedup.score_fingerprint s
               + (7 # 20) * Dedup.score_formulas s
               + (3 # 20) * Dedup.score_keywords s
               + (1 # 10) * Dedup.score_numbers s))
      <= 1 # 1125899906842624).
Proof.
  split.
  - apply (proj2 (combined_score_weighted_monotone Sample.ratio));
      vm_compute; discriminate.
  - apply (proj1 (combined_score_weighted_monotone Sample.ratio)
             (Dedup._create_question_signature "Fe2O3 oxidation")
             (Dedup._create_question_signature "NaCl oxidation")).
    vm_compute. split; discriminate.
Defined.

(** ** The store operations *)

Section StoreProperties.

Import Database.

Lemma update_where_lookup {A : Type} (p : A -> bool) (f : A -> A)
    (l : list A) (n : nat) :
  update_where p f l !! n = (fun r => if p r then f r else r) <$> l !! n.
Proof. unfold update_where. apply list_lookup_fmap. Qed.

Lemma update_where_untouched {A : Type} (p : A -> bool) (f : A -> A)
    (l : list A) :
  (forall x, x ∈ l -> p x = false) -> update_where p f l = l.
Proof.
  unfold update_where. induction l as [|x l IH]; intros H; [reflexivity|].
  cbn. rewrite (H x) by constructor. f_equal. apply IH.
  intros y Hy. apply H. by constructor.
Qed.

Lemma filter_nil_iff {A : Type} (p : A -> bool) (l : list A) :
  List.filter p l = [] <-> forall x, x ∈ l -> p x = false.
Proof.
  induction l as [|x l IH]; cbn.
  - split; [intros _ y Hy; inversion Hy | reflexivity].
  - destruct (p x) eqn:Hx.
    + split; [discriminate|]. intros H. specialize (H x). rewrite Hx in H.
      discriminate H. constructor.
    + rewrite IH. split.
      * intros H y Hy. inversion Hy; subst; auto.
      * intros H y Hy. apply H. by constructor.
Qed.

Lemma elem_of_filter_bool {A : Type} (p : A -> bool) (l : list A) (x : A) :
  x ∈ List.filter p l <-> x ∈ l /\ p x = true.
Proof. rewrite !list_elem_of_In. apply filter_In. Qed.

Lemma has_id_true (i : Z) (q : CachedQuestion.t) :
  has_id i q = true <-> CachedQuestion.id q = i.
Proof. unfold has_id. apply Z.eqb_eq. Qed.

Lemma has_id_false (i : Z) (q : CachedQuestion.t) :
  has_id i q = false <-> CachedQuestion.id q <> i.
Proof. unfold has_id. apply Z.eqb_neq. Qed.

(** The two outcomes of the INSERT: refused or failed, with the rows as
    they were; or accepted, with the new row appended under the id drawn
    from the sequence. *)
Lemma cache_scientific_question_cases (now : Z)
    (question_text normalized_text answer_text : string) (embedding : list Q)
    (image_hash : option string) (metadata : option (list (string * string)))
    (db : Db) :
  let r := cache_scientific_question now question_text normalized_text
             answer_text embedding image_hash metadata db in
  (r.1 = None
   /\ cached_scientific_questions r.2 = cached_scientific_questions db
   /\ interactions r.2 = interactions db
   /\ (cached_id_seq db <= cached_id_seq r.2)%Z)
  \/ (r = (Some (cached_id_seq db),
           MkDb (cached_scientific_questions db
                 ++ [CachedQuestion.Row (cached_id_seq db) question_text
                       normalized_text answer_text (Some embedding)
                       image_hash 1 now now (Some false) None None
                       (if truthy_list metadata then metadata else None)])
                (interactions db) (cached_id_seq db + 1))
      /\ sendable question_text = true /\ sendable normalized_text = true
      /\ sendable answer_text = true /\ hash_accepted image_hash = true
      /\ metadata_accepted metadata = true
      /\ int4 (cached_id_seq db) = true
      /\ (forall q, q ∈ cached_scientific_questions db ->
            CachedQuestion.id q <> cached_id_seq db)).
Proof.
  cbn zeta. unfold cache_scientific_question.
  destruct (sendable question_text && sendable normalized_text
            && sendable answer_text && hash_accepted image_hash
            && metadata_accepted metadata) eqn:Hacc; cbn [negb];
    [|left; cbn; repeat split; first [reflexivity | lia]].
  destruct (int4 (cached_id_seq db)) eqn:Hint; cbn [negb orb];
    [|left; cbn; repeat split; first [reflexivity | lia]].
  destruct (existsb (has_id (cached_id_seq db)) (cached_scientific_questions db))
    eqn:Hex; [left; cbn; repeat split; first [reflexivity | lia]|].
  right. repeat (apply andb_true_iff in Hacc as [Hacc ?]).
  repeat split; try assumption.
  intros q Hq. apply has_id_false.
  destruct (has_id (cached_id_seq db) q) eqn:Hq'; [|reflexivity].
  assert (Ht : existsb (has_id (cached_id_seq db))
                 (cached_scientific_questions db) = true).
  { apply existsb_exists. exists q. split; [by apply list_elem_of_In | exact Hq']. }
  congruence.
Qed.

Lemma cache_scientific_question_accepted (now : Z)
    (question_text normalized_text answer_text : string) (embedding : list Q)
    (image_hash : option string) (metadata : option (list (string * string)))
    (db : Db) :
  sendable question_text = true -> sendable normalized_text = true ->
  sendable answer_text = true -> hash_accepted image_hash = true ->
  metadata_accepted metadata = true -> int4 (cached_id_seq db) = true ->
  (forall q, q ∈ cached_scientific_questions db ->
             CachedQuestion.id q <> cached_id_seq db) ->
  cache_scientific_question now question_text normalized_text answer_text
    embedding image_hash metadata db
  = (Some (cached_id_seq db),
     MkDb (cached_scientific_questions db
           ++ [CachedQuestion.Row (cached_id_seq db) question_text
                 normalized_text answer_text (Some embedding) image_hash 1
                 now now (Some false) None None
                 (if truthy_list metadata then metadata else None)])
          (interactions db) (cached_id_seq db + 1)).
Proof.
  intros S1 S2 S3 Hh Hm Hint Hfresh. unfold cache_scientific_question.
  rewrite S1, S2, S3, Hh, Hm, Hint. cbn [andb negb orb].
  replace (existsb (has_id (cached_id_seq db))
             (cached_scientific_questions db)) with false; [reflexivity|].
  symmetry. apply not_true_is_false. intros Hex.
  apply existsb_exists in Hex as (q & Hq & Hid).
  apply has_id_true in Hid. apply list_elem_of_In in Hq.
  exact (Hfresh q Hq Hid).
Qed.

End StoreProperties.



(** C3.  When a row of the cache table has the given id,
    [delete_cached_question] succeeds and commits, together: every
    interaction linked to that id with its link null, its correction flag
    false and its corrected text null (its other columns as before),
    every other interaction as before, and the cache table without the
    rows of that id.  When no row has the id it answers "not found" and
    the store, with all interactions, is as before. *)
Theorem delete_cached_question_cascade (cached_id : Z) (db : Database.Db) :
  let r := AdminDashboard.delete_cached_question cached_id db in
  ((exists q, q ∈ Database.cached_scientific_questions db
              /\ CachedQuestion.id q = cached_id) ->
   AdminDashboard.success r.1 = true
   /\ length (Database.interactions r.2) = length (Database.interactions db)
   /\ (forall n i,
         Database.interactions db !! n = Some i ->
         exists i',
           Database.interactions r.2 !! n = Some i'
           /\ (Interaction.cached_question_id i <> Some cached_id -> i' = i)
           /\ (Interaction.cached_question_id i = Some cached_id ->
               Interaction.cached_question_id i' = None
               /\ Interaction.is_corrected i' = Some false
               /\ Interaction.corrected_text i' = None
               /\ Interaction.id i' = Interaction.id i
               /\ Interaction.user_id i' = Interaction.user_id i
               /\ Interaction.user_input i' = Interaction.user_input i
               /\ Interaction.bot_response i' = Interaction.bot_response i
               /\ Interaction.user_feedback i' = Interaction.user_feedback i))
   /\ (forall q, q ∈ Database.cached_scientific_questions r.2 <->
                 q ∈ Database.cached_scientific_questions db
                 /\ CachedQuestion.id q <> cached_id))
  /\ ((forall q, q ∈ Database.cached_scientific_questions db ->
                 CachedQuestion.id q <> cached_id) ->
      r = (AdminDashboard.NotFound, db)).
Proof.
  cbn. unfold AdminDashboard.delete_cached_question.
  destruct (List.filter (Database.has_id cached_id)
              (Database.cached_scientific_questions db)) as [|d ds] eqn:E.
  - split.
    + intros (q & Hin & Hid). exfalso.
      pose proof (proj1 (filter_nil_iff _ _) E q Hin) as Hq.
      apply has_id_false in Hq. contradiction.
    + reflexivity.
  - split.
    + intros _. cbn. split; [reflexivity|]. split.
      { unfold Database.update_where. apply length_map. }
      split.
      * intros n i Hn. rewrite update_where_lookup, Hn. cbn.
        unfold AdminDashboard.linked_to. case_bool_decide as Hl.
        -- eexists. split; [reflexivity|]. split; [contradiction|].
           intros _. cbn. repeat split; reflexivity.
        -- eexists. split; [reflexivity|]. split; [reflexivity|contradiction].
      * intros q. rewrite elem_of_filter_bool, negb_true_iff, has_id_false.
        reflexivity.
    + intros Hnone. exfalso.
      assert (Hd : d ∈ List.filter (Database.has_id cached_id)
                     (Database.cached_scientific_questions db))
        by (rewrite E; constructor).
      apply elem_of_filter_bool in Hd as [Hin Hid].
      apply has_id_true in Hid. exact (Hnone d Hin Hid).
Qed.

Lemma delete_cached_question_cascade_witness :
  AdminDashboard.success (AdminDashboard.delete_cached_question 1 Sample.db0).1
    = true
  /\ AdminDashboard.delete_cached_question 8 Sample.db0
     = (AdminDashboard.NotFound, Sample.db0).
Proof.
  split.
  - apply (proj1 (delete_cached_question_cascade 1 Sample.db0)).
    exists (Sample.question 1 "What is the oxidation state of Fe in Fe2O3?"
              (Some "abc123"%string) 5 true).
    split; [left | reflexivity].
  - apply (proj2 (delete_cached_question_cascade 8 Sample.db0)).
    intros q Hq. apply list_elem_of_In in Hq. cbn in Hq.
    destruct Hq as [<-|[<-|[<-|[]]]]; discriminate.
Defined.

(** The deletion cascade on the sample store: question 1 is referenced by
    three interactions, which all end unlinked and uncorrected. *)
Example delete_cascade_three_interactions :
  let r := AdminDashboard.delete_cached_question 1 Sample.db0 in
  r.1 = AdminDashboard.Deleted 3 [10; 12; 14]%Z
  /\ map (fun i => (Interaction.id i, Interaction.cached_question_id i,
                    Interaction.is_corrected i, Interaction.corrected_text i))
         (Database.interactions r.2)
     = [(10, None, Some false, None);
        (11, Some 2%Z, Some true, Some "fixed"%string);
        (12, None, Some false, None);
        (13, None, Some true, Some "fixed"%string);
        (14, None, Some false, None)]%Z
  /\ map CachedQuestion.id (Database.cached_scientific_questions r.2)
     = [2; 3]%Z.
Proof. vm_compute. repeat split. Qed.

(** ** Caching a question *)

(** C4.  If the embedding client is unavailable, or its call raises,
    [cache_question] returns false and the store is as before; whenever a
    client is present the embedding is requested, once, before anything
    is written; and [cache_question] returns true only when one new row,
    carrying the given texts, the fingerprint and the embedding obtained,
    was appended to the cache table. *)
Theorem cache_question_embedding_failure
    (self : Dedup.EnhancedQuestionDeduplicator) (now : Z)
    (question_text answer_text : string) (image_hash : option string)
    (metadata : option (list (string * string))) (w : Dedup.world) :
  let r := Dedup.cache_question self now question_text answer_text
             image_hash metadata w in
  (Dedup.embeddings self = None -> r = (false, w))
  /\ (forall client,
        Dedup.embeddings self = Some client ->
        Dedup.embed_calls r.2 = question_text :: Dedup.embed_calls w
        /\ (client question_text = None ->
            r.1 = false /\ Dedup.store r.2 = Dedup.store w))
  /\ (r.1 = true ->
      exists client question_embedding row,
        Dedup.embeddings self = Some client
        /\ client question_text = Some question_embedding
        /\ Database.cached_scientific_questions (Dedup.store r.2)
           = Database.cached_scientific_questions (Dedup.store w) ++ [row]
        /\ CachedQuestion.id row = Database.cached_id_seq (Dedup.store w)
        /\ CachedQuestion.question_text row = question_text
        /\ CachedQuestion.normalized_text row
           = Dedup._extract_question_fingerprint question_text
        /\ CachedQuestion.answer_text row = answer_text
        /\ CachedQuestion.embedding row = Some question_embedding
        /\ CachedQuestion.image_hash row = image_hash
        /\ CachedQuestion.is_corrected row = Some false).
Proof.
  cbn zeta. unfold Dedup.cache_question.
  destruct (Dedup.embeddings self) as [client|] eqn:Hc.
  - split; [discriminate|]. split.
    + intros c [= <-]. destruct (client question_text) eqn:He.
      * destruct (Database.cache_scientific_question _ _ _ _ _ _ _ _)
          as [cid db']. cbn. split; [reflexivity | discriminate].
      * cbn. split; [reflexivity | intros _; split; reflexivity].
    + destruct (client question_text) as [e|] eqn:He; [|cbn; discriminate].
      pose proof (cache_scientific_question_cases now question_text
                    (Dedup.sig_fingerprint
                       (Dedup._create_question_signature question_text))
                    answer_text e image_hash metadata (Dedup.store w)) as H.
      cbn zeta in H.
      destruct (Database.cache_scientific_question _ _ _ _ _ _ _ _)
        as [cid db']. cbn [fst snd] in *.
      intros Ht. destruct H as [(-> & _) | ([= -> ->] & _)];
        [discriminate Ht|].
      exists client, e. eexists.
      repeat split; first [exact He | reflexivity].
  - split; [reflexivity|]. split; [discriminate|]. cbn. discriminate.
Qed.

Lemma cache_question_embedding_failure_witness :
  Dedup.cache_question (Dedup.Deduplicator None) 9
    "What is pH?" "7" None None Sample.world0 = (false, Sample.world0)
  /\ (Dedup.cache_question (Dedup.Deduplicator (Some Sample.failing_client)) 9
        "What is pH?" "7" None None Sample.world0).1 = false
  /\ exists row,
       Database.cached_scientific_questions
         (Dedup.store
            (Dedup.cache_question
               (Dedup.Deduplicator (Some Sample.constant_client)) 9
               "What is pH?" "7" None None Sample.world0).2)
       = Database.cached_scientific_questions Sample.db0 ++ [row].
Proof.
  split; [|split].
  - apply (proj1 (cache_question_embedding_failure (Dedup.Deduplicator None)
                    9 "What is pH?" "7" None None Sample.world0)).
    reflexivity.
  - apply (proj2 (proj1 (proj2 (cache_question_embedding_failure
             (Dedup.Deduplicator (Some Sample.failing_client))
             9 "What is pH?" "7" None None Sample.world0))
             Sample.failing_client eq_refl)).
    reflexivity.
  - destruct (proj2 (proj2 (cache_question_embedding_failure
             (Dedup.Deduplicator (Some Sample.constant_client))
             9 "What is pH?" "7" None None Sample.world0)) eq_refl)
      as (client & e & row & _ & _ & Hrows & _).
    exists row. exact Hrows.
Defined.

(** ** The order in which rows are read *)

Section OrderFacts.

Import Database Vocabulary.

Lemma insert_by_last_used_perm (r : CachedQuestion.t) (l : list CachedQuestion.t) :
  insert_by_last_used r l ≡ₚ r :: l.
Proof.
  induction l as [|x l IH]; cbn [insert_by_last_used]; [reflexivity|].
  destruct (_ <=? _)%Z; [reflexivity|]. rewrite IH. apply Permutation_swap.
Qed.

Lemma order_by_last_used_desc_perm (l : list CachedQuestion.t) :
  order_by_last_used_desc l ≡ₚ l.
Proof.
  unfold order_by_last_used_desc.
  induction l as [|x l IH]; cbn [foldr]; [reflexivity|].
  rewrite insert_by_last_used_perm, IH. reflexivity.
Qed.

Lemma insert_by_last_used_sorted (r : CachedQuestion.t)
    (l : list CachedQuestion.t) :
  recent_first l -> recent_first (insert_by_last_used r l).
Proof.
  induction l as [|x l IH]; cbn [insert_by_last_used recent_first].
  - intros _. split; [constructor | exact I].
  - intros [Hx Hl]. destruct (_ <=? _)%Z eqn:E.
    + apply Z.leb_le in E. cbn [recent_first]. split; [|by split].
      constructor; [exact E|].
      eapply Forall_impl; [exact Hx|]. cbn. intros y Hy. lia.
    + apply Z.leb_gt in E. cbn [recent_first]. split; [|by apply IH].
      rewrite insert_by_last_used_perm. constructor; [lia | exact Hx].
Qed.

Lemma recent_first_app (l1 l2 : list CachedQuestion.t) :
  recent_first (l1 ++ l2) ->
  recent_first l1
  /\ forall a b, a ∈ l1 -> b ∈ l2 ->
       (CachedQuestion.last_used b <= CachedQuestion.last_used a)%Z.
Proof.
  induction l1 as [|x l1 IH]; cbn [app recent_first].
  - intros _. split; [exact I|]. intros a b Ha. inversion Ha.
  - intros [Hx Hl]. destruct (IH Hl) as [H1 H2].
    apply Forall_app in Hx as [Hx1 Hx2]. split; [by split|].
    intros a b Ha Hb. apply elem_of_cons in Ha as [-> | Ha]; [|by apply H2].
    rewrite Forall_forall in Hx2. by apply Hx2.
Qed.

Lemma order_by_last_used_desc_sorted (l : list CachedQuestion.t) :
  recent_first (order_by_last_used_desc l).
Proof.
  unfold order_by_last_used_desc.
  induction l as [|x l IH]; cbn [foldr]; [exact I|].
  by apply insert_by_last_used_sorted.
Qed.

Lemma order_by_last_used_desc_head (l : list CachedQuestion.t)
    (row : CachedQuestion.t) (l' : list CachedQuestion.t) :
  order_by_last_used_desc l = row :: l' ->
  row ∈ l
  /\ forall q, q ∈ l ->
       (CachedQuestion.last_used q <= CachedQuestion.last_used row)%Z.
Proof.
  intros E. pose proof (order_by_last_used_desc_perm l) as Hp.
  pose proof (order_by_last_used_desc_sorted l) as Hs.
  rewrite E in Hp, Hs. split.
  - rewrite <- Hp. constructor.
  - intros q Hq. rewrite <- Hp in Hq.
    apply elem_of_cons in Hq as [-> | Hq]; [lia|].
    destruct Hs as [Hs _]. rewrite Forall_forall in Hs. by apply Hs.
Qed.

Lemma order_by_last_used_desc_nil (l : list CachedQuestion.t) :
  order_by_last_used_desc l = [] -> l = [].
Proof.
  intros E. pose proof (order_by_last_used_desc_perm l) as Hp.
  rewrite E in Hp. symmetry in Hp. by apply Permutation_nil_r in Hp.
Qed.

(** What the two lookups by column share: the first row, in the order
    of the query, of the rows that satisfy the WHERE clause. *)
Lemma fetch_latest (p : CachedQuestion.t -> bool) (rows : list CachedQuestion.t) :
  match order_by_last_used_desc (List.filter p rows) with
  | row :: _ => latest_with (fun q => p q = true) rows row
  | [] => forall q, q ∈ rows -> p q = false
  end.
Proof.
  destruct (order_by_last_used_desc (List.filter p rows)) as [|row l'] eqn:E.
  - apply order_by_last_used_desc_nil in E. by apply filter_nil_iff.
  - apply order_by_last_used_desc_head in E as [Hin Hmax].
    apply elem_of_filter_bool in Hin as [Hin Hp].
    split; [exact Hin|]. split; [exact Hp|].
    intros q Hq Hpq. apply Hmax. by apply elem_of_filter_bool.
Qed.

Lemma update_where_by_id (i : Z) (f : CachedQuestion.t -> CachedQuestion.t)
    (rows : list CachedQuestion.t) (n : nat) (q : CachedQuestion.t) :
  rows !! n = Some q ->
  update_where (has_id i) f rows !! n
  = Some (if bool_decide (CachedQuestion.id q = i) then f q else q).
Proof.
  intros Hn. rewrite update_where_lookup, Hn. cbn. f_equal.
  unfold has_id. destruct (Z.eqb_spec (CachedQuestion.id q) i) as [E|E].
  - by rewrite bool_decide_eq_true_2.
  - by rewrite bool_decide_eq_false_2.
Qed.

Lemma update_where_bumped (now i : Z) (rows : list CachedQuestion.t) :
  usage_bumped now i rows (update_where (has_id i) (bump_usage now) rows).
Proof.
  split; [unfold update_where; apply length_map|].
  intros n q Hn. by apply update_where_by_id.
Qed.

End OrderFacts.

(** ** Matching *)

Section MatchingProperties.

Variable ratio : string -> string -> Q.
Variable np_dot : list Q -> list Q -> option Float64.number.
Variable np_norm : list Q -> Float64.number.

Import Dedup Vocabulary.

Lemma approved_is_corrected (q : CachedQuestion.t) :
  approved q = true <-> CachedQuestion.is_corrected q = Some true.
Proof.
  unfold approved, Database.truthy_bool.
  destruct (CachedQuestion.is_corrected q) as [[|]|]; split;
    congruence.
Qed.

Lemma signature_step_approved (incoming_sig : signature)
    (best : option CachedQuestion.t * Q) (cached_q : CachedQuestion.t) :
  best_approved best ->
  best_approved (signature_step ratio incoming_sig best cached_q).
Proof.
  unfold signature_step, best_approved. intros Hb q.
  destruct (approved cached_q) eqn:Ha; cbn [negb]; [|apply Hb].
  destruct (Qgtb _ _); [|apply Hb]. cbn. congruence.
Qed.

Lemma semantic_step_approved (question_embedding : list Q)
    (best best' : option CachedQuestion.t * Float64.number)
    (cached_q : CachedQuestion.t) :
  semantic_step np_dot np_norm question_embedding best cached_q = Some best' ->
  best_approved best -> best_approved best'.
Proof.
  unfold semantic_step, best_approved. intros E Hb q.
  destruct (approved cached_q) eqn:Ha; cbn [negb orb] in E;
    [|injection E as <-; apply Hb].
  destruct (negb _); [injection E as <-; apply Hb|].
  destruct (_compute_cosine_similarity _ _ _ _) as [sim|]; [|discriminate].
  destruct (Float64.greater _ _); injection E as <-; [|apply Hb].
  cbn. congruence.
Qed.

Lemma fold_left_invariant {A B : Type} (P : A -> Prop) (f : A -> B -> A)
    (l : list B) (a : A) :
  (forall a b, P a -> P (f a b)) -> P a -> P (fold_left f l a).
Proof.
  intros Hf. revert a. induction l as [|b l IH]; intros a Ha; cbn; auto.
Qed.

Lemma signature_layer_approved (incoming_sig : signature)
    (pool : list CachedQuestion.t) :
  best_approved (signature_layer ratio incoming_sig pool).
Proof.
  unfold signature_layer. apply fold_left_invariant.
  - intros a b. apply signature_step_approved.
  - intros q. discriminate.
Qed.

Lemma semantic_loop_approved (question_embedding : list Q)
    (pool : list CachedQuestion.t)
    (best best' : option CachedQuestion.t * Float64.number) :
  semantic_loop np_dot np_norm question_embedding pool best = Some best' ->
  best_approved best -> best_approved best'.
Proof.
  revert best. induction pool as [|q pool IH]; intros best E Hb;
    cbn [semantic_loop] in E.
  - injection E as <-. exact Hb.
  - destruct (semantic_step np_dot np_norm question_embedding best q)
      as [b1|] eqn:E1; [|discriminate].
    eapply IH; [exact E|]. eapply semantic_step_approved; eassumption.
Qed.

Lemma image_hash_layer_approved (now : Z) (image_hash : option string)
    (db db' : Database.Db) (q : CachedQuestion.t) :
  image_hash_layer now image_hash db = Some (Some q, db') -> approved q = true.
Proof.
  unfold image_hash_layer. destruct (Database.truthy_str image_hash);
    [|discriminate].
  destruct (negb _); [discriminate|].
  destruct (Database.get_cached_question_by_image_hash _ _ _) as [[e|] d];
    [|discriminate].
  destruct (approved e) eqn:Ha; [|discriminate]. congruence.
Qed.

(** C1.  Whatever the store, the question and the image hash, an entry
    returned by [find_similar_question] has [is_corrected] true: no layer
    returns an unapproved entry. *)
Theorem find_similar_question_only_approved
    (self : EnhancedQuestionDeduplicator) (now : Z) (question_text : string)
    (image_hash : option string) (w w' : world) (q : CachedQuestion.t) :
  find_similar_question ratio np_dot np_norm self now question_text
    image_hash w = (Some q, w') ->
  CachedQuestion.is_corrected q = Some true.
Proof.
  intros H. apply approved_is_corrected. revert H.
  unfold find_similar_question.
  destruct (embeddings self) as [client|]; [|discriminate].
  destruct (image_hash_layer now image_hash (store w)) as [[[e|] db]|] eqn:H1;
    [| |discriminate].
  - intros [= <- _]. eapply image_hash_layer_approved; exact H1.
  - pose proof (signature_layer_approved
                  (_create_question_signature question_text)
                  (Database.get_recent_cached_questions 200 db)) as H2.
    destruct (signature_layer _ _ _) as [bm bs]. cbn in H2.
    destruct (Qgeb bs HIGH_CONFIDENCE_THRESHOLD);
      [intros [= -> _]; apply H2; reflexivity|].
    destruct (Qgeb bs MEDIUM_CONFIDENCE_THRESHOLD);
      [intros [= -> _]; apply H2; reflexivity|].
    destruct (client question_text) as [e|]; [|discriminate].
    destruct (semantic_layer np_dot np_norm e _) as [[sm ss]|] eqn:E3;
      [|discriminate].
    unfold semantic_layer in E3.
    pose proof (semantic_loop_approved e _ _ _ E3) as H3.
    destruct (Float64.at_least _ _); [|discriminate].
    intros [= -> _]. apply H3; [intros q0; discriminate | reflexivity].
Qed.

End MatchingProperties.

Lemma find_similar_question_only_approved_witness :
  CachedQuestion.is_corrected
    (Sample.question 1 "What is the oxidation state of Fe in Fe2O3?"
       (Some "abc123"%string) 5 true) = Some true.
Proof.
  eapply (find_similar_question_only_approved Sample.ratio Sample.np_dot
            Sample.np_norm (Dedup.Deduplicator (Some Sample.constant_client))
            9 "What is the oxidation state of Fe in Fe2O3?" None
            Sample.world0).
  vm_compute. reflexivity.
Defined.

(** ** The decision cascade *)

Section Comparisons.

Import Dedup Vocabulary.

Lemma Qgtb_true (x y : Q) : Qgtb x y = true <-> y < x.
Proof.
  unfold Qgtb. rewrite negb_true_iff. split.
  - intros H. apply Qnot_le_lt. intros Hle.
    apply Qle_bool_iff in Hle. congruence.
  - intros H. destruct (Qle_bool x y) eqn:E; [|reflexivity].
    apply Qle_bool_iff in E. exfalso. exact (Qlt_not_le _ _ H E).
Qed.

Lemma Qgtb_false (x y : Q) : Qgtb x y = false <-> x <= y.
Proof.
  unfold Qgtb. rewrite negb_false_iff. apply Qle_bool_iff.
Qed.

Lemma Qgeb_true (x y : Q) : Qgeb x y = true <-> y <= x.
Proof. unfold Qgeb. apply Qle_bool_iff. Qed.

Lemma Qgeb_false (x y : Q) : Qgeb x y = false <-> x < y.
Proof.
  unfold Qgeb. split.
  - intros H. apply Qnot_le_lt. intros Hle.
    apply Qle_bool_iff in Hle. congruence.
  - intros H. destruct (Qle_bool y x) eqn:E; [|reflexivity].
    apply Qle_bool_iff in E. exfalso. exact (Qlt_not_le _ _ H E).
Qed.

Lemma Qle_bool_false (x y : Q) : Qle_bool x y = false -> y < x.
Proof. intros H. apply Qgeb_false. exact H. Qed.

(** Every test [Qle_bool] of the context and the goal is replaced by
    the order fact it decides. *)
Ltac order_facts :=
  repeat match goal with
         | H : context [Qle_bool ?x ?y] |- _ =>
             let E := fresh "E" in
             destruct (Qle_bool x y) eqn:E;
             [apply Qle_bool_iff in E | apply Qle_bool_false in E]
         | |- context [Qle_bool ?x ?y] =>
             let E := fresh "E" in
             destruct (Qle_bool x y) eqn:E;
             [apply Qle_bool_iff in E | apply Qle_bool_false in E]
         end.

Lemma rational_comparison_laws : comparison_laws Qgtb Qgeb.
Proof.
  split; unfold Qgtb, Qgeb; intros; order_facts; cbn in *;
    first [reflexivity | discriminate | exfalso; lra].
Qed.

Lemma number_comparison_laws :
  comparison_laws Float64.greater Float64.at_least.
Proof.
  split.
  - intros [a|[|]|] [b|[|]|] [c|[|]|]; cbn; intros; order_facts; cbn in *;
      first [reflexivity | discriminate | exfalso; lra].
  - intros [a|[|]|] [b|[|]|]; cbn; intros; order_facts; cbn in *;
      first [reflexivity | discriminate | exfalso; lra].
  - intros [a|[|]|] [b|[|]|] [c|[|]|]; cbn; intros; order_facts; cbn in *;
      first [reflexivity | discriminate | exfalso; lra].
  - intros [a|[|]|] [b|[|]|] [c|[|]|]; cbn; intros; order_facts; cbn in *;
      first [reflexivity | discriminate | exfalso; lra].
  - intros [a|[|]|] [b|[|]|]; cbn; intros; order_facts; cbn in *;
      first [reflexivity | discriminate | exfalso; lra].
  - intros [a|[|]|] [b|[|]|] [c|[|]|]; cbn; intros; order_facts; cbn in *;
      first [reflexivity | discriminate | exfalso; lra].
  - intros [a|[|]|] [b|[|]|] [t|[|]|] [z|[|]|]; cbn; intros; order_facts;
      cbn in *; first [reflexivity | discriminate | exfalso; lra].
  - intros [a|[|]|] [b|[|]|] [t|[|]|] [z|[|]|]; cbn; intros; order_facts;
      cbn in *; first [reflexivity | discriminate | exfalso; lra].
Qed.

End Comparisons.

Section BestOfLoop.

Import Dedup Vocabulary.

Context {A S : Type} (gt ge : S -> S -> bool) (zero : S).
Context (keep : A -> bool) (score : A -> S).
Hypothesis laws : comparison_laws gt ge.

Lemma gt_irreflexive (a : S) : gt a a = false.
Proof.
  destruct (gt a a) eqn:E; [|reflexivity].
  pose proof (gt_strict gt ge laws a a E) as H.
  apply (ge_gt gt ge laws) in H. congruence.
Qed.

Lemma best_step_state (seen : list A) (best : option A * S) (x : A) :
  loop_state gt ge zero keep score seen best ->
  loop_state gt ge zero keep score (seen ++ [x])
    (best_step gt keep score best x).
Proof.
  unfold best_step. intros Hs.
  destruct (keep x) eqn:Hk; cbn [negb].
  - destruct (gt (score x) best.2) eqn:Hgt.
    + right. exists x. cbn.
      destruct Hs as [(Hn & Hz & Hall) | (z & Hz & Hbs & Hpos & l1 & l2 & -> & Hkz & H1 & H2)].
      * rewrite Hz in Hgt. repeat split; [exact Hgt|].
        exists seen, []. repeat split; [exact Hk | | intros y Hy; inversion Hy].
        intros y Hy Hky.
        eapply (gt_above gt ge laws); [exact Hgt | by apply Hall].
      * rewrite Hbs in Hgt.
        repeat split; [eapply (gt_trans gt ge laws); eassumption|].
        exists (l1 ++ z :: l2), []. repeat split;
          [exact Hk | | intros y Hy; inversion Hy].
        intros y Hy Hky. apply elem_of_app in Hy as [Hy|Hy].
        -- eapply (gt_below gt ge laws); [exact Hgt | by apply H1].
        -- apply elem_of_cons in Hy as [->|Hy];
             [eapply (gt_strict gt ge laws); exact Hgt|].
           eapply (gt_above gt ge laws); [exact Hgt | by apply H2].
    + destruct Hs as [(Hn & Hz & Hall) | (z & Hz & Hbs & Hpos & l1 & l2 & -> & Hkz & H1 & H2)].
      * left. repeat split; [assumption..|].
        intros y Hy Hky. apply elem_of_app in Hy as [Hy|Hy]; [auto|].
        apply list_elem_of_singleton in Hy as ->. rewrite Hz in Hgt. exact Hgt.
      * right. exists z. repeat split; [assumption..|].
        exists l1, (l2 ++ [x]). rewrite <- app_assoc. cbn.
        repeat split; [assumption..|].
        intros y Hy Hky. apply elem_of_app in Hy as [Hy|Hy]; [auto|].
        apply list_elem_of_singleton in Hy as ->. rewrite Hbs in Hgt. exact Hgt.
  - destruct Hs as [(Hn & Hz & Hall) | (z & Hz & Hbs & Hpos & l1 & l2 & -> & Hkz & H1 & H2)].
    + left. repeat split; [assumption..|].
      intros y Hy Hky. apply elem_of_app in Hy as [Hy|Hy]; [auto|].
      apply list_elem_of_singleton in Hy as ->. congruence.
    + right. exists z. repeat split; [assumption..|].
      exists l1, (l2 ++ [x]). rewrite <- app_assoc. cbn.
      repeat split; [assumption..|].
      intros y Hy Hky. apply elem_of_app in Hy as [Hy|Hy]; [auto|].
      apply list_elem_of_singleton in Hy as ->. congruence.
Qed.

Lemma best_fold_state (l seen : list A) (best : option A * S) :
  loop_state gt ge zero keep score seen best ->
  loop_state gt ge zero keep score (seen ++ l)
    (fold_left (best_step gt keep score) l best).
Proof.
  revert seen best. induction l as [|x l IH]; intros seen best Hs; cbn.
  - rewrite app_nil_r. exact Hs.
  - replace (seen ++ x :: l) with ((seen ++ [x]) ++ l)
      by (rewrite <- app_assoc; reflexivity).
    apply IH. apply best_step_state. exact Hs.
Qed.

Lemma best_fold_spec (l : list A) :
  loop_state gt ge zero keep score l
    (fold_left (best_step gt keep score) l (None, zero)).
Proof.
  apply (best_fold_state l []). left. cbn.
  repeat split. intros y Hy. inversion Hy.
Qed.

Lemma best_fold_elem (l : list A) (x : A) (s : S) :
  fold_left (best_step gt keep score) l (None, zero) = (Some x, s) ->
  x ∈ l /\ keep x = true.
Proof.
  intros E. pose proof (best_fold_spec l) as H. rewrite E in H.
  destruct H as [(H & _) | (z & [= <-] & _ & _ & l1 & l2 & -> & Hk & _)];
    [discriminate H|].
  split; [|exact Hk]. apply elem_of_app. right. constructor.
Qed.

(** A loop some selected entry of which reaches a threshold above the
    initial score ends with the first maximum, which reaches it too. *)
Lemma best_fold_hit (l : list A) (threshold : S) :
  gt threshold zero = true ->
  (exists y, y ∈ l /\ keep y = true /\ ge (score y) threshold = true) ->
  exists x,
    fold_left (best_step gt keep score) l (None, zero) = (Some x, score x)
    /\ is_first_max gt ge keep score l x
    /\ ge (score x) threshold = true.
Proof.
  intros Hpos (y & Hy & Hk & Hth).
  pose proof (best_fold_spec l) as Hs.
  destruct (fold_left (best_step gt keep score) l (None, zero)) as [bm bs].
  unfold loop_state in Hs. cbn in Hs.
  destruct Hs as [(-> & -> & Hall) | (z & -> & -> & Hz & Hfm)].
  - exfalso. pose proof (ge_gt_trans gt ge laws _ _ _ Hth Hpos) as H.
    rewrite (Hall y Hy Hk) in H. discriminate H.
  - exists z. split; [reflexivity|]. split; [exact Hfm|].
    destruct Hfm as (l1 & l2 & -> & Hkz & H1 & H2).
    apply elem_of_app in Hy as [Hy|Hy].
    + eapply (ge_over gt ge laws); [exact Hth | by apply H1 | exact Hz].
    + apply elem_of_cons in Hy as [->|Hy]; [exact Hth|].
      eapply (ge_under gt ge laws); [exact Hth | by apply H2 | exact Hz].
Qed.

(** A loop no selected entry of which reaches a threshold that the
    initial score does not reach ends below the threshold. *)
Lemma best_fold_miss (l : list A) (threshold : S) :
  ge zero threshold = false ->
  (forall y, y ∈ l -> keep y = true -> ge (score y) threshold = false) ->
  ge (fold_left (best_step gt keep score) l (None, zero)).2 threshold = false.
Proof.
  intros Hzero Hall.
  pose proof (best_fold_spec l) as Hs.
  destruct (fold_left (best_step gt keep score) l (None, zero)) as [bm bs].
  unfold loop_state in Hs. cbn in *.
  destruct Hs as [(-> & -> & _) | (z & -> & -> & Hz & l1 & l2 & -> & Hk & _)].
  - exact Hzero.
  - apply Hall; [|exact Hk]. apply elem_of_app. right. constructor.
Qed.

End BestOfLoop.

Section CascadeProperties.

Variable ratio : string -> string -> Q.
Variable np_dot : list Q -> list Q -> option Float64.number.
Variable np_norm : list Q -> Float64.number.

Import Dedup Vocabulary.

Lemma recent_first_take (n : nat) (l : list CachedQuestion.t) :
  recent_first l -> recent_first (take n l).
Proof.
  intros H. rewrite <- (take_drop n l) in H.
  by apply recent_first_app in H as [H _].
Qed.

(** In a list ordered by recency the first maximum is a best entry. *)
Lemma first_max_in_pool {S : Type} (gt ge : S -> S -> bool)
    (keep : CachedQuestion.t -> bool) (score : CachedQuestion.t -> S)
    (pool : list CachedQuestion.t) (q : CachedQuestion.t) :
  comparison_laws gt ge -> recent_first pool ->
  is_first_max gt ge keep score pool q ->
  best_in_pool gt ge keep score pool q.
Proof.
  intros laws Hs (l1 & l2 & -> & Hk & H1 & H2).
  split; [apply elem_of_app; right; constructor|]. split; [exact Hk|]. split.
  - intros y Hy Hky. apply elem_of_app in Hy as [Hy|Hy].
    + apply (ge_gt gt ge laws). by apply H1.
    + apply elem_of_cons in Hy as [->|Hy]; [|by apply H2].
      by apply (gt_irreflexive gt ge).
  - intros y Hy Hky Hge. apply elem_of_app in Hy as [Hy|Hy].
    + rewrite (H1 y Hy Hky) in Hge. discriminate Hge.
    + apply elem_of_cons in Hy as [->|Hy]; [lia|].
      rewrite (cons_middle q l1 l2), app_assoc in Hs.
      apply recent_first_app in Hs as [_ Hs].
      apply Hs; [|exact Hy]. apply elem_of_app. right. constructor.
Qed.

Lemma fold_left_ext_fun {A B : Type} (f g : A -> B -> A) (l : list B) (a : A) :
  (forall a b, f a b = g a b) -> fold_left f l a = fold_left g l a.
Proof.
  intros H. revert a. induction l as [|b l IH]; intros a; cbn; [reflexivity|].
  rewrite H. apply IH.
Qed.

Lemma signature_layer_best (text : string) (pool : list CachedQuestion.t) :
  signature_layer ratio (_create_question_signature text) pool
  = fold_left (best_step Qgtb approved (sig_score ratio text)) pool (None, 0).
Proof. reflexivity. Qed.

(** The loop of layer 3 while no comparison raises, and when one does. *)
Lemma semantic_loop_best (e : list Q) (pool : list CachedQuestion.t)
    (best : option CachedQuestion.t * Float64.number) :
  (forall y, y ∈ pool -> has_embedding y = true ->
             cos_score np_dot np_norm e y <> None) ->
  semantic_loop np_dot np_norm e pool best
  = Some (fold_left
            (best_step Float64.greater has_embedding
               (cos_value np_dot np_norm e)) pool best).
Proof.
  revert best. induction pool as [|a pool IH]; intros best H;
    cbn [semantic_loop fold_left]; [reflexivity|].
  assert (Hstep : semantic_step np_dot np_norm e best a
                  = Some (best_step Float64.greater has_embedding
                            (cos_value np_dot np_norm e) best a)).
  { unfold semantic_step, best_step.
    replace (negb (approved a)
             || negb (Database.truthy_list (CachedQuestion.embedding a)))
      with (negb (has_embedding a))
      by (unfold has_embedding; apply negb_andb).
    destruct (has_embedding a) eqn:Hk; cbn [negb]; [|reflexivity].
    specialize (H a ltac:(constructor) Hk).
    unfold cos_value, cos_score in *.
    destruct (_compute_cosine_similarity np_dot np_norm e _) as [sim|];
      [|contradiction].
    cbn [default from_option id]. destruct (Float64.greater sim best.2);
      reflexivity. }
  rewrite Hstep. apply IH. intros y Hy. apply H. by constructor.
Qed.

Lemma semantic_loop_raises (e : list Q) (pool : list CachedQuestion.t)
    (best : option CachedQuestion.t * Float64.number) :
  (exists y, y ∈ pool /\ has_embedding y = true
             /\ cos_score np_dot np_norm e y = None) ->
  semantic_loop np_dot np_norm e pool best = None.
Proof.
  revert best. induction pool as [|a pool IH]; intros best (y & Hy & Hk & Hc);
    [inversion Hy|].
  cbn [semantic_loop].
  destruct (semantic_step np_dot np_norm e best a) as [b1|] eqn:E;
    [|reflexivity].
  apply elem_of_cons in Hy as [->|Hy].
  - exfalso. unfold semantic_step in E.
    replace (negb (approved a)
             || negb (Database.truthy_list (CachedQuestion.embedding a)))
      with (negb (has_embedding a)) in E
      by (unfold has_embedding; apply negb_andb).
    rewrite Hk in E. cbn [negb] in E. unfold cos_score in Hc.
    rewrite Hc in E. discriminate E.
  - apply IH. exists y. by repeat split.
Qed.

Lemma image_hash_layer_fetch (now : Z) (image_hash : option string)
    (db : Database.Db) :
  image_hash_layer now image_hash db
  = if hash_refused image_hash then None
    else
      let f := fetch_by_hash now image_hash db in
      Some (match f.1 with
            | Some q => if approved q then Some q else None
            | None => None
            end, f.2).
Proof.
  unfold image_hash_layer, hash_refused, fetch_by_hash, Database.truthy_str.
  destruct image_hash as [h|]; [|reflexivity].
  cbn [default from_option id].
  case_bool_decide; cbn [negb orb andb]; [reflexivity|].
  destruct (Database.sendable h); cbn [negb]; [|reflexivity].
  destruct (Database.get_cached_question_by_image_hash now h db) as [[q|] d];
    cbn; [destruct (approved q)|]; reflexivity.
Qed.

Lemma threshold_order :
  Qgtb MEDIUM_CONFIDENCE_THRESHOLD 0 = true
  /\ Qgeb 0 MEDIUM_CONFIDENCE_THRESHOLD = false
  /\ MEDIUM_CONFIDENCE_THRESHOLD <= HIGH_CONFIDENCE_THRESHOLD
  /\ Float64.greater (Float64.Finite SEMANTIC_EMBEDDING_THRESHOLD)
       (Float64.Finite 0) = true
  /\ Float64.at_least (Float64.Finite 0)
       (Float64.Finite SEMANTIC_EMBEDDING_THRESHOLD) = false.
Proof. repeat split; vm_compute; congruence. Qed.

Lemma latest_with_ext (p p' : CachedQuestion.t -> Prop)
    (rows : list CachedQuestion.t) (row : CachedQuestion.t) :
  (forall q, p q <-> p' q) ->
  latest_with p rows row -> latest_with p' rows row.
Proof.
  intros H (Hin & Hp & Hmax). split; [exact Hin|]. split; [by apply H|].
  intros q Hq Hpq. apply Hmax; [exact Hq | by apply H].
Qed.

(** The fetch of layer 1 by a hash that is given and accepted: a most
    recently used row with the hash, whose usage is bumped, or nothing
    when no row has the hash. *)
Lemma fetch_by_hash_latest (now : Z) (image_hash : option string)
    (db : Database.Db) :
  Database.truthy_str image_hash = true ->
  hash_refused image_hash = false ->
  let f := fetch_by_hash now image_hash db in
  let rows := Database.cached_scientific_questions db in
  match f.1 with
  | Some q =>
      latest_with (fun r => CachedQuestion.image_hash r = image_hash) rows q
      /\ usage_bumped now (CachedQuestion.id q) rows
           (Database.cached_scientific_questions f.2)
  | None =>
      forall r, r ∈ rows -> CachedQuestion.image_hash r <> image_hash
  end.
Proof.
  unfold hash_refused, fetch_by_hash, Database.truthy_str.
  destruct image_hash as [h|]; [|discriminate].
  cbn [default from_option id]. intros Ht Hr. rewrite Ht in Hr.
  cbn [andb] in Hr. apply negb_false_iff in Hr. rewrite Hr.
  apply negb_true_iff in Ht. rewrite Ht. cbn [negb orb].
  unfold Database.get_cached_question_by_image_hash.
  pose proof (fetch_latest
    (fun r => bool_decide (CachedQuestion.image_hash r = Some h))
    (Database.cached_scientific_questions db)) as H.
  destruct (Database.order_by_last_used_desc _) as [|row l']; cbn.
  - intros r Hr'. specialize (H r Hr'). by apply bool_decide_eq_false in H.
  - split; [|apply update_where_bumped].
    eapply latest_with_ext; [|exact H]. intros q. cbn.
    apply bool_decide_eq_true.
Qed.

Lemma fetch_by_hash_absent (now : Z) (image_hash : option string)
    (db : Database.Db) :
  Database.truthy_str image_hash = false ->
  fetch_by_hash now image_hash db = (None, db).
Proof.
  unfold fetch_by_hash, Database.truthy_str.
  destruct image_hash as [h|]; [|reflexivity].
  intros H. apply negb_false_iff in H. rewrite H. reflexivity.
Qed.

Lemma best_signature (text : string) (pool : list CachedQuestion.t)
    (q : CachedQuestion.t) :
  recent_first pool ->
  is_first_max Qgtb Qgeb approved (sig_score ratio text) pool q ->
  best_signature_match ratio text pool q.
Proof.
  intros Hs Hfm.
  destruct (first_max_in_pool Qgtb Qgeb approved (sig_score ratio text) pool q
              rational_comparison_laws Hs Hfm) as (Hin & Hk & Hmax & Hties).
  split; [exact Hin|]. split; [exact Hk|]. split.
  - intros y Hy Hky. apply Qgtb_false. by apply Hmax.
  - intros y Hy Hky Heq. apply Hties; [assumption..|].
    apply Qgeb_true. rewrite Heq. apply Qle_refl.
Qed.

(** C2, as the code has it.  Without an embedding client the call
    returns none and touches nothing; so it does, with a client, when the
    driver refuses the image hash.  Otherwise the three layers run in
    order:
    - layer 1: when a non-empty image hash is given, some row has it, and
      every most recently used row with that hash is approved, such a row
      is returned, its usage is bumped, and no text is sent to the
      embedding service;
    - layer 2, when no row has the hash or no most recently used row with
      it is approved (or no hash is given): the pool is the 200 most
      recently used rows; when some approved pool entry has a combined
      score of at least 0.75 (a fortiori 0.85), a best approved pool
      entry is returned, which reaches 0.75, and no text is sent to the
      embedding service;
    - layer 3, only when every approved pool entry scores below 0.75:
      the question text is sent to the embedding service, once; if that
      call raises, or the comparison with an approved pool entry that has
      a stored embedding raises, the result is none; otherwise, when some
      such entry has a cosine similarity of at least 0.82, a best one is
      returned, which reaches 0.82, and when none has, the result is
      none.
    Scores and thresholds are binary64 numbers; a best entry is one that
    no entry of its kind outscores and than which no entry with a score
    as high was used more recently. *)
Theorem find_similar_question_cascade
    (self : EnhancedQuestionDeduplicator) (now : Z) (question_text : string)
    (image_hash : option string) (w : world) :
  let r := find_similar_question ratio np_dot np_norm self now question_text
             image_hash w in
  let rows := Database.cached_scientific_questions (store w) in
  let latest :=
    latest_with (fun q => CachedQuestion.image_hash q = image_hash) rows in
  let db := (fetch_by_hash now image_hash (store w)).2 in
  let pool := Database.get_recent_cached_questions 200 db in
  let sig := sig_score ratio question_text in
  (embeddings self = None -> r = (None, w))
  /\ (forall client, embeddings self = Some client ->
      (hash_refused image_hash = true -> r = (None, w))
      /\ (hash_refused image_hash = false ->
          (Database.truthy_str image_hash = true ->
           (exists q, latest q) ->
           (forall q, latest q -> CachedQuestion.is_corrected q = Some true) ->
           exists q,
             latest q
             /\ r = (Some q, World db (embed_calls w))
             /\ usage_bumped now (CachedQuestion.id q) rows
                  (Database.cached_scientific_questions db))
          /\ ((Database.truthy_str image_hash = true ->
               forall q, latest q ->
                         CachedQuestion.is_corrected q <> Some true) ->
              ((exists y, y ∈ pool /\ approved y = true
                          /\ MEDIUM_CONFIDENCE_THRESHOLD <= sig y) ->
               exists q,
                 r = (Some q, World db (embed_calls w))
                 /\ best_signature_match ratio question_text pool q
                 /\ MEDIUM_CONFIDENCE_THRESHOLD <= sig q)
              /\ ((forall y, y ∈ pool -> approved y = true ->
                             sig y < MEDIUM_CONFIDENCE_THRESHOLD) ->
                  r.2 = World db (question_text :: embed_calls w)
                  /\ (client question_text = None -> r.1 = None)
                  /\ (forall e, client question_text = Some e ->
                        let cos := cos_value np_dot np_norm e in
                        let reaches q :=
                          Float64.at_least (cos q)
                            (Float64.Finite SEMANTIC_EMBEDDING_THRESHOLD) in
                        ((exists y, y ∈ pool /\ has_embedding y = true
                                    /\ cos_score np_dot np_norm e y = None) ->
                         r.1 = None)
                        /\ ((forall y, y ∈ pool -> has_embedding y = true ->
                                       cos_score np_dot np_norm e y <> None) ->
                            ((exists y, y ∈ pool /\ has_embedding y = true
                                        /\ reaches y = true) ->
                             exists q,
                               r.1 = Some q
                               /\ best_in_pool Float64.greater
                                    Float64.at_least has_embedding cos pool q
                               /\ reaches q = true)
                            /\ ((forall y, y ∈ pool ->
                                           has_embedding y = true ->
                                           reaches y = false) ->
                                r.1 = None))))))).
Proof.
  destruct threshold_order as (Hpos & Hzero & Hmh & Hpos3 & Hzero3).
  cbn zeta. unfold find_similar_question.
  destruct (embeddings self) as [client0|]; [|split; [reflexivity|discriminate]].
  split; [discriminate|]. intros client [= ->].
  rewrite image_hash_layer_fetch.
  split; [intros ->; reflexivity|].
  intros Hacc. rewrite Hacc. cbn zeta.
  pose proof (fetch_by_hash_latest now image_hash (store w)) as Hfetch.
  cbn zeta in Hfetch.
  pose proof (fetch_by_hash_absent now image_hash (store w)) as Habsent.
  destruct (fetch_by_hash now image_hash (store w)) as [f db].
  cbn [fst snd] in *.
  split.
  - intros Ht (q0 & Hq0) Hall. specialize (Hfetch Ht Hacc).
    destruct f as [q|].
    + destruct Hfetch as [Hlat Hbump]. exists q. split; [exact Hlat|].
      pose proof (Hall q Hlat) as Hq. apply approved_is_corrected in Hq.
      rewrite Hq. split; [reflexivity | exact Hbump].
    + exfalso. destruct Hq0 as (Hin & Hp & _). exact (Hfetch q0 Hin Hp).
  - intros Hun.
    assert (Hmiss : match f with
                    | Some q => if approved q then Some q else None
                    | None => None
                    end = None).
    { destruct f as [q|]; [|reflexivity].
      destruct (approved q) eqn:Ha; [|reflexivity]. exfalso.
      destruct (Database.truthy_str image_hash) eqn:Ht.
      - destruct (Hfetch eq_refl Hacc) as [Hlat _].
        apply approved_is_corrected in Ha. exact (Hun eq_refl q Hlat Ha).
      - specialize (Habsent eq_refl). discriminate Habsent. }
    rewrite Hmiss. clear Hmiss Hun Hfetch Habsent.
    rewrite signature_layer_best.
    set (pool := Database.get_recent_cached_questions 200 db).
    assert (Hsorted : recent_first pool)
      by apply recent_first_take, order_by_last_used_desc_sorted.
    split.
    + intros (y & Hy & Hk & Hth).
      destruct (best_fold_hit Qgtb Qgeb 0 approved
                  (sig_score ratio question_text) rational_comparison_laws
                  pool MEDIUM_CONFIDENCE_THRESHOLD Hpos)
        as (x & Hx & Hfm & Hge).
      { exists y. repeat split; [assumption..|]. by apply Qgeb_true. }
      rewrite Hx. exists x. split; [|split].
      * destruct (Qgeb (sig_score ratio question_text x)
                   HIGH_CONFIDENCE_THRESHOLD); [reflexivity|].
        rewrite Hge. reflexivity.
      * by apply best_signature.
      * by apply Qgeb_true.
    + intros Hall.
      pose proof (best_fold_miss Qgtb Qgeb 0 approved
                    (sig_score ratio question_text) rational_comparison_laws
                    pool MEDIUM_CONFIDENCE_THRESHOLD Hzero) as Hlow.
      specialize (Hlow ltac:(intros y Hy Hk; apply Qgeb_false; by apply Hall)).
      destruct (fold_left (best_step Qgtb approved _) pool _) as [bm bs].
      cbn [snd] in Hlow.
      assert (Hh : Qgeb bs HIGH_CONFIDENCE_THRESHOLD = false).
      { apply Qgeb_false. apply Qgeb_false in Hlow. lra. }
      rewrite Hh, Hlow.
      destruct (client question_text) as [e|] eqn:He.
      * split.
        { destruct (semantic_layer np_dot np_norm e pool) as [[sm ss]|];
            [destruct (Float64.at_least ss _)|]; reflexivity. }
        split; [discriminate|].
        intros e' [= <-]. cbn zeta. unfold semantic_layer. split.
        -- intros Hraise.
           rewrite (semantic_loop_raises e pool _ Hraise). reflexivity.
        -- intros Hok. rewrite (semantic_loop_best e pool _ Hok). split.
           ++ intros (y & Hy & Hk & Hth).
              destruct (best_fold_hit Float64.greater Float64.at_least
                          (Float64.Finite 0) has_embedding
                          (cos_value np_dot np_norm e) number_comparison_laws
                          pool (Float64.Finite SEMANTIC_EMBEDDING_THRESHOLD)
                          Hpos3)
                as (x & Hx & Hfm & Hge).
              { exists y. by repeat split. }
              rewrite Hx, Hge. exists x. split; [reflexivity|]. split;
                [|exact Hge].
              by apply first_max_in_pool;
                [apply number_comparison_laws | |].
           ++ intros Hall3.
              pose proof (best_fold_miss Float64.greater Float64.at_least
                            (Float64.Finite 0) has_embedding
                            (cos_value np_dot np_norm e)
                            number_comparison_laws pool
                            (Float64.Finite SEMANTIC_EMBEDDING_THRESHOLD)
                            Hzero3 Hall3) as Hlow3.
              destruct (fold_left (best_step Float64.greater _ _) pool _)
                as [sm ss]. cbn [snd] in Hlow3. rewrite Hlow3. reflexivity.
      * split; [reflexivity|]. split; [reflexivity|]. discriminate.
Qed.

End CascadeProperties.

(** Layer 1 and layer 2 of the cascade on the sample store. *)
Lemma find_similar_question_cascade_witness :
  (exists q,
     Vocabulary.latest_with
       (fun r => CachedQuestion.image_hash r = Some "abc123"%string)
       (Database.cached_scientific_questions Sample.db0) q
     /\ Dedup.find_similar_question Sample.ratio Sample.np_dot Sample.np_norm
          (Dedup.Deduplicator (Some Sample.constant_client)) 9
          "Explain NaCl solubility" (Some "abc123"%string) Sample.world0
        = (Some q,
           Dedup.World
             (Vocabulary.fetch_by_hash 9 (Some "abc123"%string) Sample.db0).2
             []))
  /\ (exists q,
        Dedup.find_similar_question Sample.ratio Sample.np_dot Sample.np_norm
          (Dedup.Deduplicator (Some Sample.constant_client)) 9
          "What is the oxidation state of Fe in Fe2O3?" None Sample.world0
        = (Some q, Sample.world0)
        /\ Vocabulary.best_signature_match Sample.ratio
             "What is the oxidation state of Fe in Fe2O3?"
             (Database.get_recent_cached_questions 200 Sample.db0) q).
Proof.
  split.
  - destruct (proj1 (proj2 (proj2 (find_similar_question_cascade Sample.ratio
                Sample.np_dot Sample.np_norm
                (Dedup.Deduplicator (Some Sample.constant_client)) 9
                "Explain NaCl solubility" (Some "abc123"%string) Sample.world0)
                Sample.constant_client eq_refl) eq_refl) eq_refl)
      as (q & Hlat & Hr & _).
    + exists (Sample.question 1 "What is the oxidation state of Fe in Fe2O3?"
                (Some "abc123"%string) 5 true).
      split; [left|]. split; [reflexivity|].
      intros q Hq Hp. apply list_elem_of_In in Hq.
      destruct Hq as [<-|[<-|[<-|[]]]];
        [cbn; lia | discriminate Hp | discriminate Hp].
    + intros q (Hq & Hp & _). apply list_elem_of_In in Hq.
      destruct Hq as [<-|[<-|[<-|[]]]];
        [reflexivity | discriminate Hp | discriminate Hp].
    + exists q. split; [exact Hlat | exact Hr].
  - destruct (proj1 (proj2 (proj2 (proj2 (find_similar_question_cascade
                Sample.ratio Sample.np_dot Sample.np_norm
                (Dedup.Deduplicator (Some Sample.constant_client)) 9
                "What is the oxidation state of Fe in Fe2O3?" None
                Sample.world0)
                Sample.constant_client eq_refl) eq_refl)
                ltac:(intros Ht; discriminate Ht)))
      as (q & Hr & Hbest & _).
    + exists (Sample.question 1 "What is the oxidation state of Fe in Fe2O3?"
                (Some "abc123"%string) 5 true).
      split; [right; right; left|]. split; [reflexivity|].
      vm_compute. discriminate.
    + exists q. split; [exact Hr | exact Hbest].
Defined.

(** C2 fails as stated at two inputs.  On the sample store and without
    an embedding client, the image hash of an approved entry is given and
    nothing is returned.  With a client, on a store where the approved
    entry of the given hash is not the most recently used row of that
    hash, nothing is returned either, and the text was sent to the
    embedding service. *)
Lemma find_similar_question_cascade_counterexample :
  (exists q, q ∈ Database.cached_scientific_questions Sample.db0
             /\ CachedQuestion.image_hash q = Some "abc123"%string
             /\ CachedQuestion.is_corrected q = Some true)
  /\ Dedup.find_similar_question Sample.ratio Sample.np_dot Sample.np_norm
       (Dedup.Deduplicator None) 9 "Explain NaCl solubility"
       (Some "abc123"%string) Sample.world0
     = (None, Sample.world0)
  /\ (exists q, q ∈ Database.cached_scientific_questions Sample.db1
                /\ CachedQuestion.image_hash q = Some "abc123"%string
                /\ CachedQuestion.is_corrected q = Some true)
  /\ (let r := Dedup.find_similar_question Sample.ratio Sample.np_dot
                 Sample.np_norm
                 (Dedup.Deduplicator (Some Sample.orthogonal_client)) 9
                 "Explain NaCl solubility" (Some "abc123"%string)
                 Sample.world1 in
      r.1 = None
      /\ Dedup.embed_calls r.2 = ["Explain NaCl solubility"%string]).
Proof.
  split; [|split; [|split]].
  - eexists. split; [left|]. split; reflexivity.
  - reflexivity.
  - eexists. split; [left|]. split; reflexivity.
  - vm_compute. split; reflexivity.
Qed.

(** The weighted sum as binary64 arithmetic gives it.  At the component
    scores 1, 1/2, 1/2 and 1 the combined score is the binary64 number
    just below 0.75 (the exact sum would be 3/4): the signature layer
    does not accept the entry, the question text is sent to the
    embedding service, and with an embedding orthogonal to the stored
    one nothing is returned. *)
Lemma combined_score_just_below_medium :
  let s := Dedup._compute_signature_similarity Sample.ratio
             (Dedup._create_question_signature "NaCl KOH acid base 5 ml")
             (Dedup._create_question_signature "NaCl koh acid ba!se 5 ml") in
  Dedup.score_fingerprint s = 1
  /\ Dedup.score_formulas s = 1 # 2
  /\ Dedup.score_keywords s = 1 # 2
  /\ Dedup.score_numbers s = 1
  /\ Dedup.score_combined s = 6755399441055743 # 9007199254740992
  /\ Dedup.MEDIUM_CONFIDENCE_THRESHOLD = 3 # 4
  /\ Dedup.find_similar_question Sample.ratio Sample.np_dot Sample.np_norm
       (Dedup.Deduplicator (Some Sample.orthogonal_client)) 9
       "NaCl KOH acid base 5 ml" None Sample.world2
     = (None, Dedup.World Sample.db2 ["NaCl KOH acid base 5 ml"%string]).
Proof. vm_compute. repeat split. Qed.

(** ** Formula extraction *)

Section FormulaProperties.

Import Dedup.

Lemma formula_kept (m : Str.t) :
  negb (bool_decide (Str.to_string m ∈ english_words)) && (1 <? length m)%nat
  = true
  <-> (Str.to_string m ∉ english_words) /\ (1 < length m)%nat.
Proof.
  rewrite andb_true_iff, negb_true_iff, bool_decide_eq_false, Nat.ltb_lt.
  reflexivity.
Qed.

Lemma formulas_fold_elem (matches : list Str.t) (acc : gset string)
    (x : string) :
  x ∈ fold_left
        (fun formulas m =>
           if negb (bool_decide (Str.to_string m ∈ english_words))
              && (1 <? length m)%nat
           then formulas ∪ {[ Str.to_string (Str.upper m) ]}
           else formulas)
        matches acc
  <-> x ∈ acc
      \/ exists m, m ∈ matches
                   /\ (Str.to_string m ∉ english_words)
                   /\ (1 < length m)%nat
                   /\ x = Str.to_string (Str.upper m).
Proof.
  revert acc. induction matches as [|m ms IH]; intros acc; cbn [fold_left].
  - split; [auto|]. intros [H|(m & Hm & _)]; [exact H | inversion Hm].
  - rewrite IH. clear IH.
    destruct (negb (bool_decide (Str.to_string m ∈ english_words))
              && (1 <? length m)%nat) eqn:Hc.
    + apply formula_kept in Hc as [Hw Hl].
      rewrite elem_of_union, elem_of_singleton. split.
      * intros [[H | ->] | (m' & Hm' & H)].
        -- auto.
        -- right. exists m. repeat split; [constructor | assumption..].
        -- right. exists m'. split; [by constructor | exact H].
      * intros [H|(m' & Hm' & Hw' & Hl' & ->)]; [auto|].
        apply elem_of_cons in Hm' as [->|Hm']; [auto|].
        right. exists m'. auto.
    + split.
      * intros [H|(m' & Hm' & H)]; [auto|]. right. exists m'.
        split; [by constructor | exact H].
      * intros [H|(m' & Hm' & Hw' & Hl' & ->)]; [auto|].
        apply elem_of_cons in Hm' as [->|Hm'].
        -- exfalso. assert (Ht : negb (bool_decide (Str.to_string m ∈ english_words))
                                 && (1 <? length m)%nat = true)
             by (apply formula_kept; auto).
           congruence.
        -- right. exists m'. auto.
Qed.

(** C8.  The formulas of a text are exactly the upper-cased matches of
    the formula pattern that are longer than one character and are not
    in the denylist; "Is this an oxidation reaction" has no formula, and
    the formulas of "Fe2O3 reacts with H2SO4" are FE2O3 and H2SO4. *)
Theorem extract_formulas_denylist :
  (forall (text x : string),
     x ∈ _extract_chemical_formulas text <->
     exists m, m ∈ Re.findall formula_re (Str.of_string text)
               /\ (Str.to_string m ∉ english_words)
               /\ (1 < length m)%nat
               /\ x = Str.to_string (Str.upper m))
  /\ _extract_chemical_formulas "Is this an oxidation reaction" = ∅
  /\ Re.findall formula_re (Str.of_string "Is this an oxidation reaction")
     = [Str.of_string "Is"]
  /\ _extract_chemical_formulas "Fe2O3 reacts with H2SO4"
     = {[ "FE2O3"%string; "H2SO4"%string ]}.
Proof.
  split; [|split; [|split]].
  - intros text x. unfold _extract_chemical_formulas.
    rewrite formulas_fold_elem. split.
    + intros [H|H]; [|exact H]. exfalso. revert H. apply not_elem_of_empty.
    + auto.
  - vm_compute. reflexivity.
  - vm_compute. reflexivity.
  - vm_compute. reflexivity.
Qed.

End FormulaProperties.

(** ** The extractors on sample texts *)

Example fingerprint_question_5 :
  Dedup._extract_question_fingerprint
    "Question 5: What is the oxidation state of Fe in Fe2O3?"
  = "what oxidation state fe fe o"%string.
Proof. vm_compute. reflexivity. Qed.

Example fingerprint_choice_markers :
  Dedup._extract_question_fingerprint "(A) acid [b] base c- salt d. gas"
  = "a) acid b) base c) salt d) gas"%string.
Proof. vm_compute. reflexivity. Qed.

Example numbers_and_units :
  Dedup._extract_numbers_and_units "add 2.5 mol of HCl to 30 mL at 25 C"
  = {[ "2.5 mol"%string; "2.5"%string; "30 mL"%string; "30"%string;
       "25"%string ]}.
Proof. vm_compute. reflexivity. Qed.

Example keywords_of_text :
  Dedup._extract_chemistry_keywords "Is this an oxidation reaction at pH 7"
  = {[ "oxidation"%string; "ion"%string; "reaction"%string ]}.
Proof. vm_compute. reflexivity. Qed.

(** ** The matcher keeps to the characters of the text *)

Section MatcherInvariant.

Import Re Vocabulary.

Variable P : ascii -> Prop.

(** Whatever a match attempt hands to its continuation is a state over
    the characters of the text it started from. *)
Lemma run_state_ok {A : Type} (r : regex) :
  forall (st : mstate) (k : mstate -> option A) (x : A),
    state_ok P st -> run r st k = Some x ->
    exists st', state_ok P st' /\ k st' = Some x.
Proof.
  induction r as [|p|r1 IH1 r2 IH2|r1 IH1 r2 IH2|r IH| |n r IH];
    intros st k x Hst Hrun; cbn [run] in Hrun.
  - eauto.
  - destruct st as [pv [|c s'] cs]; cbn in Hrun; [discriminate|].
    destruct (p c); [|discriminate].
    eexists. split; [|exact Hrun].
    destruct Hst as [Hr Hc]. split; [|exact Hc]. cbn in *.
    by apply Forall_inv_tail in Hr.
  - destruct (IH1 st _ x Hst Hrun) as (st1 & H1 & Hk1).
    exact (IH2 st1 k x H1 Hk1).
  - destruct (run r1 st k) as [y|] eqn:E.
    + injection Hrun as ->. exact (IH1 st k x Hst E).
    + exact (IH2 st k x Hst Hrun).
  - remember (length (rest st)) as n eqn:Hn in Hrun. clear Hn.
    revert st Hst Hrun. induction n as [|n IHn]; intros st Hst Hrun;
      cbn [star_loop] in Hrun.
    + eauto.
    + match type of Hrun with
      | match ?t with _ => _ end = _ => destruct t as [y|] eqn:E
      end.
      * injection Hrun as ->.
        destruct (IH st _ x Hst E) as (st1 & H1 & Hk1).
        destruct (length (rest st1) <? length (rest st))%nat;
          [|discriminate Hk1].
        exact (IHn st1 H1 Hk1).
      * eauto.
  - destruct (at_boundary st); [eauto | discriminate].
  - destruct (IH st _ x Hst Hrun) as (st1 & H1 & Hk1).
    eexists. split; [|exact Hk1].
    destruct H1 as [Hr Hc]. destruct Hst as [Hr0 Hc0].
    split; [exact Hr|]. cbn. constructor; [|exact Hc].
    cbn. unfold consumed. by apply Forall_take.
Qed.

Lemma match_at_ok (r : regex) (p : option ascii) (s : Str.t) (m : rmatch) :
  Forall P s -> match_at r p s = Some m -> match_ok P m.
Proof.
  intros Hs Hm. unfold match_at in Hm.
  apply run_state_ok in Hm as (st' & [Hr Hc] & Hk);
    [|split; [exact Hs | constructor]].
  injection Hk as <-. split; cbn; [by apply Forall_take | exact Hc].
Qed.

Lemma scan_ok (r : regex) (s : Str.t) :
  forall (p : option ascii) (skip : nat),
    Forall P s -> Forall (piece_ok P) (scan r p skip s).
Proof.
  induction s as [|c s IH]; intros p skip Hs; cbn [scan]; [constructor|].
  pose proof (Forall_inv Hs) as Hc. pose proof (Forall_inv_tail Hs) as Hs'.
  destruct skip as [|n]; [|by apply IH].
  destruct (match_at r p (c :: s)) as [m|] eqn:E.
  - destruct (length (whole m)).
    + constructor; [exact Hc | by apply IH].
    + constructor; [exact (match_at_ok _ _ _ _ Hs E) | by apply IH].
  - constructor; [exact Hc | by apply IH].
Qed.

Lemma sub_ok (r : regex) (repl : rmatch -> Str.t) (s : Str.t) :
  (forall m, match_ok P m -> Forall P (repl m)) ->
  Forall P s -> Forall P (sub r repl s).
Proof.
  intros Hrepl Hs. unfold sub.
  pose proof (scan_ok r s None 0 Hs) as Hp.
  induction Hp as [|x xs Hx _ IH]; cbn; [constructor|].
  apply Forall_app. split; [|exact IH].
  destruct x as [c|m]; cbn in Hx; [by constructor | by apply Hrepl].
Qed.

Lemma group_ok (n : nat) (m : rmatch) :
  match_ok P m -> Forall P (group n m).
Proof.
  intros [_ Hc]. unfold group. induction Hc as [|[i g] gs Hg _ IH]; cbn.
  - constructor.
  - destruct (i =? n)%nat; [exact Hg | exact IH].
Qed.

End MatcherInvariant.

(** ** The string primitives *)

Section StringStages.

Import Vocabulary.

Variable P : ascii -> Prop.

Lemma replace_from_ok (old new : Str.t) (s : Str.t) :
  forall skip, Forall P new -> Forall P s ->
               Forall P (Str.replace_from old new skip s).
Proof.
  induction s as [|c s IH]; intros skip Hnew Hs; cbn [Str.replace_from];
    [constructor|].
  pose proof (Forall_inv Hs) as Hc. pose proof (Forall_inv_tail Hs) as Hs'.
  destruct skip; [|by apply IH].
  destruct (Str.starts_with old (c :: s)).
  - apply Forall_app. split; [exact Hnew | by apply IH].
  - constructor; [exact Hc | by apply IH].
Qed.

Lemma replace_ok (old new s : Str.t) :
  Forall P new -> Forall P s -> Forall P (Str.replace old new s).
Proof. apply replace_from_ok. Qed.

Lemma split_ok (s : Str.t) : Forall P s -> Forall (Forall P) (Str.split s).
Proof.
  induction s as [|c s IH]; intros Hs; cbn [Str.split]; [constructor|].
  pose proof (Forall_inv Hs) as Hc. pose proof (Forall_inv_tail Hs) as Hs'.
  specialize (IH Hs').
  destruct (Char.is_space c); [exact IH|].
  destruct s as [|d s'].
  - repeat constructor. exact Hc.
  - destruct (Char.is_space d).
    + constructor; [repeat constructor; exact Hc | exact IH].
    + destruct (Str.split (d :: s')) as [|w ws].
      * repeat constructor. exact Hc.
      * constructor; [|exact (Forall_inv_tail IH)].
        constructor; [exact Hc | exact (Forall_inv IH)].
Qed.

Lemma join_ok (sep : Str.t) (ws : list Str.t) :
  Forall P sep -> Forall (Forall P) ws -> Forall P (Str.join sep ws).
Proof.
  intros Hsep Hws. induction Hws as [|w ws Hw _ IH]; cbn [Str.join];
    [constructor|].
  destruct ws as [|w' ws']; [exact Hw|].
  apply Forall_app. split; [exact Hw|].
  apply Forall_app. split; [exact Hsep | exact IH].
Qed.

Lemma lstrip_ok (s : Str.t) : Forall P s -> Forall P (Str.lstrip s).
Proof.
  induction s as [|c s IH]; intros Hs; cbn [Str.lstrip]; [constructor|].
  destruct (Char.is_space c); [apply IH; exact (Forall_inv_tail Hs) | exact Hs].
Qed.

Lemma strip_ok (s : Str.t) : Forall P s -> Forall P (Str.strip s).
Proof.
  intros Hs. unfold Str.strip, Str.rstrip.
  apply Forall_rev, lstrip_ok, Forall_rev, lstrip_ok, Hs.
Qed.

End StringStages.

Section WhitespaceCollapse.

Import Vocabulary.

Lemma split_words (s : Str.t) : Forall is_word_str (Str.split s).
Proof.
  induction s as [|c s IH]; cbn [Str.split]; [constructor|].
  destruct (Char.is_space c) eqn:Hc; [exact IH|].
  assert (H1 : is_word_str [c])
    by (split; [discriminate | constructor; [exact Hc | constructor]]).
  destruct s as [|d s']; [constructor; [exact H1 | constructor]|].
  destruct (Char.is_space d) eqn:Hd; [constructor; [exact H1 | exact IH]|].
  destruct (Str.split (d :: s')) as [|w ws];
    [constructor; [exact H1 | constructor]|].
  constructor; [|exact (Forall_inv_tail IH)].
  destruct (Forall_inv IH) as [_ Hw]. split; [discriminate|].
  constructor; [exact Hc | exact Hw].
Qed.

(** Splitting a word followed by a space and more text. *)
Lemma split_word_space (w t : Str.t) (sp : ascii) :
  is_word_str w -> Char.is_space sp = true ->
  Str.split (w ++ sp :: t) = w :: Str.split t.
Proof.
  intros [Hne Hw] Hsp. induction w as [|c w IH]; [contradiction|].
  pose proof (Forall_inv Hw) as Hc. pose proof (Forall_inv_tail Hw) as Hw'.
  cbn [app Str.split]. rewrite Hc.
  destruct w as [|c2 w'].
  - cbn [app]. rewrite Hsp. cbn [Str.split]. rewrite Hsp. reflexivity.
  - cbn [app]. rewrite (Forall_inv Hw').
    cbn [app] in IH. rewrite IH; [reflexivity | discriminate | exact Hw'].
Qed.

Lemma split_word (w : Str.t) : is_word_str w -> Str.split w = [w].
Proof.
  intros [Hne Hw]. induction w as [|c w IH]; [contradiction|].
  pose proof (Forall_inv Hw) as Hc. pose proof (Forall_inv_tail Hw) as Hw'.
  cbn [Str.split]. rewrite Hc.
  destruct w as [|c2 w']; [reflexivity|].
  rewrite (Forall_inv Hw'). rewrite IH; [reflexivity | discriminate | exact Hw'].
Qed.

Lemma space_is_space : Char.is_space " "%char = true.
Proof. reflexivity. Qed.

Lemma split_join (ws : list Str.t) :
  Forall is_word_str ws -> Str.split (Str.join (Dedup.lit " ") ws) = ws.
Proof.
  intros Hws. induction Hws as [|w ws Hw _ IH]; [reflexivity|].
  cbn [Str.join]. destruct ws as [|w' ws']; [by apply split_word|].
  change (Dedup.lit " " ++ ?t) with (" "%char :: t).
  rewrite (split_word_space w _ _ Hw space_is_space). f_equal. exact IH.
Qed.

Lemma lstrip_no_lead (s : Str.t) : no_lead s -> Str.lstrip s = s.
Proof.
  destruct s as [|c s]; cbn; [reflexivity|]. intros ->. reflexivity.
Qed.

Lemma no_lead_app (s t : Str.t) : s <> [] -> no_lead s -> no_lead (s ++ t).
Proof. destruct s; [contradiction | auto]. Qed.

Lemma word_no_lead (w : Str.t) : is_word_str w -> no_lead w.
Proof. intros [Hne Hw]. destruct w; [exact I | exact (Forall_inv Hw)]. Qed.

Lemma word_rev (w : Str.t) : is_word_str w -> is_word_str (rev w).
Proof.
  intros [Hne Hw]. split; [|by apply Forall_rev].
  intros H. apply Hne. rewrite <- (rev_involutive w), H. reflexivity.
Qed.

Lemma join_nonempty (ws : list Str.t) :
  Forall is_word_str ws -> ws <> [] -> Str.join (Dedup.lit " ") ws <> [].
Proof.
  intros Hws Hne. destruct Hws as [|w ws [Hw _] _]; [contradiction|].
  cbn [Str.join]. destruct ws; [exact Hw|].
  intros H. apply app_eq_nil in H as [H _]. contradiction.
Qed.

Lemma join_no_lead (ws : list Str.t) :
  Forall is_word_str ws -> no_lead (Str.join (Dedup.lit " ") ws).
Proof.
  intros Hws. destruct Hws as [|w ws Hw _]; [exact I|].
  cbn [Str.join]. destruct ws; [by apply word_no_lead|].
  apply no_lead_app; [apply Hw | by apply word_no_lead].
Qed.

Lemma join_rev_no_lead (ws : list Str.t) :
  Forall is_word_str ws -> no_lead (rev (Str.join (Dedup.lit " ") ws)).
Proof.
  intros Hws. induction Hws as [|w ws Hw Hws IH]; [exact I|].
  cbn [Str.join]. destruct ws as [|w' ws'].
  - apply word_no_lead, word_rev, Hw.
  - rewrite !rev_app_distr. rewrite <- app_assoc.
    apply no_lead_app; [|exact IH].
    intros H. apply (join_nonempty (w' :: ws') Hws); [discriminate|].
    rewrite <- (rev_involutive (Str.join _ _)), H. reflexivity.
Qed.

Lemma strip_join (ws : list Str.t) :
  Forall is_word_str ws ->
  Str.strip (Str.join (Dedup.lit " ") ws) = Str.join (Dedup.lit " ") ws.
Proof.
  intros Hws. unfold Str.strip, Str.rstrip.
  rewrite (lstrip_no_lead _ (join_no_lead ws Hws)).
  rewrite (lstrip_no_lead _ (join_rev_no_lead ws Hws)).
  apply rev_involutive.
Qed.

(** Collapsing white space twice is collapsing it once, and a collapsed
    text has nothing to strip. *)
Lemma collapse_spaces_idempotent (s : Str.t) :
  Dedup.collapse_spaces (Dedup.collapse_spaces s) = Dedup.collapse_spaces s.
Proof.
  unfold Dedup.collapse_spaces. rewrite split_join; [reflexivity|].
  apply split_words.
Qed.

Lemma strip_collapse_spaces (s : Str.t) :
  Str.strip (Dedup.collapse_spaces s) = Dedup.collapse_spaces s.
Proof. apply strip_join, split_words. Qed.

End WhitespaceCollapse.

(** ** The matcher on patterns without word boundaries *)

Section MatcherFacts.

Import Re Vocabulary.

Lemma star_loop_ext {A : Type}
    (body : mstate -> (mstate -> option A) -> option A)
    (k1 k2 : mstate -> option A) :
  (forall st j1 j2, (forall st', j1 st' = j2 st') -> body st j1 = body st j2) ->
  (forall st, k1 st = k2 st) ->
  forall n st, star_loop body k1 n st = star_loop body k2 n st.
Proof.
  intros Hbody Hk n. induction n as [|n IH]; intros st; cbn [star_loop];
    [apply Hk|].
  rewrite (Hbody st _ (fun st' =>
             if (length (rest st') <? length (rest st))%nat
             then star_loop body k2 n st' else None)).
  - rewrite Hk. reflexivity.
  - intros st'. destruct (_ <? _)%nat; [apply IH | reflexivity].
Qed.

Lemma run_ext {A : Type} (r : regex) :
  forall (st : mstate) (k1 k2 : mstate -> option A),
    (forall st', k1 st' = k2 st') -> run r st k1 = run r st k2.
Proof.
  induction r as [|p|r1 IH1 r2 IH2|r1 IH1 r2 IH2|r IH| |n r IH];
    intros st k1 k2 Hk; cbn [run].
  - apply Hk.
  - destruct (rest st); [reflexivity|]. destruct (p a); [apply Hk | reflexivity].
  - apply IH1. intros st'. by apply IH2.
  - rewrite (IH1 st k1 k2 Hk), (IH2 st k1 k2 Hk). reflexivity.
  - apply star_loop_ext; [|exact Hk]. intros st0 j1 j2 Hj. by apply IH.
  - destruct (at_boundary st); [apply Hk | reflexivity].
  - apply IH. intros st'. apply Hk.
Qed.

Lemma run_prev_blind {A : Type} (r : regex) :
  no_boundary r = true ->
  forall k : mstate -> option A,
    prev_blind k -> prev_blind (fun st => run r st k).
Proof.
  induction r as [|p|r1 IH1 r2 IH2|r1 IH1 r2 IH2|r IH| |n r IH];
    cbn [no_boundary]; intros Hnb k Hk pv1 pv2 s cs; cbn [run rest caps].
  - apply Hk.
  - reflexivity.
  - apply andb_true_iff in Hnb as [H1 H2].
    apply (IH1 H1 (fun st1 => run r2 st1 k)).
    exact (IH2 H2 k Hk).
  - apply andb_true_iff in Hnb as [H1 H2].
    rewrite (IH1 H1 k Hk pv1 pv2), (IH2 H2 k Hk pv1 pv2). reflexivity.
  - generalize (length s) as n. intros n. revert pv1 pv2 s cs.
    induction n as [|n IHn]; intros pv1 pv2 s cs; cbn [star_loop rest];
      [apply Hk|].
    rewrite (Hk pv1 pv2).
    set (K := fun st' : mstate =>
                if (length (rest st') <? length s)%nat
                then star_loop (run r) k n st' else None).
    assert (HK : prev_blind K).
    { intros q1 q2 s' cs'. unfold K. cbn [rest].
      destruct (_ <? _)%nat; [apply IHn | reflexivity]. }
    pose proof (IH Hnb K HK pv1 pv2 s cs) as E. cbn beta in E.
    rewrite E. reflexivity.
  - discriminate.
  - apply (IH Hnb). intros q1 q2 s' cs'. cbn. apply Hk.
Qed.

Lemma star_loop_cls {A : Type} (p : ascii -> bool) (k : mstate -> option A) :
  prev_blind k ->
  forall n s pv cs,
    (length s <= n)%nat ->
    star_loop (run (Cls p)) k n (MState pv s cs) = star_cls p k s cs.
Proof.
  intros Hk n. induction n as [|n IH]; intros s pv cs Hn.
  - destruct s; [|cbn in Hn; lia]. cbn. apply Hk.
  - cbn [star_loop run rest caps]. destruct s as [|c s']; cbn [star_cls].
    + apply Hk.
    + destruct (p c).
      * assert (Hlt : (length s' <? length (c :: s'))%nat = true)
          by (apply Nat.ltb_lt; cbn; lia).
        cbn [rest]. rewrite Hlt. rewrite IH by (cbn in Hn; lia).
        rewrite (Hk pv None). reflexivity.
      * apply Hk.
Qed.

Lemma run_star_cls {A : Type} (p : ascii -> bool) (k : mstate -> option A)
    (st : mstate) :
  prev_blind k ->
  run (Star (Cls p)) st k = star_cls p k (rest st) (caps st).
Proof.
  intros Hk. destruct st as [pv s cs]. cbn [run rest caps].
  by apply star_loop_cls.
Qed.

(** The repetition is greedy when the continuation accepts what is left
    after the longest run ... *)
Lemma star_cls_greedy {A : Type} (p : ascii -> bool) (k : mstate -> option A)
    (s : Str.t) (cs : list (nat * Str.t)) (x : A) :
  k (MState None (skip p s) cs) = Some x -> star_cls p k s cs = Some x.
Proof.
  induction s as [|c s IH]; cbn [star_cls skip]; [auto|].
  destruct (p c); [|auto]. intros H. rewrite (IH H). reflexivity.
Qed.

(** ... and also when the continuation rejects every text that starts
    with a character of the class. *)
Lemma star_cls_blocked {A : Type} (p : ascii -> bool) (k : mstate -> option A)
    (s : Str.t) (cs : list (nat * Str.t)) :
  (forall c s', p c = true -> k (MState None (c :: s') cs) = None) ->
  star_cls p k s cs = k (MState None (skip p s) cs).
Proof.
  intros Hblock. induction s as [|c s IH]; cbn [star_cls skip]; [reflexivity|].
  destruct (p c) eqn:Hc; [|reflexivity].
  rewrite IH. destruct (k (MState None (skip p s) cs)); [reflexivity|].
  by apply Hblock.
Qed.

Lemma run_LitCI {A : Type} (l : Str.t) (k : mstate -> option A) :
  prev_blind k ->
  forall pv s cs,
    run (LitCI l) (MState pv s cs) k
    = if starts_ci l s then k (MState None (drop (length l) s) cs) else None.
Proof.
  intros Hk. induction l as [|c l IH]; intros pv s cs.
  - cbn. apply Hk.
  - destruct l as [|c2 l'].
    + cbn. destruct s as [|y s']; [reflexivity|].
      rewrite andb_true_r. destruct (Char.eq_ci c y); [|reflexivity].
      apply Hk.
    + change (LitCI (c :: c2 :: l')) with (Seq (Cls (Char.eq_ci c)) (LitCI (c2 :: l'))).
      cbn [run rest caps]. destruct s as [|y s']; [reflexivity|].
      cbn [starts_ci]. destruct (Char.eq_ci c y); [|reflexivity].
      cbn [andb]. rewrite IH. reflexivity.
Qed.

End MatcherFacts.

(** ** The question-number pattern *)

Section QuestionNumber.

Import Re Vocabulary Dedup.

Lemma space_not_digit (c : ascii) :
  Char.is_space c = true -> Char.is_digit c = false.
Proof. each_char c; vm_compute; intros H; first [reflexivity | discriminate H]. Qed.

Lemma digit_not_space (c : ascii) :
  Char.is_digit c = true -> Char.is_space c = false.
Proof. each_char c; vm_compute; intros H; first [reflexivity | discriminate H]. Qed.

(** The part of the pattern after the optional word, under a
    continuation that accepts every state. *)
Lemma run_number_tail {A : Type} (k : mstate -> option A) :
  prev_blind k -> (forall st, k st <> None) ->
  forall st,
    run number_tail_re st k
    = match number_tail (rest st) with
      | Some rem => k (MState None rem (caps st))
      | None => None
      end.
Proof.
  intros Hk Htot st.
  set (K3 := fun st3 : mstate => run (Star (Cls Char.is_space)) st3 k).
  assert (HK3 : forall st3,
             K3 st3 = k (MState None (skip Char.is_space (rest st3)) (caps st3))).
  { intros st3. unfold K3. rewrite run_star_cls by exact Hk.
    destruct (k (MState None (skip Char.is_space (rest st3)) (caps st3))) eqn:E.
    - by apply star_cls_greedy.
    - exfalso. exact (Htot _ E). }
  set (after := after_mark).
  set (K2 := fun st2 : mstate => run (Opt (Cls (one_of ":).-"))) st2 K3).
  assert (HK2 : forall pv s2 cs,
             K2 (MState pv s2 cs)
             = k (MState None (skip Char.is_space (after s2)) cs)).
  { intros pv s2 cs. unfold K2, Opt, after, after_mark. cbn [run rest caps].
    destruct s2 as [|c' s3]; [rewrite HK3; reflexivity|].
    destruct (one_of ":).-" c').
    - rewrite HK3. cbn [rest caps].
      destruct (k (MState None (skip Char.is_space s3) cs)) eqn:E;
        [reflexivity | exfalso; exact (Htot _ E)].
    - rewrite HK3. reflexivity. }
  assert (HB2 : prev_blind K2).
  { intros pv1 pv2 s cs. rewrite !HK2. reflexivity. }
  set (K1 := fun st1 : mstate => run (Plus (Cls Char.is_digit)) st1 K2).
  assert (HK1 : forall pv s1 cs,
             K1 (MState pv s1 cs)
             = match s1 with
               | c :: s1' =>
                   if Char.is_digit c
                   then K2 (MState None (skip Char.is_digit s1') cs)
                   else None
               | [] => None
               end).
  { intros pv s1 cs. unfold K1, Plus.
    change (run (Seq (Cls Char.is_digit) (Star (Cls Char.is_digit)))
              (MState pv s1 cs) K2)
      with (match s1 with
            | c :: s1' =>
                if Char.is_digit c
                then run (Star (Cls Char.is_digit)) (MState (Some c) s1' cs) K2
                else None
            | [] => None
            end).
    destruct s1 as [|c s1']; [reflexivity|].
    destruct (Char.is_digit c); [|reflexivity].
    rewrite run_star_cls by exact HB2. cbn [rest caps].
    destruct (K2 (MState None (skip Char.is_digit s1') cs)) eqn:E.
    - by apply star_cls_greedy.
    - exfalso. rewrite HK2 in E. exact (Htot _ E). }
  assert (HB1 : prev_blind K1).
  { intros pv1 pv2 s cs. rewrite !HK1. reflexivity. }
  change (run number_tail_re st k) with (run (Star (Cls Char.is_space)) st K1).
  rewrite run_star_cls by exact HB1.
  rewrite star_cls_blocked.
  - rewrite HK1. unfold number_tail.
    destruct (skip Char.is_space (rest st)) as [|c s1]; [reflexivity|].
    destruct (Char.is_digit c); [|reflexivity].
    rewrite HK2. reflexivity.
  - intros c s' Hc. rewrite HK1, (space_not_digit c Hc). reflexivity.
Qed.

Lemma match_question_number (p : option ascii) (s : Str.t) :
  match_at question_number_re p s
  = match number_match s with
    | Some rem => Some (RMatch (take (length s - length rem) s) [])
    | None => None
    end.
Proof.
  unfold match_at.
  set (kf := fun st' : mstate =>
               Some (RMatch (take (length s - length (rest st')) s) (caps st'))).
  assert (Hkf : prev_blind kf) by (intros pv1 pv2 s' cs; reflexivity).
  assert (Htot : forall st, kf st <> None) by (intros st; discriminate).
  set (KR := fun st' : mstate => run number_tail_re st' kf).
  assert (HKR : prev_blind KR).
  { apply (run_prev_blind number_tail_re eq_refl kf Hkf). }
  change (run question_number_re (MState p s []) kf)
    with (match
            match run (LitCI (lit "question")) (MState p s []) KR with
            | Some x => Some x
            | None => run (LitCI (lit "q")) (MState p s []) KR
            end
          with
          | Some x => Some x
          | None => KR (MState p s [])
          end).
  rewrite !(run_LitCI _ KR HKR). unfold KR.
  rewrite !(run_number_tail kf Hkf Htot). cbn [rest caps].
  unfold number_match.
  change (length (lit "question")) with 8%nat.
  change (length (lit "q")) with 1%nat.
  destruct (starts_ci (lit "question") s);
    [destruct (number_tail (drop 8 s)); [reflexivity|]|];
    (destruct (starts_ci (lit "q") s);
     [destruct (number_tail (drop 1 s)); [reflexivity|]|]);
    destruct (number_tail s); reflexivity.
Qed.

End QuestionNumber.

(** ** The question-number stage *)

Section NumberStripping.

Import Re Vocabulary Dedup.

Lemma skip_suffix (p : ascii -> bool) (s : Str.t) : skip p s `suffix_of` s.
Proof.
  induction s as [|c s IH]; cbn [skip]; [reflexivity|].
  destruct (p c); [by apply suffix_cons_r | reflexivity].
Qed.

Lemma skip_app (p : ascii -> bool) (b x : Str.t) :
  skip p (b ++ x) = match skip p b with
                    | [] => skip p x
                    | r => r ++ x
                    end.
Proof.
  induction b as [|c b IH]; cbn [app skip]; [reflexivity|].
  destruct (p c); [exact IH | reflexivity].
Qed.

Lemma skip_nil_all (p : ascii -> bool) (s : Str.t) :
  skip p s = [] -> Forall (fun c => p c = true) s.
Proof.
  induction s as [|d s IH]; cbn [skip]; [constructor|].
  destruct (p d) eqn:Hd; [|discriminate]. intros H. constructor; auto.
Qed.

Lemma skip_all (p : ascii -> bool) (s : Str.t) :
  Forall (fun c => p c = true) s -> skip p s = [].
Proof.
  induction 1 as [|d s Hd _ IH]; cbn [skip]; [reflexivity|].
  rewrite Hd. exact IH.
Qed.

Lemma skip_stop (p : ascii -> bool) (c : ascii) (s : Str.t) :
  p c = false -> skip p (c :: s) = c :: s.
Proof. intros H. cbn [skip]. rewrite H. reflexivity. Qed.

Lemma after_mark_suffix (s : Str.t) : after_mark s `suffix_of` s.
Proof.
  destruct s as [|c s]; unfold after_mark; [reflexivity|].
  destruct (one_of ":).-" c); [by apply suffix_cons_r | reflexivity].
Qed.

Lemma number_tail_shorter (s rem : Str.t) :
  number_tail s = Some rem -> exists pre, s = pre ++ rem /\ pre <> [].
Proof.
  unfold number_tail. destruct (skip_suffix Char.is_space s) as [k0 Hk0].
  destruct (skip Char.is_space s) as [|c s1]; [discriminate|].
  destruct (Char.is_digit c); [|discriminate]. intros [= <-].
  assert (Hsuf : skip Char.is_space (after_mark (skip Char.is_digit s1))
                   `suffix_of` s1).
  { etrans; [apply skip_suffix|]. etrans; [apply after_mark_suffix|].
    apply skip_suffix. }
  destruct Hsuf as [k1 Hk1]. exists (k0 ++ c :: k1). split.
  - rewrite Hk0. rewrite Hk1 at 1. rewrite <- app_assoc. reflexivity.
  - intros H. apply app_eq_nil in H as [_ H]. discriminate H.
Qed.

Lemma number_match_shorter (s rem : Str.t) :
  number_match s = Some rem -> exists pre, s = pre ++ rem /\ pre <> [].
Proof.
  assert (Hdrop : forall n, number_tail (drop n s) = Some rem ->
                            exists pre, s = pre ++ rem /\ pre <> []).
  { intros n H. apply number_tail_shorter in H as (pre & Hpre & Hne).
    exists (take n s ++ pre). split.
    - rewrite <- app_assoc, <- Hpre. symmetry. apply take_drop.
    - intros E. apply app_eq_nil in E as [_ E]. contradiction. }
  unfold number_match.
  destruct (starts_ci (lit "question") s);
    [destruct (number_tail (drop 8 s)) eqn:E8;
       [intros [= <-]; exact (Hdrop 8%nat E8)|]|];
    (destruct (starts_ci (lit "q") s);
     [destruct (number_tail (drop 1 s)) eqn:E1;
        [intros [= <-]; exact (Hdrop 1%nat E1)|]|]);
    apply number_tail_shorter.
Qed.

Lemma number_match_tail (s : Str.t) :
  number_match s = None -> number_tail s = None.
Proof.
  unfold number_match.
  destruct (starts_ci (lit "question") s);
    [destruct (number_tail (drop 8 s)); [discriminate|]|];
    (destruct (starts_ci (lit "q") s);
     [destruct (number_tail (drop 1 s)); [discriminate|]|]);
    auto.
Qed.

(** The scan does not depend on the previous character, and passing
    over [n] characters is dropping them. *)
Lemma scan_question_number_prev (s : Str.t) :
  forall p1 p2 n,
    scan question_number_re p1 n s = scan question_number_re p2 n s.
Proof.
  induction s as [|c s IH]; intros p1 p2 n; cbn [scan]; [reflexivity|].
  destruct n; [|apply IH].
  rewrite !match_question_number. reflexivity.
Qed.

Lemma scan_question_number_skip (s : Str.t) :
  forall p n,
    scan question_number_re p n s
    = scan question_number_re None 0 (drop n s).
Proof.
  induction s as [|c s IH]; intros p n; cbn [scan].
  - rewrite drop_nil. reflexivity.
  - destruct n; [|cbn [drop]; apply IH].
    cbn [drop]. apply (scan_question_number_prev (c :: s) p None 0).
Qed.

Lemma strip_numbers_nil : strip_numbers [] = [].
Proof. reflexivity. Qed.

Lemma strip_numbers_cons (c : ascii) (s : Str.t) :
  strip_numbers (c :: s)
  = match number_match (c :: s) with
    | Some rem => " "%char :: strip_numbers rem
    | None => c :: strip_numbers s
    end.
Proof.
  unfold strip_numbers, sub. cbn [scan].
  rewrite match_question_number.
  destruct (number_match (c :: s)) as [rem|] eqn:E.
  - apply number_match_shorter in E as (pre & Hpre & Hne).
    destruct pre as [|c' pre]; [contradiction|].
    injection Hpre as <- ->. cbn [whole].
    change (c :: pre ++ rem) with ((c :: pre) ++ rem).
    replace (length ((c :: pre) ++ rem) - length rem)%nat
      with (length (c :: pre)) by (rewrite length_app; lia).
    rewrite (take_app_length (c :: pre) rem). cbn [length].
    rewrite scan_question_number_skip, drop_app_length. reflexivity.
  - cbn [flat_map app].
    rewrite (scan_question_number_prev s (Some c) None 0). reflexivity.
Qed.

(** Induction on a text along the steps of the stage. *)
Lemma strip_numbers_ind (Q : Str.t -> Prop) :
  Q [] ->
  (forall c s rem, number_match (c :: s) = Some rem -> Q rem -> Q (c :: s)) ->
  (forall c s, number_match (c :: s) = None -> Q s -> Q (c :: s)) ->
  forall s, Q s.
Proof.
  intros Hnil Hmatch Hchar s.
  remember (length s) as n eqn:Hn. revert s Hn.
  induction n as [n IH] using lt_wf_ind. intros s ->.
  destruct s as [|c s]; [exact Hnil|].
  destruct (number_match (c :: s)) as [rem|] eqn:E.
  - apply (Hmatch c s rem E).
    apply number_match_shorter in E as (pre & Hpre & Hne).
    apply (IH (length rem)); [|reflexivity].
    rewrite Hpre, length_app. destruct pre; [contradiction | cbn; lia].
  - apply (Hchar c s E). apply (IH (length s)); [cbn; lia | reflexivity].
Qed.

(** No digit is left by the stage. *)
Lemma strip_numbers_no_digit (s : Str.t) :
  Forall (fun c => Char.is_digit c = false) (strip_numbers s).
Proof.
  induction s as [|c s rem E IH|c s E IH] using strip_numbers_ind.
  - constructor.
  - rewrite strip_numbers_cons, E. constructor; [reflexivity | exact IH].
  - rewrite strip_numbers_cons, E. constructor; [|exact IH].
    apply number_match_tail in E. unfold number_tail in E.
    destruct (Char.is_digit c) eqn:Hd; [|reflexivity].
    rewrite (skip_stop _ _ _ (digit_not_space c Hd)), Hd in E. discriminate E.
Qed.

(** A text without digits is left as it is. *)
Lemma number_tail_digit (s rem : Str.t) :
  number_tail s = Some rem -> Exists (fun c => Char.is_digit c = true) s.
Proof.
  unfold number_tail. destruct (skip_suffix Char.is_space s) as [k Hk].
  destruct (skip Char.is_space s) as [|c s1]; [discriminate|].
  destruct (Char.is_digit c) eqn:Hd; [|discriminate]. intros _.
  rewrite Hk. apply Exists_app. right. by constructor.
Qed.

Lemma number_match_digit (s rem : Str.t) :
  number_match s = Some rem -> Exists (fun c => Char.is_digit c = true) s.
Proof.
  assert (Hdrop : forall n r, number_tail (drop n s) = Some r ->
                              Exists (fun c => Char.is_digit c = true) s).
  { intros n r H. apply number_tail_digit in H.
    rewrite <- (take_drop n s). apply Exists_app. by right. }
  unfold number_match.
  destruct (starts_ci (lit "question") s);
    [destruct (number_tail (drop 8 s)) eqn:E8;
       [intros _; exact (Hdrop 8%nat _ E8)|]|];
    (destruct (starts_ci (lit "q") s);
     [destruct (number_tail (drop 1 s)) eqn:E1;
        [intros _; exact (Hdrop 1%nat _ E1)|]|]);
    apply number_tail_digit.
Qed.

Lemma strip_numbers_fixed (s : Str.t) :
  Forall (fun c => Char.is_digit c = false) s -> strip_numbers s = s.
Proof.
  induction s as [|c s IH]; intros Hs; [reflexivity|].
  rewrite strip_numbers_cons.
  destruct (number_match (c :: s)) as [rem|] eqn:E.
  - exfalso. apply number_match_digit in E.
    apply Exists_exists in E as (d & Hin & Hd).
    rewrite Forall_forall in Hs. rewrite (Hs d Hin) in Hd. discriminate Hd.
  - f_equal. apply IH. exact (Forall_inv_tail Hs).
Qed.

End NumberStripping.

(** ** Two texts that the question-number stage cannot tell apart

    [u ++ X1] and [u ++ X2] are treated alike by the stage when the two
    endings [X1] and [X2] are treated alike at each point where a match
    that started in [u] can run into them. *)

Section TailSynchrony.

Import Re Vocabulary Dedup.

Variables X1 X2 : Str.t.
Variable okA : Str.t -> Prop.

Hypothesis okA_suffix : forall a a', a' `suffix_of` a -> okA a -> okA a'.
Hypothesis tails_agree : number_tail X1 = number_tail X2.
Hypothesis tails_match : number_tail X1 <> None.
Hypothesis digits_agree :
  forall a, okA a -> ends_with_digit a -> digits_tail X1 = digits_tail X2.
Hypothesis spaces_agree :
  skip Char.is_space X1 = skip Char.is_space X2
  \/ (skip Char.is_space X1 = X1 /\ skip Char.is_space X2 = X2).
Hypothesis heads_blank :
  forall X, X = X1 \/ X = X2 ->
            exists h X', X = h :: X'
                         /\ Char.is_space h || Char.is_digit h = true.

Lemma sync_suffix (a b : Str.t) (o1 o2 : option Str.t) :
  b `suffix_of` a -> sync X1 X2 b o1 o2 -> sync X1 X2 a o1 o2.
Proof.
  intros Hb [H|[H|(a' & Ha' & H)]]; [by left | by right; left|].
  right; right. exists a'. split; [by etrans | exact H].
Qed.

Lemma after_mark_app (c : ascii) (b x : Str.t) :
  after_mark ((c :: b) ++ x) = after_mark (c :: b) ++ x.
Proof. unfold after_mark. cbn [app]. destruct (one_of ":).-" c); reflexivity. Qed.

Lemma all_digits_end (k : Str.t) (c : ascii) (b : Str.t) :
  Char.is_digit c = true -> Forall (fun d => Char.is_digit d = true) b ->
  ends_with_digit (k ++ c :: b).
Proof.
  intros Hc Hb.
  destruct (exists_last (l := c :: b) ltac:(discriminate)) as (l' & z & E).
  exists (k ++ l'), z. split; [rewrite E, app_assoc; reflexivity|].
  assert (Hz : z ∈ c :: b) by (rewrite E; apply elem_of_app; right; constructor).
  apply elem_of_cons in Hz as [->|Hz]; [exact Hc|].
  rewrite Forall_forall in Hb. by apply Hb.
Qed.

Lemma tail_sync (a : Str.t) :
  okA a -> sync X1 X2 a (number_tail (a ++ X1)) (number_tail (a ++ X2)).
Proof.
  intros Ha. unfold number_tail at 1 2. rewrite !skip_app.
  destruct (skip_suffix Char.is_space a) as [k0 Hk0].
  destruct (skip Char.is_space a) as [|c b] eqn:Ea.
  - change (sync X1 X2 a (number_tail X1) (number_tail X2)).
    rewrite tails_agree. destruct (number_tail X2) as [r|];
      [right; left; eauto | left; auto].
  - cbn [app]. destruct (Char.is_digit c) eqn:Hd; [|left; auto].
    rewrite !skip_app.
    destruct (skip_suffix Char.is_digit b) as [k1 Hk1].
    destruct (skip Char.is_digit b) as [|c2 b2] eqn:Eb.
    + right; left. exists (digits_tail X2). split; [|reflexivity].
      f_equal. apply (digits_agree a Ha). rewrite Hk0.
      apply all_digits_end; [exact Hd | by apply skip_nil_all].
    + rewrite !after_mark_app, !skip_app.
      assert (Hsuf : skip Char.is_space (after_mark (c2 :: b2)) `suffix_of` a).
      { etrans; [apply skip_suffix|]. etrans; [apply after_mark_suffix|].
        rewrite Hk0. etrans; [exists k1; exact Hk1|].
        apply suffix_app_r, suffix_cons_r. reflexivity. }
      destruct (skip Char.is_space (after_mark (c2 :: b2))) as [|c3 b3].
      * destruct spaces_agree as [E|[E1 E2]].
        -- right; left. rewrite E. eauto.
        -- right; right. exists []. rewrite E1, E2.
           split; [apply suffix_nil | split; reflexivity].
      * right; right. exists (c3 :: b3). auto.
Qed.

Lemma starts_ci_app (l u : Str.t) (h : ascii) (x : Str.t) :
  Forall (fun c => Char.eq_ci c h = false) l ->
  starts_ci l (u ++ h :: x) = starts_ci l u.
Proof.
  intros Hl. revert u. induction Hl as [|c l Hc _ IH]; intros u;
    [reflexivity|].
  destruct u as [|y u]; cbn [app starts_ci].
  - rewrite Hc. reflexivity.
  - rewrite IH. reflexivity.
Qed.

Lemma starts_ci_length (l u : Str.t) :
  starts_ci l u = true -> (length l <= length u)%nat.
Proof.
  revert u. induction l as [|c l IH]; intros u; cbn; [lia|].
  destruct u as [|y u]; [discriminate|].
  intros H. apply andb_true_iff in H as [_ H]. apply IH in H. cbn. lia.
Qed.

Lemma blank_not_letter_bool (h : ascii) :
  Char.is_space h || Char.is_digit h = true ->
  forallb (fun c => negb (Char.eq_ci c h)) (lit "question") = true.
Proof.
  each_char h; vm_compute; intros H; first [reflexivity | discriminate H].
Qed.

Lemma blank_not_letter (h : ascii) :
  Char.is_space h || Char.is_digit h = true ->
  Forall (fun c => Char.eq_ci c h = false) (lit "question").
Proof.
  intros H. apply blank_not_letter_bool in H.
  rewrite forallb_forall in H. apply Forall_forall. intros c Hc.
  apply list_elem_of_In in Hc. apply negb_true_iff. by apply H.
Qed.

Lemma match_sync (u : Str.t) :
  okA u -> sync X1 X2 u (number_match (u ++ X1)) (number_match (u ++ X2)).
Proof.
  intros Hu.
  destruct (heads_blank X1 (or_introl eq_refl)) as (h1 & Y1 & E1 & Hh1).
  destruct (heads_blank X2 (or_intror eq_refl)) as (h2 & Y2 & E2 & Hh2).
  assert (Hq : forall l,
             l = lit "question" \/ l = lit "q" ->
             starts_ci l (u ++ X1) = starts_ci l u
             /\ starts_ci l (u ++ X2) = starts_ci l u).
  { intros l Hl. rewrite E1, E2. split; apply starts_ci_app.
    - destruct Hl as [->| ->]; [exact (blank_not_letter h1 Hh1)|].
      constructor; [exact (Forall_inv (blank_not_letter h1 Hh1)) | constructor].
    - destruct Hl as [->| ->]; [exact (blank_not_letter h2 Hh2)|].
      constructor; [exact (Forall_inv (blank_not_letter h2 Hh2)) | constructor]. }
  assert (Hdrop : forall l n,
             n = length l -> starts_ci l u = true ->
             sync X1 X2 u (number_tail (drop n (u ++ X1)))
                    (number_tail (drop n (u ++ X2)))).
  { intros l n -> Hl. apply starts_ci_length in Hl.
    rewrite !drop_app_le by exact Hl.
    apply (sync_suffix u (drop (length l) u)); [apply suffix_drop|].
    apply tail_sync. eapply okA_suffix; [apply suffix_drop | exact Hu]. }
  unfold number_match.
  destruct (Hq (lit "question") (or_introl eq_refl)) as [-> ->].
  destruct (Hq (lit "q") (or_intror eq_refl)) as [-> ->].
  pose proof (tail_sync u Hu) as H0.
  destruct (starts_ci (lit "question") u) eqn:E8.
  - destruct (Hdrop (lit "question") 8%nat eq_refl E8)
      as [[-> ->]|[(r & -> & ->)|(a' & Ha' & -> & ->)]].
    + destruct (starts_ci (lit "q") u) eqn:Eq; [|exact H0].
      destruct (Hdrop (lit "q") 1%nat eq_refl Eq)
        as [[-> ->]|[(r & -> & ->)|(a' & Ha' & -> & ->)]];
        [exact H0 | right; left; eauto | right; right; eauto].
    + right; left; eauto.
    + right; right; eauto.
  - destruct (starts_ci (lit "q") u) eqn:Eq; [|exact H0].
    destruct (Hdrop (lit "q") 1%nat eq_refl Eq)
      as [[-> ->]|[(r & -> & ->)|(a' & Ha' & -> & ->)]];
      [exact H0 | right; left; eauto | right; right; eauto].
Qed.

Lemma strip_sync (u : Str.t) :
  okA u -> strip_numbers (u ++ X1) = strip_numbers (u ++ X2).
Proof.
  remember (length u) as n eqn:Hn. revert u Hn.
  induction n as [n IH] using lt_wf_ind. intros u -> Hu.
  pose proof (match_sync u Hu) as Hs.
  destruct (heads_blank X1 (or_introl eq_refl)) as (h1 & Y1 & E1 & _).
  destruct (heads_blank X2 (or_intror eq_refl)) as (h2 & Y2 & E2 & _).
  assert (Hcons : forall X h Y, X = h :: Y ->
             exists c s, u ++ X = c :: s
                         /\ (u = [] -> c = h /\ s = Y)
                         /\ (forall c' u', u = c' :: u' -> c = c' /\ s = u' ++ X)).
  { intros X h Y ->. destruct u as [|c' u'].
    - exists h, Y. split; [reflexivity|]. split; [auto | discriminate].
    - exists c', (u' ++ h :: Y). split; [reflexivity|].
      split; [discriminate|]. intros c2 u2 [= <- <-]. auto. }
  destruct (Hcons X1 h1 Y1 E1) as (c1 & s1 & Ec1 & Hnil1 & Hcs1).
  destruct (Hcons X2 h2 Y2 E2) as (c2 & s2 & Ec2 & Hnil2 & Hcs2).
  rewrite Ec1, Ec2, !strip_numbers_cons. rewrite <- Ec1, <- Ec2.
  destruct Hs as [[N1 N2]|[(r & -> & ->)|(a' & Ha' & H1 & H2)]].
  - rewrite N1, N2. destruct u as [|c' u'].
    + exfalso. apply tails_match. apply number_match_tail. exact N1.
    + destruct (Hcs1 c' u' eq_refl) as [-> ->].
      destruct (Hcs2 c' u' eq_refl) as [-> ->]. f_equal.
      apply (IH (length u')); [cbn; lia | reflexivity|].
      eapply okA_suffix; [|exact Hu]. apply suffix_cons_r. reflexivity.
  - reflexivity.
  - rewrite H1, H2. f_equal.
    apply number_match_shorter in H1 as (pre & Hpre & Hne).
    apply (IH (length a')); [|reflexivity | by eapply okA_suffix].
    apply (f_equal length) in Hpre. rewrite !length_app in Hpre.
    destruct pre; [contradiction | cbn in Hpre; lia].
Qed.

End TailSynchrony.

(** ** Digits and white space before digits *)

Section DigitRuns.

Import Re Vocabulary Dedup.

Lemma forallb_Forall (p : ascii -> bool) (s : Str.t) :
  forallb p s = true <-> Forall (fun c => p c = true) s.
Proof.
  induction s as [|c s IH]; cbn; [split; [constructor | reflexivity]|].
  rewrite andb_true_iff, IH. split.
  - intros [H1 H2]. by constructor.
  - intros H. split; [exact (Forall_inv H) | exact (Forall_inv_tail H)].
Qed.

Lemma number_tail_digits (c : ascii) (d v : Str.t) :
  Char.is_digit c = true -> Forall (fun x => Char.is_digit x = true) d ->
  number_tail (c :: d ++ v) = Some (digits_tail v).
Proof.
  intros Hc Hd. unfold number_tail.
  rewrite (skip_stop _ _ _ (digit_not_space c Hc)), Hc.
  rewrite skip_app, (skip_all _ _ Hd). reflexivity.
Qed.

Lemma digits_tail_digits (d v : Str.t) :
  Forall (fun x => Char.is_digit x = true) d ->
  digits_tail (d ++ v) = digits_tail v.
Proof.
  intros Hd. unfold digits_tail. rewrite skip_app, (skip_all _ _ Hd).
  reflexivity.
Qed.

(** Replacing a run of digits by another one. *)
Lemma strip_numbers_digits (u d1 d2 v : Str.t) :
  all_digits d1 = true -> nonempty d1 = true ->
  all_digits d2 = true -> nonempty d2 = true ->
  strip_numbers (u ++ d1 ++ v) = strip_numbers (u ++ d2 ++ v).
Proof.
  intros H1 N1 H2 N2.
  apply forallb_Forall in H1. apply forallb_Forall in H2.
  destruct d1 as [|c1 d1]; [discriminate|].
  destruct d2 as [|c2 d2]; [discriminate|].
  pose proof (Forall_inv H1) as Hc1. pose proof (Forall_inv_tail H1) as Hd1.
  pose proof (Forall_inv H2) as Hc2. pose proof (Forall_inv_tail H2) as Hd2.
  cbn beta in Hc1, Hc2.
  apply (strip_sync _ _ (fun _ => True)); [| | | | | |exact I].
  - auto.
  - cbn [app]. rewrite !number_tail_digits by assumption. reflexivity.
  - cbn [app]. rewrite number_tail_digits by assumption. discriminate.
  - intros _ _ _. rewrite !digits_tail_digits by assumption. reflexivity.
  - right. cbn [app].
    rewrite !skip_stop by (by apply digit_not_space). auto.
  - intros X [->| ->]; cbn [app]; eexists _, _; (split; [reflexivity|]).
    + rewrite Hc1. apply orb_true_r.
    + rewrite Hc2. apply orb_true_r.
Qed.

Lemma ends_with_digit_suffix (a a' : Str.t) :
  a' `suffix_of` a -> ends_with_digit a' -> ends_with_digit a.
Proof.
  intros [k ->] (k' & c & -> & Hc). exists (k ++ k'), c.
  split; [apply app_assoc | exact Hc].
Qed.

(** White space put in front of a digit, after a text that does not end
    with a digit. *)
Lemma strip_numbers_spaces (u ws v : Str.t) (c : ascii) :
  ~ ends_with_digit u -> all_spaces ws = true -> Char.is_digit c = true ->
  strip_numbers (u ++ ws ++ c :: v) = strip_numbers (u ++ c :: v).
Proof.
  intros Hu Hws Hc. apply forallb_Forall in Hws.
  destruct ws as [|w ws]; [reflexivity|].
  pose proof (Forall_inv Hws) as Hw. cbn beta in Hw.
  assert (Htail : number_tail (c :: v) = Some (digits_tail v)).
  { apply (number_tail_digits c [] v Hc). constructor. }
  apply (strip_sync _ _ (fun a => ~ ends_with_digit a)); [| | | | | |exact Hu].
  - intros a a' Hsuf Ha Ha'. apply Ha. by eapply ends_with_digit_suffix.
  - unfold number_tail at 1. rewrite skip_app, (skip_all _ _ Hws).
    reflexivity.
  - unfold number_tail at 1. rewrite skip_app, (skip_all _ _ Hws).
    fold (number_tail (c :: v)). rewrite Htail. discriminate.
  - intros a Ha Ha'. contradiction.
  - left. rewrite skip_app, (skip_all _ _ Hws). reflexivity.
  - intros X [->| ->]; cbn [app]; eexists _, _; (split; [reflexivity|]).
    + rewrite Hw. reflexivity.
    + rewrite Hc. apply orb_true_r.
Qed.

End DigitRuns.

(** ** Fingerprints of texts that differ in a number *)

Section FingerprintNumbers.

Import Re Vocabulary Dedup.

Lemma lower_digit (c : ascii) : Char.is_digit (Char.lower c) = Char.is_digit c.
Proof. each_char c; reflexivity. Qed.

Lemma lower_digit_fixed (c : ascii) :
  Char.is_digit c = true -> Char.lower c = c.
Proof. each_char c; vm_compute; intros H; first [reflexivity | discriminate H]. Qed.

Lemma lower_space_fixed (c : ascii) :
  Char.is_space c = true -> Char.lower c = c.
Proof. each_char c; vm_compute; intros H; first [reflexivity | discriminate H]. Qed.

Lemma lower_idempotent (c : ascii) : Char.lower (Char.lower c) = Char.lower c.
Proof. each_char c; reflexivity. Qed.

Lemma lower_not_capital (c : ascii) : Char.is_AZ (Char.lower c) = false.
Proof. each_char c; reflexivity. Qed.

Lemma letter_not_digit (c : ascii) :
  Char.is_AZ c || Char.is_az c = true -> Char.is_digit c = false.
Proof. each_char c; vm_compute; intros H; first [reflexivity | discriminate H]. Qed.

Lemma lower_fixed_all (p : ascii -> bool) (s : Str.t) :
  (forall c, p c = true -> Char.lower c = c) ->
  forallb p s = true -> Str.lower s = s.
Proof.
  intros Hp Hs. apply forallb_Forall in Hs. unfold Str.lower.
  induction Hs as [|c s Hc _ IH]; cbn; [reflexivity|].
  rewrite (Hp c Hc), IH. reflexivity.
Qed.

Lemma of_string_app (a b : string) :
  Str.of_string (a +:+ b) = Str.of_string a ++ Str.of_string b.
Proof.
  unfold Str.of_string. induction a as [|c a IH]; [reflexivity|].
  change (String c a +:+ b) with (String c (a +:+ b)).
  change (String.list_ascii_of_string (String c (a +:+ b)))
    with (c :: String.list_ascii_of_string (a +:+ b)).
  rewrite IH. reflexivity.
Qed.

Lemma of_to_string (l : Str.t) : Str.of_string (Str.to_string l) = l.
Proof. apply String.list_ascii_of_string_of_list_ascii. Qed.

Lemma fingerprint_stages (text : Str.t) :
  fingerprint text = finish (strip_numbers (Str.lower text)).
Proof. reflexivity. Qed.

Lemma ends_with_digit_last (k : Str.t) (z : ascii) :
  ends_with_digit (k ++ [z]) -> Char.is_digit z = true.
Proof.
  intros (k' & c & E & Hc). apply app_inj_tail in E as [_ ->]. exact Hc.
Qed.

Lemma symbol_not_digit_end (k sym : Str.t) :
  is_symbol sym = true -> ~ ends_with_digit (Str.lower (k ++ sym)).
Proof.
  intros Hsym Hend. unfold Str.lower in Hend. rewrite map_app in Hend.
  destruct sym as [|c [|l [|x sym]]]; try discriminate Hsym; cbn in Hsym, Hend.
  - apply ends_with_digit_last in Hend. rewrite lower_digit in Hend.
    rewrite letter_not_digit in Hend by (rewrite Hsym; reflexivity).
    discriminate Hend.
  - apply andb_true_iff in Hsym as [_ Hl].
    change (map Char.lower k ++ [Char.lower c; Char.lower l])
      with (map Char.lower k ++ [Char.lower c] ++ [Char.lower l]) in Hend.
    rewrite app_assoc in Hend.
    apply ends_with_digit_last in Hend. rewrite lower_digit in Hend.
    rewrite letter_not_digit in Hend by (rewrite Hl; apply orb_true_r).
    discriminate Hend.
Qed.

(** White space between a text that does not end with a digit and a
    number does not show in the fingerprint. *)
Lemma fingerprint_spaced (u ws d v : Str.t) :
  ~ ends_with_digit (Str.lower u) ->
  all_spaces ws = true -> all_digits d = true -> nonempty d = true ->
  fingerprint (u ++ ws ++ d ++ v) = fingerprint (u ++ d ++ v).
Proof.
  intros Hu Hws Hd Hne. rewrite !fingerprint_stages. f_equal.
  unfold Str.lower. rewrite !map_app.
  fold (Str.lower u) (Str.lower ws) (Str.lower d) (Str.lower v).
  rewrite (lower_fixed_all _ ws lower_space_fixed Hws).
  rewrite (lower_fixed_all _ d lower_digit_fixed Hd).
  destruct d as [|c d]; [discriminate|]. cbn [app].
  apply strip_numbers_spaces; [exact Hu | exact Hws|].
  cbn in Hd. apply andb_true_iff in Hd as [Hc _]. exact Hc.
Qed.

(** One run of digits in place of another does not show in the
    fingerprint. *)
Lemma fingerprint_digits (u d1 d2 v : Str.t) :
  all_digits d1 = true -> nonempty d1 = true ->
  all_digits d2 = true -> nonempty d2 = true ->
  fingerprint (u ++ d1 ++ v) = fingerprint (u ++ d2 ++ v).
Proof.
  intros H1 N1 H2 N2. rewrite !fingerprint_stages. f_equal.
  unfold Str.lower. rewrite !map_app.
  fold (Str.lower u) (Str.lower d1) (Str.lower d2) (Str.lower v).
  rewrite (lower_fixed_all _ d1 lower_digit_fixed H1).
  rewrite (lower_fixed_all _ d2 lower_digit_fixed H2).
  by apply strip_numbers_digits.
Qed.

(** In any context, "Fe 2" and "Fe2" have the same fingerprint; and so
    have, for any element symbol (a capital letter, or a capital and a
    small letter), white space and number, the symbol followed by the
    white space and the number, and the symbol followed by the number:
    the question-number stage removes the number together with the white
    space before it. *)
Lemma fingerprint_spaced_number :
  (forall pre post : string,
     _extract_question_fingerprint (pre +:+ "Fe 2" +:+ post)
     = _extract_question_fingerprint (pre +:+ "Fe2" +:+ post))
  /\ (forall pre sym ws digits post : string,
        is_symbol (Str.of_string sym) = true ->
        all_spaces (Str.of_string ws) = true ->
        all_digits (Str.of_string digits) = true ->
        nonempty (Str.of_string digits) = true ->
        _extract_question_fingerprint
          (pre +:+ sym +:+ ws +:+ digits +:+ post)
        = _extract_question_fingerprint (pre +:+ sym +:+ digits +:+ post)).
Proof.
  assert (Hgen : forall pre sym ws digits post : string,
             is_symbol (Str.of_string sym) = true ->
             all_spaces (Str.of_string ws) = true ->
             all_digits (Str.of_string digits) = true ->
             nonempty (Str.of_string digits) = true ->
             _extract_question_fingerprint
               (pre +:+ sym +:+ ws +:+ digits +:+ post)
             = _extract_question_fingerprint
                 (pre +:+ sym +:+ digits +:+ post)).
  { intros pre sym ws digits post Hsym Hws Hd Hne.
    unfold _extract_question_fingerprint. f_equal.
    rewrite !of_string_app.
    rewrite (app_assoc (Str.of_string pre) (Str.of_string sym)).
    rewrite (app_assoc (Str.of_string pre) (Str.of_string sym)
               (Str.of_string digits ++ _)).
    apply fingerprint_spaced; [|assumption..].
    by apply symbol_not_digit_end. }
  split; [|exact Hgen].
  intros pre post.
  exact (Hgen pre "Fe"%string " "%string "2"%string post
           eq_refl eq_refl eq_refl eq_refl).
Qed.

End FingerprintNumbers.

(** ** The stages keep to the characters they are given *)

Section StagesKeep.

Import Re Vocabulary Dedup.

Variable P : ascii -> Prop.
Hypothesis P_space : P " "%char.
Hypothesis P_paren : P ")"%char.

Lemma strip_numbers_ok (s : Str.t) : Forall P s -> Forall P (strip_numbers s).
Proof.
  apply sub_ok. intros m _. repeat constructor. exact P_space.
Qed.

Lemma second_char_paren_ok (m : rmatch) :
  match_ok P m -> Forall P (second_char_paren m).
Proof.
  intros [Hw _]. unfold second_char_paren. apply Forall_app. split.
  - by apply Forall_take, Forall_drop.
  - repeat constructor. exact P_paren.
Qed.

Lemma group1_paren_space_ok (m : rmatch) :
  match_ok P m -> Forall P (group1_paren_space m).
Proof.
  intros Hm. unfold group1_paren_space. apply Forall_app. split.
  - by apply group_ok.
  - repeat constructor; assumption.
Qed.

Lemma normalize_answer_choices_ok (s : Str.t) :
  Forall P s -> Forall P (_normalize_answer_choices s).
Proof.
  intros Hs. unfold _normalize_answer_choices.
  apply sub_ok; [apply group1_paren_space_ok|].
  apply sub_ok; [apply group1_paren_space_ok|].
  apply sub_ok; [apply second_char_paren_ok|].
  apply sub_ok; [apply second_char_paren_ok | exact Hs].
Qed.

Lemma collapse_spaces_ok (s : Str.t) :
  Forall P s -> Forall P (collapse_spaces s).
Proof.
  intros Hs. unfold collapse_spaces. apply join_ok.
  - repeat constructor. exact P_space.
  - by apply split_ok.
Qed.

Lemma remove_fillers_ok (s : Str.t) :
  Forall P s -> Forall P (remove_fillers s).
Proof.
  unfold remove_fillers. generalize fillers as l. intros l. revert s.
  induction l as [|f l IH]; intros s Hs; cbn [fold_left]; [exact Hs|].
  apply IH. apply replace_ok; [|exact Hs]. repeat constructor. exact P_space.
Qed.

Lemma close_formulas_ok (s : Str.t) :
  Forall P s -> Forall P (close_formulas s).
Proof.
  apply sub_ok. intros m Hm. apply Forall_app. split; by apply group_ok.
Qed.

Lemma strip_punctuation_ok (s : Str.t) :
  Forall P s -> Forall P (strip_punctuation s).
Proof. apply sub_ok. intros m _. constructor. Qed.

Lemma finish_ok (s : Str.t) : Forall P s -> Forall P (finish s).
Proof.
  intros Hs. unfold finish.
  apply strip_ok, collapse_spaces_ok.
  apply (strip_punctuation_ok _), (close_formulas_ok _).
  apply remove_fillers_ok, collapse_spaces_ok, normalize_answer_choices_ok.
  exact Hs.
Qed.

End StagesKeep.

(** ** Stages that leave a text as it is *)

Section StagesFixed.

Import Re Vocabulary Dedup.

(** A pattern that cannot start at any character of a text finds no
    match in it. *)
Lemma sub_no_match (r : regex) (repl : rmatch -> Str.t) (P : ascii -> Prop)
    (s : Str.t) :
  (forall pv c s', P c -> match_at r pv (c :: s') = None) ->
  Forall P s -> sub r repl s = s.
Proof.
  intros Hnone Hs. unfold sub. generalize (@None ascii) as pv.
  induction Hs as [|c s Hc _ IH]; intros pv; cbn [scan flat_map];
    [reflexivity|].
  rewrite (Hnone pv c s Hc). cbn [flat_map app]. f_equal. apply IH.
Qed.

Lemma close_formulas_fixed (s : Str.t) :
  Forall (fun c => Char.is_AZ c = false) s -> close_formulas s = s.
Proof.
  apply sub_no_match. intros pv c s' Hc.
  unfold match_at, spaced_formula_re. cbn [run rest]. rewrite Hc.
  reflexivity.
Qed.

Lemma match_at_cls (p : ascii -> bool) (pv : option ascii) (c : ascii)
    (s : Str.t) :
  match_at (Cls p) pv (c :: s)
  = if p c then Some (RMatch [c] []) else None.
Proof.
  unfold match_at. cbn [run rest caps]. destruct (p c); [|reflexivity].
  replace (length (c :: s) - length s)%nat with 1%nat by (cbn; lia).
  reflexivity.
Qed.

(** The punctuation stage is a filter. *)
Lemma strip_punctuation_filter (s : Str.t) :
  strip_punctuation s = List.filter kept_char s.
Proof.
  unfold strip_punctuation, sub, punctuation_re.
  generalize (@None ascii) as pv.
  induction s as [|c s IH]; intros pv; cbn [scan List.filter]; [reflexivity|].
  rewrite match_at_cls. fold (kept_char c).
  destruct (kept_char c); cbn [negb whole length flat_map app].
  - f_equal. apply IH.
  - apply IH.
Qed.

Lemma strip_punctuation_kept (s : Str.t) :
  Forall (fun c => kept_char c = true) (strip_punctuation s).
Proof.
  rewrite strip_punctuation_filter. apply Forall_forall. intros c Hc.
  apply elem_of_filter_bool in Hc as [_ Hc]. exact Hc.
Qed.

Lemma strip_punctuation_fixed (s : Str.t) :
  Forall (fun c => kept_char c = true) s -> strip_punctuation s = s.
Proof.
  rewrite strip_punctuation_filter.
  induction 1 as [|c s Hc _ IH]; cbn [List.filter]; [reflexivity|].
  rewrite Hc, IH. reflexivity.
Qed.

End StagesFixed.

(** ** What every fingerprint looks like *)

Section FingerprintShape.

Import Re Vocabulary Dedup.

Lemma fingerprint_lower (text : Str.t) :
  Forall (fun c => Char.lower c = c) (fingerprint text).
Proof.
  rewrite fingerprint_stages.
  apply finish_ok; [reflexivity..|].
  apply strip_numbers_ok; [reflexivity|].
  unfold Str.lower. apply Forall_forall. intros c Hc.
  apply list_elem_of_fmap in Hc as (x & -> & _). apply lower_idempotent.
Qed.

Lemma fingerprint_no_capital (text : Str.t) :
  Forall (fun c => Char.is_AZ c = false) (fingerprint text).
Proof.
  rewrite fingerprint_stages.
  apply finish_ok; [reflexivity..|].
  apply strip_numbers_ok; [reflexivity|].
  unfold Str.lower. apply Forall_forall. intros c Hc.
  apply list_elem_of_fmap in Hc as (x & -> & _). apply lower_not_capital.
Qed.

Lemma fingerprint_no_digit (text : Str.t) :
  Forall (fun c => Char.is_digit c = false) (fingerprint text).
Proof.
  rewrite fingerprint_stages.
  apply finish_ok; [reflexivity..|]. apply strip_numbers_no_digit.
Qed.

Lemma fingerprint_kept (text : Str.t) :
  Forall (fun c => kept_char c = true) (fingerprint text).
Proof.
  unfold fingerprint. apply strip_ok, collapse_spaces_ok; [reflexivity|].
  apply strip_punctuation_kept.
Qed.

Lemma fingerprint_collapsed (text : Str.t) :
  exists x, fingerprint text = collapse_spaces x.
Proof.
  unfold fingerprint. eexists. apply strip_collapse_spaces.
Qed.

Lemma lower_fixed (s : Str.t) :
  Forall (fun c => Char.lower c = c) s -> Str.lower s = s.
Proof.
  unfold Str.lower. induction 1 as [|c s Hc _ IH]; cbn; [reflexivity|].
  rewrite Hc, IH. reflexivity.
Qed.

(** Run again on a fingerprint, the pipeline comes down to the choice
    stage and the filler stage. *)
Lemma fingerprint_again (text : Str.t) :
  let f := fingerprint text in
  fingerprint f
  = collapse_spaces
      (remove_fillers (collapse_spaces (_normalize_answer_choices f))).
Proof.
  cbn zeta. set (f := fingerprint text).
  rewrite fingerprint_stages.
  rewrite (lower_fixed f (fingerprint_lower text)).
  rewrite (strip_numbers_fixed f (fingerprint_no_digit text)).
  unfold finish.
  set (g := remove_fillers (collapse_spaces (_normalize_answer_choices f))).
  assert (Hcap : Forall (fun c => Char.is_AZ c = false) g).
  { apply remove_fillers_ok; [reflexivity|].
    apply collapse_spaces_ok; [reflexivity|].
    apply normalize_answer_choices_ok; [reflexivity..|].
    apply fingerprint_no_capital. }
  assert (Hkept : Forall (fun c => kept_char c = true) g).
  { apply remove_fillers_ok; [reflexivity|].
    apply collapse_spaces_ok; [reflexivity|].
    apply normalize_answer_choices_ok; [reflexivity..|].
    apply fingerprint_kept. }
  fold (close_formulas g). rewrite (close_formulas_fixed g Hcap).
  fold (strip_punctuation g). rewrite (strip_punctuation_fixed g Hkept).
  apply strip_collapse_spaces.
Qed.



End FingerprintShape.

(** C6, as the code has it.  A fingerprint is left unchanged by
    lower-casing, by the question-number stage, by the stage closing up
    formulas, by the punctuation stage, by the white-space collapse and by
    the final strip; run again on a fingerprint, the whole pipeline
    changes nothing whenever the choice-marker stage and the filler stage
    leave that fingerprint unchanged. *)
Theorem fingerprint_idempotent_stages (text : string) :
  let f := Str.of_string (Dedup._extract_question_fingerprint text) in
  Str.lower f = f
  /\ Vocabulary.strip_numbers f = f
  /\ Vocabulary.close_formulas f = f
  /\ Vocabulary.strip_punctuation f = f
  /\ Dedup.collapse_spaces f = f
  /\ Str.strip f = f
  /\ (Dedup._normalize_answer_choices f = f ->
      Dedup.remove_fillers f = f ->
      Dedup._extract_question_fingerprint
        (Dedup._extract_question_fingerprint text)
      = Dedup._extract_question_fingerprint text).
Proof.
  cbn zeta. unfold Dedup._extract_question_fingerprint.
  rewrite !of_to_string.
  set (t := Str.of_string text). set (f := Dedup.fingerprint t).
  destruct (fingerprint_collapsed t) as [x Hx]. fold f in Hx.
  assert (Hcol : Dedup.collapse_spaces f = f)
    by (rewrite Hx; apply collapse_spaces_idempotent).
  split; [apply lower_fixed, fingerprint_lower|].
  split; [apply strip_numbers_fixed, fingerprint_no_digit|].
  split; [apply close_formulas_fixed, fingerprint_no_capital|].
  split; [apply strip_punctuation_fixed, fingerprint_kept|].
  split; [exact Hcol|].
  split; [rewrite Hx; apply strip_collapse_spaces|].
  intros Hchoice Hfill. f_equal.
  pose proof (fingerprint_again t) as H. cbn zeta in H. fold f in H.
  rewrite H, Hchoice, Hcol, Hfill. exact Hcol.
Qed.

Lemma fingerprint_idempotent_stages_witness :
  Dedup._extract_question_fingerprint
    (Dedup._extract_question_fingerprint
       "Question 5: What is the oxidation state of Fe in Fe2O3?")
  = Dedup._extract_question_fingerprint
      "Question 5: What is the oxidation state of Fe in Fe2O3?".
Proof.
  apply (fingerprint_idempotent_stages
           "Question 5: What is the oxidation state of Fe in Fe2O3?");
    vm_compute; reflexivity.
Defined.

(** C6 fails as stated: the filler " the " is removed once from
    "a the the b", and once more from the fingerprint "a the b". *)
Lemma fingerprint_idempotent_counterexample :
  Dedup._extract_question_fingerprint "a the the b" = "a the b"%string
  /\ Dedup._extract_question_fingerprint
       (Dedup._extract_question_fingerprint "a the the b") = "a b"%string
  /\ Dedup._extract_question_fingerprint
       (Dedup._extract_question_fingerprint "a the the b")
     <> Dedup._extract_question_fingerprint "a the the b".
Proof.
  split; [vm_compute; reflexivity|].
  split; [vm_compute; reflexivity|].
  vm_compute. discriminate.
Qed.

(** ** Keywords of texts that differ in a number *)

Section KeywordsNumbers.

Import Re Vocabulary Dedup.

Lemma char_eqb_eq (a b : ascii) : Char.eqb a b = true -> a = b.
Proof.
  unfold Char.eqb, Char.code. intros H. apply N.eqb_eq in H.
  rewrite <- (ascii_N_embedding a), <- (ascii_N_embedding b), H.
  reflexivity.
Qed.

Lemma starts_with_digit (p : Str.t) (u : Str.t) (c : ascii) (x : Str.t) :
  Forall (fun y => Char.is_digit y = false) p -> Char.is_digit c = true ->
  Str.starts_with p (u ++ c :: x) = Str.starts_with p u.
Proof.
  intros Hp Hc. revert u. induction Hp as [|y p Hy _ IH]; intros u;
    [reflexivity|].
  destruct u as [|z u]; cbn [app Str.starts_with].
  - destruct (Char.eqb y c) eqn:E; [|reflexivity].
    apply char_eqb_eq in E. subst y. congruence.
  - rewrite IH. reflexivity.
Qed.

Lemma starts_with_nil (p : Str.t) : p <> [] -> Str.starts_with p [] = false.
Proof. destruct p; [contradiction | reflexivity]. Qed.

Lemma contains_nil (p : Str.t) : p <> [] -> Str.contains p [] = false.
Proof. intros H. cbn. rewrite (starts_with_nil p H). reflexivity. Qed.

Lemma contains_after_digits (p d v : Str.t) :
  p <> [] -> Forall (fun y => Char.is_digit y = false) p ->
  Forall (fun y => Char.is_digit y = true) d ->
  Str.contains p (d ++ v) = Str.contains p v.
Proof.
  intros Hne Hp Hd. induction Hd as [|c d Hc _ IH]; [reflexivity|].
  cbn [app Str.contains]. rewrite IH.
  pose proof (starts_with_digit p [] c (d ++ v) Hp Hc) as E.
  cbn [app] in E. rewrite E, (starts_with_nil p Hne). reflexivity.
Qed.

(** A word without digits occurs around a number where it occurs before
    or after it, whatever the number. *)
Lemma contains_around_digits (p u d v : Str.t) :
  p <> [] -> Forall (fun y => Char.is_digit y = false) p ->
  Forall (fun y => Char.is_digit y = true) d -> d <> [] ->
  Str.contains p (u ++ d ++ v) = Str.contains p u || Str.contains p v.
Proof.
  intros Hne Hp Hd Hdne. induction u as [|z u IH].
  - cbn [app]. rewrite (contains_after_digits p d v Hne Hp Hd).
    rewrite (contains_nil p Hne). reflexivity.
  - cbn [app Str.contains]. rewrite IH.
    destruct d as [|c d]; [contradiction|].
    change (z :: u ++ (c :: d) ++ v) with ((z :: u) ++ c :: (d ++ v)).
    rewrite (starts_with_digit p (z :: u) c (d ++ v) Hp (Forall_inv Hd)).
    rewrite orb_assoc. reflexivity.
Qed.

Lemma keywords_fold_ext (f g : string -> bool) (l : list string)
    (acc : gset string) :
  (forall term, term ∈ l -> f term = g term) ->
  fold_left (fun keywords term =>
               if f term then keywords ∪ {[ term ]} else keywords) l acc
  = fold_left (fun keywords term =>
                 if g term then keywords ∪ {[ term ]} else keywords) l acc.
Proof.
  revert acc. induction l as [|t l IH]; intros acc H; cbn [fold_left];
    [reflexivity|].
  rewrite (H t) by constructor. apply IH.
  intros term Hterm. apply H. by constructor.
Qed.

Lemma chemistry_terms_plain :
  forall term, term ∈ chemistry_terms ->
    lit term <> [] /\ Forall (fun y => Char.is_digit y = false) (lit term).
Proof.
  assert (H : forallb (fun term => nonempty (lit term)
                         && forallb (fun y => negb (Char.is_digit y)) (lit term))
                chemistry_terms = true) by (vm_compute; reflexivity).
  intros term Hterm. rewrite forallb_forall in H.
  apply list_elem_of_In in Hterm. specialize (H term Hterm).
  apply andb_true_iff in H as [H1 H2]. split.
  - destruct (lit term); [discriminate | discriminate].
  - rewrite forallb_forall in H2. apply Forall_forall. intros y Hy.
    apply list_elem_of_In in Hy. apply negb_true_iff. by apply H2.
Qed.

Lemma keywords_digits (pre d1 d2 post : string) :
  all_digits (Str.of_string d1) = true -> nonempty (Str.of_string d1) = true ->
  all_digits (Str.of_string d2) = true -> nonempty (Str.of_string d2) = true ->
  _extract_chemistry_keywords (pre +:+ d1 +:+ post)
  = _extract_chemistry_keywords (pre +:+ d2 +:+ post).
Proof.
  intros H1 N1 H2 N2. unfold _extract_chemistry_keywords.
  apply keywords_fold_ext. intros term Hterm.
  destruct (chemistry_terms_plain term Hterm) as [Hne Hp].
  rewrite !of_string_app. unfold Str.lower. rewrite !map_app.
  fold (Str.lower (Str.of_string d1)) (Str.lower (Str.of_string d2)).
  rewrite (lower_fixed_all _ _ lower_digit_fixed H1).
  rewrite (lower_fixed_all _ _ lower_digit_fixed H2).
  apply forallb_Forall in H1. apply forallb_Forall in H2.
  rewrite !contains_around_digits; try assumption.
  - reflexivity.
  - destruct (Str.of_string d2); [discriminate N2 | discriminate].
  - destruct (Str.of_string d1); [discriminate N1 | discriminate].
Qed.

End KeywordsNumbers.

Section NumbersInMatching.

Variable ratio : string -> string -> Q.

Import Re Vocabulary Dedup.

Lemma digits_changed_same (t1 t2 : string) :
  digits_changed t1 t2 ->
  _extract_question_fingerprint t1 = _extract_question_fingerprint t2
  /\ _extract_chemistry_keywords t1 = _extract_chemistry_keywords t2.
Proof.
  induction 1 as [t | pre d1 d2 post t H1 N1 H2 N2 _ [IHf IHk]];
    [by split|].
  split.
  - rewrite <- IHf. unfold _extract_question_fingerprint. f_equal.
    rewrite !of_string_app. by apply fingerprint_digits.
  - rewrite <- IHk. by apply keywords_digits.
Qed.

(** C10, as the code has it.  No digit is left in a fingerprint.  Two
    texts that differ only in digits (runs of digits in place of runs of
    digits, every other character being the same) have the same
    fingerprint and the same keywords; so against any signature their
    fingerprint scores and their keyword scores are the same, and their
    combined scores are the same whenever their formula scores and their
    number scores are.  A sign is not a digit: "cool to -5 degrees" and
    "cool to 5 degrees" have the fingerprints "cool - degrees" and
    "cool degrees". *)
Theorem fingerprint_drops_numbers :
  (forall text : string,
     Forall (fun c => Char.is_digit c = false)
            (Str.of_string (_extract_question_fingerprint text)))
  /\ (forall t1 t2 : string,
        digits_changed t1 t2 ->
        _extract_question_fingerprint t1 = _extract_question_fingerprint t2
        /\ _extract_chemistry_keywords t1 = _extract_chemistry_keywords t2
        /\ forall other : signature,
             let s1 := _compute_signature_similarity ratio
                         (_create_question_signature t1) other in
             let s2 := _compute_signature_similarity ratio
                         (_create_question_signature t2) other in
             score_fingerprint s1 = score_fingerprint s2
             /\ score_keywords s1 = score_keywords s2
             /\ (score_formulas s1 = score_formulas s2 ->
                 score_numbers s1 = score_numbers s2 ->
                 score_combined s1 = score_combined s2))
  /\ _extract_question_fingerprint "cool to -5 degrees"
     = "cool - degrees"%string
  /\ _extract_question_fingerprint "cool to 5 degrees"
     = "cool degrees"%string.
Proof.
  split; [|split; [|split; vm_compute; reflexivity]].
  - intros text. unfold _extract_question_fingerprint.
    rewrite of_to_string. apply fingerprint_no_digit.
  - intros t1 t2 H. destruct (digits_changed_same t1 t2 H) as [Hfp Hkw].
    split; [exact Hfp|]. split; [exact Hkw|]. intros other s1 s2. subst s1 s2.
    unfold _compute_signature_similarity, _create_question_signature.
    cbn [score_fingerprint score_keywords score_combined score_formulas
           score_numbers sig_fingerprint sig_formulas sig_numbers
           sig_keywords].
    rewrite Hfp, Hkw.
    split; [reflexivity|]. split; [reflexivity|].
    intros -> ->. reflexivity.
Qed.

End NumbersInMatching.

(** C10 on two pairs of texts: one number changed, and the two parts of
    a decimal number changed one after the other. *)
Lemma fingerprint_drops_numbers_witness :
  Dedup._extract_question_fingerprint ("Dissolve " +:+ "2" +:+ " mol of NaCl")
  = Dedup._extract_question_fingerprint ("Dissolve " +:+ "15" +:+ " mol of NaCl")
  /\ Dedup._extract_question_fingerprint ("Heat " +:+ "2" +:+ ".5 g of ice")
     = Dedup._extract_question_fingerprint "Heat 3.75 g of ice".
Proof.
  split.
  - apply (proj1 (proj2 (fingerprint_drops_numbers Sample.ratio))).
    apply (Vocabulary.digits_step "Dissolve " "2" "15" " mol of NaCl");
      [reflexivity..|].
    apply Vocabulary.digits_same.
  - apply (proj1 (proj2 (fingerprint_drops_numbers Sample.ratio))).
    apply (Vocabulary.digits_step "Heat " "2" "3" ".5 g of ice");
      [reflexivity..|].
    apply (Vocabulary.digits_step "Heat 3." "5" "75" " g of ice");
      [reflexivity..|].
    apply Vocabulary.digits_same.
Defined.

(** C10 fails as stated in two places.  "Fe2 oxidation" and
    "Fe3 oxidation" differ in one digit and have no numbers, the same
    fingerprint and the same keywords, yet against the signature of
    "Fe2 oxidation" their combined scores differ, because the digit is
    part of a formula: the formula scores are 1 and 0.  And
    "cool to -5 degrees" and "cool to 5 degrees" differ only in the value
    of a number, yet their fingerprints differ. *)
Lemma fingerprint_drops_numbers_counterexample :
  let t1 := "Fe2 oxidation"%string in
  let t2 := "Fe3 oxidation"%string in
  let s1 := Dedup._compute_signature_similarity Sample.ratio
              (Dedup._create_question_signature t1)
              (Dedup._create_question_signature t1) in
  let s2 := Dedup._compute_signature_similarity Sample.ratio
              (Dedup._create_question_signature t2)
              (Dedup._create_question_signature t1) in
  Dedup._extract_numbers_and_units t1 = ∅
  /\ Dedup._extract_numbers_and_units t2 = ∅
  /\ Dedup.score_numbers s1 = Dedup.score_numbers s2
  /\ Dedup.score_formulas s1 = 1 /\ Dedup.score_formulas s2 = 0
  /\ Dedup.score_combined s2 < Dedup.score_combined s1
  /\ Dedup._extract_question_fingerprint "cool to -5 degrees"
     <> Dedup._extract_question_fingerprint "cool to 5 degrees".
Proof.
  cbn zeta.
  split; [vm_compute; reflexivity|].
  split; [vm_compute; reflexivity|].
  split; [vm_compute; reflexivity|].
  split; [vm_compute; reflexivity|].
  split; [vm_compute; reflexivity|].
  split; [vm_compute; reflexivity|].
  vm_compute. discriminate.
Qed.

(** * Further properties of the scorer, the store and the dashboard *)

(** ** The Jaccard index of two sets *)

Section OverlapProperties.

Import Dedup.

(** X1.  The overlap of two sets computed by [_compute_set_overlap] lies
    between 0 and 1, and does not depend on the order of the two sets. *)
Theorem set_overlap_range_symmetric (set1 set2 : gset string) :
  0 <= _compute_set_overlap set1 set2 <= 1
  /\ _compute_set_overlap set1 set2 = _compute_set_overlap set2 set1.
Proof.
  split; [apply set_overlap_bounds|].
  unfold _compute_set_overlap.
  rewrite (orb_comm (bool_decide (set1 = ∅))).
  rewrite (gset_intersection_comm set2 set1), (gset_union_comm set2 set1).
  reflexivity.
Qed.

(** X2.  The overlap is 1 exactly when the two sets are equal and not
    empty, and 0 exactly when they have no element in common; so two
    empty sets overlap by 0, not by 1. *)
Theorem set_overlap_extremes (set1 set2 : gset string) :
  (_compute_set_overlap set1 set2 == 1 <-> set1 = set2 /\ set1 <> ∅)
  /\ (_compute_set_overlap set1 set2 == 0 <-> set1 ∩ set2 = ∅).
Proof.
  destruct (decide (set1 = ∅)) as [H1|H1].
  { rewrite (set_overlap_empty set1 set2 (or_introl H1)). subst set1. split.
    - split; [intros H; discriminate H | intros [_ H]; contradiction].
    - split; [intros _; apply intersection_empty_l_L | reflexivity]. }
  destruct (decide (set2 = ∅)) as [H2|H2].
  { rewrite (set_overlap_empty set1 set2 (or_intror H2)). subst set2. split.
    - split; [intros H; discriminate H | intros [-> _]; contradiction].
    - split; [intros _; apply intersection_empty_r_L | reflexivity]. }
  destruct (set_overlap_nonempty set1 set2 H1 H2) as [Hu ->].
  assert (Hpos : 0 < inject_Z (Z.of_nat (size (set1 ∪ set2)))).
  { rewrite <- (Zlt_Qlt 0). lia. }
  assert (Hnz : ~ inject_Z (Z.of_nat (size (set1 ∪ set2))) == 0).
  { intros E. rewrite E in Hpos. discriminate Hpos. }
  split.
  - split.
    + intros E.
      assert (Hs : size (set1 ∩ set2) = size (set1 ∪ set2)).
      { apply Nat2Z.inj, inject_Z_injective.
        rewrite <- (Qmult_div_r _ _ Hnz), E, Qmult_1_r. reflexivity. }
      assert (Heq : set1 ∩ set2 ≡ set1 ∪ set2).
      { apply set_subseteq_size_equiv; [|lia].
        etrans; [apply intersection_subseteq_l | apply union_subseteq_l]. }
      split; [|exact H1]. apply leibniz_equiv. intros x. split; intros Hx.
      * assert (Hx' : x ∈ set1 ∩ set2)
          by (apply Heq, elem_of_union; left; exact Hx).
        apply elem_of_intersection in Hx'. tauto.
      * assert (Hx' : x ∈ set1 ∩ set2)
          by (apply Heq, elem_of_union; right; exact Hx).
        apply elem_of_intersection in Hx'. tauto.
    + intros [<- _].
      rewrite (gset_intersection_idemp set1).
      rewrite (gset_union_idemp set1) in Hnz |- *.
      apply Qmult_inv_r. exact Hnz.
  - split.
    + intros E.
      assert (Hs : size (set1 ∩ set2) = 0%nat).
      { apply Nat2Z.inj, inject_Z_injective.
        rewrite <- (Qmult_div_r _ _ Hnz), E, Qmult_0_r. reflexivity. }
      apply leibniz_equiv, size_empty_iff. exact Hs.
    + intros ->. rewrite size_empty. reflexivity.
Qed.

End OverlapProperties.

(** ** The range of the combined score *)

Section ScoreBounds.

Variable ratio : string -> string -> Q.

Import Dedup.

Lemma weighted_bounds (f o k n : Q) :
  0 <= f <= 1 -> 0 <= o <= 1 -> 0 <= k <= 1 -> 0 <= n <= 1 ->
  0 <= Float64.add
         (Float64.add
            (Float64.add (Float64.mul f (Float64.round (40 # 100)))
                         (Float64.mul o (Float64.round (35 # 100))))
            (Float64.mul k (Float64.round (15 # 100))))
         (Float64.mul n (Float64.round (10 # 100)))
    <= 1.
Proof.
  intros [Hf0 Hf1] [Ho0 Ho1] [Hk0 Hk1] [Hn0 Hn1]. split.
  - eapply Qle_trans; [|apply (combined_mono 0 0 0 0); assumption].
    vm_compute. discriminate.
  - eapply Qle_trans; [apply (combined_mono f o k n 1 1 1 1); assumption|].
    vm_compute. discriminate.
Qed.

Lemma weighted_without_formulas (f k n : Q) :
  f <= 1 -> k <= 1 -> n <= 1 ->
  Float64.add
    (Float64.add
       (Float64.add (Float64.mul f (Float64.round (40 # 100)))
                    (Float64.mul 0 (Float64.round (35 # 100))))
       (Float64.mul k (Float64.round (15 # 100))))
    (Float64.mul n (Float64.round (10 # 100)))
  <= Float64.round (65 # 100).
Proof.
  intros Hf Hk Hn.
  eapply Qle_trans;
    [apply (combined_mono f 0 k n 1 0 1 1);
     first [assumption | apply Qle_refl]|].
  vm_compute. discriminate.
Qed.

(** X3.  When the fuzzy ratio of the two fingerprints lies between 0 and
    1, so does the combined score of [_compute_signature_similarity]; the
    formula, keyword and number scores always do. *)
Theorem combined_score_range (sig1 sig2 : signature) :
  0 <= ratio (sig_fingerprint sig1) (sig_fingerprint sig2) <= 1 ->
  let s := _compute_signature_similarity ratio sig1 sig2 in
  0 <= score_combined s <= 1
  /\ 0 <= score_formulas s <= 1
  /\ 0 <= score_keywords s <= 1
  /\ 0 <= score_numbers s <= 1.
Proof.
  intros Hr. cbn zeta.
  cbn [_compute_signature_similarity score_combined score_formulas
         score_keywords score_numbers].
  unfold _compute_fuzzy_similarity.
  split; [|split; [|split]];
    try apply overlap_rounded_range, set_overlap_bounds.
  apply weighted_bounds; [exact Hr|..];
    apply overlap_rounded_range, set_overlap_bounds.
Qed.

(** X4.  Two signatures without a chemical formula in common (in
    particular when either has no formula at all) score at most 0.65 in
    combination, whatever their fingerprints, keywords and numbers,
    provided the fuzzy ratio is at most 1: below the 0.75 at which the
    signature layer accepts a match.  Even a question compared with itself
    stays below the threshold when it names no formula.  (0.65 is the
    binary64 number the literal denotes, as 0.75 is.) *)
Theorem signature_match_needs_formula (sig1 sig2 : signature) :
  ratio (sig_fingerprint sig1) (sig_fingerprint sig2) <= 1 ->
  sig_formulas sig1 ∩ sig_formulas sig2 = ∅ ->
  let s := _compute_signature_similarity ratio sig1 sig2 in
  score_combined s <= Float64.round (65 # 100)
  /\ score_combined s < MEDIUM_CONFIDENCE_THRESHOLD.
Proof.
  intros Hr Hd. cbn zeta.
  assert (Hle : score_combined (_compute_signature_similarity ratio sig1 sig2)
                <= Float64.round (65 # 100)).
  { cbn [_compute_signature_similarity score_combined].
    unfold _compute_fuzzy_similarity.
    rewrite (round_proper _ 0 (set_overlap_disjoint _ _ Hd)).
    change (Float64.round 0) with 0.
    apply weighted_without_formulas; [exact Hr|..];
      apply overlap_rounded_range, set_overlap_bounds. }
  split; [exact Hle|].
  eapply Qle_lt_trans; [exact Hle|]. vm_compute. reflexivity.
Qed.

End ScoreBounds.

Lemma combined_score_range_witness :
  0 <= Dedup.score_combined
         (Dedup._compute_signature_similarity Sample.ratio
            (Dedup._create_question_signature "Fe2O3 oxidation")
            (Dedup._create_question_signature "NaCl oxidation")) <= 1.
Proof.
  apply (combined_score_range Sample.ratio
           (Dedup._create_question_signature "Fe2O3 oxidation")
           (Dedup._create_question_signature "NaCl oxidation")).
  vm_compute. split; discriminate.
Defined.

(** The bound of 0.65 is reached, and it is the binary64 number of that
    literal, which lies above 65/100: "acid base 5 ml" against itself
    scores 1 on fingerprint, keywords and numbers, and 0 on formulas. *)
Lemma combined_score_without_formula_extreme :
  let s := Dedup._compute_signature_similarity Sample.ratio
             (Dedup._create_question_signature "acid base 5 ml")
             (Dedup._create_question_signature "acid base 5 ml") in
  Dedup.score_formulas s = 0
  /\ Dedup.score_combined s = Float64.round (65 # 100)
  /\ 65 # 100 < Dedup.score_combined s.
Proof. vm_compute. repeat split. Qed.

(** "Define a catalyst" against itself: the fingerprints and the keywords
    agree, and the score stays below the threshold. *)
Lemma signature_match_needs_formula_witness :
  Dedup.score_combined
    (Dedup._compute_signature_similarity Sample.ratio
       (Dedup._create_question_signature "Define a catalyst")
       (Dedup._create_question_signature "Define a catalyst"))
  < Dedup.MEDIUM_CONFIDENCE_THRESHOLD.
Proof.
  apply (signature_match_needs_formula Sample.ratio
           (Dedup._create_question_signature "Define a catalyst")
           (Dedup._create_question_signature "Define a catalyst")).
  - vm_compute. discriminate.
  - vm_compute. reflexivity.
Defined.

(** ** The keyword vocabulary *)

Section KeywordVocabulary.

Import Dedup.

Lemma starts_with_prefix (p s : Str.t) :
  Str.starts_with p s = true -> exists t, s = p ++ t.
Proof.
  revert s. induction p as [|x p IH]; intros s H; [by exists s|].
  destruct s as [|y s]; [discriminate H|].
  cbn [Str.starts_with] in H. apply andb_true_iff in H as [Hxy Hp].
  apply char_eqb_eq in Hxy as ->. destruct (IH s Hp) as [t ->].
  by exists t.
Qed.

Lemma contains_infix (p s : Str.t) :
  Str.contains p s = true -> exists u t, s = u ++ p ++ t.
Proof.
  induction s as [|c s IH]; intros H.
  - cbn in H. rewrite orb_false_r in H.
    destruct (starts_with_prefix p [] H) as [t Ht]. by exists [], t.
  - cbn [Str.contains] in H. apply orb_true_iff in H as [H|H].
    + destruct (starts_with_prefix p (c :: s) H) as [t Ht]. by exists [], t.
    + destruct (IH H) as (u & t & ->). by exists (c :: u), t.
Qed.

Lemma keywords_fold_elem (text_lower : Str.t) (l : list string)
    (acc : gset string) (k : string) :
  k ∈ fold_left
        (fun keywords term =>
           if Str.contains (lit term) text_lower
           then keywords ∪ {[ term ]} else keywords) l acc
  <-> k ∈ acc \/ (k ∈ l /\ Str.contains (lit k) text_lower = true).
Proof.
  revert acc. induction l as [|t l IH]; intros acc; cbn [fold_left].
  - split; [by left|]. intros [H|[H _]]; [exact H | inversion H].
  - rewrite IH. destruct (Str.contains (lit t) text_lower) eqn:E.
    + rewrite elem_of_union, elem_of_singleton. split.
      * intros [[H | ->] | [H1 H2]]; [by left | right | right].
        -- split; [constructor | exact E].
        -- split; [by constructor | exact H2].
      * intros [H | [H1 H2]]; [by left; left|].
        apply elem_of_cons in H1 as [-> | H1]; [by left; right|].
        right. by split.
    + split.
      * intros [H | [H1 H2]]; [by left|]. right. split; [by constructor|exact H2].
      * intros [H | [H1 H2]]; [by left|].
        apply elem_of_cons in H1 as [-> | H1]; [congruence|]. right. by split.
Qed.

(** X5.  The keywords of a text are exactly the vocabulary terms other
    than "pH" that occur in the lower-cased text: the term "pH" of the
    vocabulary is never reported, for any text, because the text is
    lower-cased before the search and the term is not. *)
Theorem keywords_never_pH (text k : string) :
  k ∈ _extract_chemistry_keywords text
  <-> k ∈ chemistry_terms /\ k <> "pH"%string
      /\ Str.contains (lit k) (Str.lower (Str.of_string text)) = true.
Proof.
  unfold _extract_chemistry_keywords. rewrite keywords_fold_elem.
  split.
  - intros [H | [H1 H2]]; [by apply elem_of_empty in H|].
    split; [exact H1|]. split; [|exact H2]. intros ->.
    destruct (contains_infix _ _ H2) as (u & t & E).
    assert (Hcap : Forall (fun c => Char.is_AZ c = false)
                     (Str.lower (Str.of_string text))).
    { unfold Str.lower. apply Forall_forall. intros c Hc.
      apply list_elem_of_fmap in Hc as (x & -> & _). apply lower_not_capital. }
    rewrite E in Hcap. apply Forall_app in Hcap as [_ Hcap].
    apply Forall_app in Hcap as [Hcap _].
    apply Forall_cons in Hcap as [_ Hcap]. apply Forall_cons in Hcap as [Hcap _].
    discriminate Hcap.
  - intros (H1 & _ & H2). right. by split.
Qed.

End KeywordVocabulary.

(** ** What a formula looks like *)

Section MatcherReads.

Import Re Vocabulary.

Variable C : ascii -> bool.

Lemma reads_refl (st : mstate) : reads C st st.
Proof. exists []. split; [reflexivity | constructor]. Qed.

Lemma reads_trans (st1 st2 st3 : mstate) :
  reads C st1 st2 -> reads C st2 st3 -> reads C st1 st3.
Proof.
  intros (p1 & E1 & H1) (p2 & E2 & H2). exists (p1 ++ p2).
  split; [by rewrite E1, E2, app_assoc | by apply Forall_app].
Qed.

(** A match attempt reads only characters of the classes of its
    pattern. *)
Lemma run_reads {A : Type} (r : regex) :
  classes_within C r ->
  forall (st : mstate) (k : mstate -> option A) (x : A),
    run r st k = Some x -> exists st', reads C st st' /\ k st' = Some x.
Proof.
  induction r as [|p|r1 IH1 r2 IH2|r1 IH1 r2 IH2|r IH| |n r IH];
    intros Hr st k x Hrun; cbn [run] in Hrun; cbn [classes_within] in Hr.
  - exists st. split; [apply reads_refl | exact Hrun].
  - destruct st as [pv [|c s'] cs]; cbn in Hrun; [discriminate|].
    destruct (p c) eqn:Hp; [|discriminate].
    eexists. split; [|exact Hrun]. exists [c]. cbn.
    split; [reflexivity|]. constructor; [by apply Hr | constructor].
  - destruct Hr as [Hr1 Hr2].
    destruct (IH1 Hr1 st _ x Hrun) as (st1 & H1 & Hk1).
    destruct (IH2 Hr2 st1 k x Hk1) as (st2 & H2 & Hk2).
    exists st2. split; [by eapply reads_trans | exact Hk2].
  - destruct Hr as [Hr1 Hr2]. destruct (run r1 st k) as [y|] eqn:E.
    + injection Hrun as ->. exact (IH1 Hr1 st k x E).
    + exact (IH2 Hr2 st k x Hrun).
  - remember (length (rest st)) as n eqn:Hn in Hrun. clear Hn.
    revert st Hrun. induction n as [|n IHn]; intros st Hrun;
      cbn [star_loop] in Hrun.
    + exists st. split; [apply reads_refl | exact Hrun].
    + match type of Hrun with
      | match ?t with _ => _ end = _ => destruct t as [y|] eqn:E
      end.
      * injection Hrun as ->.
        destruct (IH Hr st _ x E) as (st1 & H1 & Hk1).
        destruct (length (rest st1) <? length (rest st))%nat;
          [|discriminate Hk1].
        destruct (IHn st1 Hk1) as (st2 & H2 & Hk2).
        exists st2. split; [by eapply reads_trans | exact Hk2].
      * exists st. split; [apply reads_refl | exact Hrun].
  - destruct (at_boundary st); [|discriminate].
    exists st. split; [apply reads_refl | exact Hrun].
  - destruct (IH Hr st _ x Hrun) as (st1 & H1 & Hk1).
    eexists. split; [|exact Hk1]. exact H1.
Qed.

Lemma match_at_reads (r : regex) (p : option ascii) (s : Str.t) (m : rmatch) :
  classes_within C r -> match_at r p s = Some m ->
  Forall (fun c => C c = true) (whole m)
  /\ whole m = firstn (length (whole m)) s.
Proof.
  intros Hr Hm. unfold match_at in Hm.
  apply (run_reads r Hr) in Hm as (st' & (pre & E & Hpre) & Hk).
  cbn [rest] in E. injection Hk as <-. cbn [whole].
  assert (Hw : firstn (length s - length (rest st')) s = pre).
  { rewrite E at 1 2. rewrite length_app.
    replace (length pre + length (rest st') - length (rest st'))%nat
      with (length pre) by lia.
    by rewrite take_app_length. }
  rewrite Hw. split; [exact Hpre|].
  rewrite E at 1. by rewrite take_app_length.
Qed.

(** Every match reported by the scan was found at some position of the
    text, and is not empty. *)
Lemma scan_matches (r : regex) (s : Str.t) :
  forall (p : option ascii) (skip : nat) (m : rmatch),
    PMatch m ∈ scan r p skip s ->
    exists p' c s', match_at r p' (c :: s') = Some m /\ whole m <> [].
Proof.
  induction s as [|c s IH]; intros p skip m Hm; cbn [scan] in Hm;
    [inversion Hm|].
  destruct skip as [|n]; [|by eapply IH].
  destruct (match_at r p (c :: s)) as [m'|] eqn:E.
  - destruct (length (whole m')) eqn:El.
    + apply elem_of_cons in Hm as [Hm | Hm]; [discriminate Hm | by eapply IH].
    + apply elem_of_cons in Hm as [Hm | Hm]; [|by eapply IH].
      injection Hm as ->. exists p, c, s. split; [exact E|].
      intros Hnil. rewrite Hnil in El. discriminate El.
  - apply elem_of_cons in Hm as [Hm | Hm]; [discriminate Hm | by eapply IH].
Qed.

Lemma findall_matches (r : regex) (s m : Str.t) :
  m ∈ findall r s ->
  exists p' c s' m', match_at r p' (c :: s') = Some m'
                     /\ whole m' = m /\ m <> [].
Proof.
  unfold findall. intros H. apply list_elem_of_In, in_flat_map in H
    as (x & Hx & Hm).
  destruct x as [ch|m']; [destruct Hm|]. destruct Hm as [<- | []].
  apply list_elem_of_In in Hx.
  apply scan_matches in Hx as (p' & c & s' & E & Hne).
  exists p', c, s', m'. by repeat split.
Qed.

End MatcherReads.

Section FormulaShape.

Import Re Dedup Vocabulary.

Lemma formula_re_classes : classes_within formula_char formula_re.
Proof.
  unfold formula_re, element_re, Opt, formula_char. cbn [classes_within].
  repeat split; try exact I; intros c Hc; rewrite Hc;
    rewrite ?orb_true_r; reflexivity.
Qed.

Lemma formula_re_capital (p : option ascii) (c : ascii) (s : Str.t)
    (m : rmatch) :
  match_at formula_re p (c :: s) = Some m -> Char.is_AZ c = true.
Proof.
  unfold match_at, formula_re, element_re. cbn [run rest].
  destruct (at_boundary _); [|discriminate].
  destruct (Char.is_AZ c); [reflexivity | discriminate].
Qed.

Lemma upper_formula_char :
  forallb (fun c => implb (formula_char c)
                      (Char.is_AZ (Char.upper c) || Char.is_digit (Char.upper c)))
    (map (fun n => ascii_of_nat n) (seq 0 256)) = true.
Proof. vm_compute. reflexivity. Qed.

Lemma upper_capital :
  forallb (fun c => implb (Char.is_AZ c) (Char.is_AZ (Char.upper c)))
    (map (fun n => ascii_of_nat n) (seq 0 256)) = true.
Proof. vm_compute. reflexivity. Qed.

Lemma all_ascii (c : ascii) : In c (map (fun n => ascii_of_nat n) (seq 0 256)).
Proof.
  apply in_map_iff. exists (nat_of_ascii c).
  split; [apply ascii_nat_embedding|]. apply in_seq.
  pose proof (nat_ascii_bounded c). lia.
Qed.

(** X6.  Every formula returned by [_extract_chemical_formulas] has at
    least two characters, starts with a capital letter A-Z and consists
    of capital letters A-Z and digits 0-9 only. *)
Theorem formulas_shape (text f : string) :
  f ∈ _extract_chemical_formulas text ->
  exists c s,
    Str.of_string f = c :: s /\ s <> []
    /\ Char.is_AZ c = true
    /\ Forall (fun x => Char.is_AZ x || Char.is_digit x = true) s.
Proof.
  unfold _extract_chemical_formulas. rewrite formulas_fold_elem.
  intros [H | (m & Hm & _ & Hlen & ->)]; [by apply elem_of_empty in H|].
  rewrite of_to_string.
  apply findall_matches in Hm as (p' & c & s' & m' & E & <- & Hne).
  pose proof (formula_re_capital _ _ _ _ E) as Hc.
  apply (match_at_reads formula_char _ _ _ _ formula_re_classes) in E
    as [Hall Hpre].
  destruct (whole m') as [|c0 w] eqn:Ew; [contradiction|].
  cbn [length firstn] in Hpre. injection Hpre as -> _.
  exists (Char.upper c), (Str.upper w). cbn [Str.upper map].
  split; [reflexivity|]. split; [|split].
  - destruct w; [cbn in Hlen; lia | discriminate].
  - pose proof upper_capital as H. rewrite forallb_forall in H.
    specialize (H c (all_ascii c)). rewrite Hc in H. exact H.
  - apply Forall_inv_tail in Hall. unfold Str.upper.
    apply Forall_fmap. eapply Forall_impl; [exact Hall|].
    cbn. intros x Hx. pose proof upper_formula_char as H.
    rewrite forallb_forall in H. specialize (H x (all_ascii x)).
    rewrite Hx in H. exact H.
Qed.

End FormulaShape.

Lemma formulas_shape_witness :
  exists c s,
    Str.of_string "FE2O3" = c :: s /\ s <> [] /\ Char.is_AZ c = true
    /\ Forall (fun x => Char.is_AZ x || Char.is_digit x = true) s.
Proof.
  apply (formulas_shape "Fe2O3 reacts with H2SO4" "FE2O3").
  vm_compute. reflexivity.
Defined.

(** ** What a number token looks like *)

Section NumberTokens.

Import Re Dedup.

Lemma number_unit_re_digit (p : option ascii) (c : ascii) (s : Str.t)
    (m : rmatch) :
  match_at number_unit_re p (c :: s) = Some m -> Char.is_digit c = true.
Proof.
  unfold match_at, number_unit_re, decimal_re, Plus. cbn [run rest].
  destruct (Char.is_digit c); [reflexivity | discriminate].
Qed.

Lemma number_re_digit (p : option ascii) (c : ascii) (s : Str.t)
    (m : rmatch) :
  match_at number_re p (c :: s) = Some m -> Char.is_digit c = true.
Proof.
  unfold match_at, number_re, decimal_re, Plus. cbn [run rest].
  destruct (at_boundary _); [|discriminate].
  destruct (Char.is_digit c); [reflexivity | discriminate].
Qed.

Lemma findall_first (r : regex) (P : ascii -> Prop) (s m : Str.t) :
  (forall p c s' m', match_at r p (c :: s') = Some m' -> P c) ->
  m ∈ findall r s -> exists c w, m = c :: w /\ P c.
Proof.
  intros Hr Hm.
  apply findall_matches in Hm as (p' & c & s' & m' & E & <- & Hne).
  pose proof (Hr _ _ _ _ E) as Hc.
  apply (match_at_reads (fun _ => true)) in E as [_ Hpre].
  - destruct (whole m') as [|c0 w]; [contradiction|].
    cbn [length firstn] in Hpre. injection Hpre as -> _. by exists c, w.
  - clear. induction r; cbn; auto.
Qed.

(** X7.  Every token returned by [_extract_numbers_and_units] starts
    with a digit: a sign or a decimal point in front of a number is
    never part of the token, so "-5" and "5" give the same token. *)
Theorem numbers_start_with_digit (text x : string) :
  x ∈ _extract_numbers_and_units text ->
  exists c s, Str.of_string x = c :: s /\ Char.is_digit c = true.
Proof.
  unfold _extract_numbers_and_units. cbn [fold_left].
  rewrite !elem_of_union, !elem_of_list_to_set.
  intros [[H | H] | H]; [by apply elem_of_empty in H| |];
    apply list_elem_of_fmap in H as (m & -> & Hm); rewrite of_to_string.
  - eapply findall_first; [|exact Hm]. apply number_unit_re_digit.
  - eapply findall_first; [|exact Hm]. apply number_re_digit.
Qed.

End NumberTokens.

Lemma numbers_start_with_digit_witness :
  exists c s, Str.of_string "5" = c :: s /\ Char.is_digit c = true.
Proof.
  apply (numbers_start_with_digit "cool to -5 degrees" "5").
  vm_compute. reflexivity.
Defined.

(** ** Lookups in the cache table *)

Section OrderProperties.

Import Database Vocabulary.

(** X8.  [get_cached_question_by_image_hash] returns nothing, and leaves
    the store as it is, exactly when no row has the image hash.
    Otherwise it returns a row of the table that has the hash and was
    used at least as recently as every other row with the hash, as it
    was before the call; in the store the rows with the id of that row
    have [times_used] one higher and [last_used] set to the current
    time, and nothing else is changed. *)
Theorem get_cached_question_by_image_hash_latest (now : Z)
    (image_hash : string) (db : Db) :
  let r := get_cached_question_by_image_hash now image_hash db in
  let rows := cached_scientific_questions db in
  (r.1 = None <->
     forall q, q ∈ rows -> CachedQuestion.image_hash q <> Some image_hash)
  /\ (r.1 = None -> r.2 = db)
  /\ (forall row, r.1 = Some row ->
        latest_with (fun q => CachedQuestion.image_hash q = Some image_hash)
          rows row
        /\ usage_bumped now (CachedQuestion.id row) rows
             (cached_scientific_questions r.2)
        /\ interactions r.2 = interactions db
        /\ cached_id_seq r.2 = cached_id_seq db).
Proof.
  cbn zeta. unfold get_cached_question_by_image_hash.
  pose proof (fetch_latest
    (fun r => bool_decide (CachedQuestion.image_hash r = Some image_hash))
    (cached_scientific_questions db)) as H.
  destruct (order_by_last_used_desc _) as [|row l'].
  - split; [|split; [reflexivity | discriminate]].
    split; [|reflexivity]. intros _ q Hq. specialize (H q Hq).
    by apply bool_decide_eq_false in H.
  - destruct H as (Hin & Hp & Hmax). apply bool_decide_eq_true in Hp.
    split; [|split; [discriminate|]].
    + split; [discriminate|]. intros Hnone. exfalso.
      exact (Hnone row Hin Hp).
    + intros ? [= <-]. cbn [fst snd]. split; [|split].
      * split; [exact Hin|]. split; [exact Hp|].
        intros q Hq Hpq. apply Hmax; [exact Hq|]. by apply bool_decide_eq_true.
      * apply update_where_bumped.
      * split; reflexivity.
Qed.

(** X9.  [get_cached_question_by_text] does the same on the column
    [normalized_text]: nothing exactly when no row has the fingerprint,
    otherwise a most recently used row with it, whose usage is bumped in
    the store. *)
Theorem get_cached_question_by_text_latest (now : Z)
    (normalized_text : string) (db : Db) :
  let r := get_cached_question_by_text now normalized_text db in
  let rows := cached_scientific_questions db in
  (r.1 = None <->
     forall q, q ∈ rows -> CachedQuestion.normalized_text q <> normalized_text)
  /\ (r.1 = None -> r.2 = db)
  /\ (forall row, r.1 = Some row ->
        latest_with (fun q => CachedQuestion.normalized_text q = normalized_text)
          rows row
        /\ usage_bumped now (CachedQuestion.id row) rows
             (cached_scientific_questions r.2)
        /\ interactions r.2 = interactions db
        /\ cached_id_seq r.2 = cached_id_seq db).
Proof.
  cbn zeta. unfold get_cached_question_by_text.
  pose proof (fetch_latest
    (fun r => bool_decide (CachedQuestion.normalized_text r = normalized_text))
    (cached_scientific_questions db)) as H.
  destruct (order_by_last_used_desc _) as [|row l'].
  - split; [|split; [reflexivity | discriminate]].
    split; [|reflexivity]. intros _ q Hq. specialize (H q Hq).
    by apply bool_decide_eq_false in H.
  - destruct H as (Hin & Hp & Hmax). apply bool_decide_eq_true in Hp.
    split; [|split; [discriminate|]].
    + split; [discriminate|]. intros Hnone. exfalso.
      exact (Hnone row Hin Hp).
    + intros ? [= <-]. cbn [fst snd]. split; [|split].
      * split; [exact Hin|]. split; [exact Hp|].
        intros q Hq Hpq. apply Hmax; [exact Hq|]. by apply bool_decide_eq_true.
      * apply update_where_bumped.
      * split; reflexivity.
Qed.

(** X10.  [get_recent_cached_questions] returns as many rows as the limit
    allows and the table has, most recently used first; together with
    the rows it leaves out they are the rows of the table, and no row
    left out was used more recently than a row returned. *)
Theorem get_recent_cached_questions_top (limit : nat) (db : Db) :
  let l := get_recent_cached_questions limit db in
  let rows := cached_scientific_questions db in
  length l = Nat.min limit (length rows)
  /\ recent_first l
  /\ exists others,
       l ++ others ≡ₚ rows
       /\ forall a b, a ∈ l -> b ∈ others ->
            (CachedQuestion.last_used b <= CachedQuestion.last_used a)%Z.
Proof.
  cbn zeta. unfold get_recent_cached_questions.
  pose proof (order_by_last_used_desc_perm (cached_scientific_questions db)) as Hp.
  pose proof (order_by_last_used_desc_sorted (cached_scientific_questions db))
    as Hs.
  set (sorted := order_by_last_used_desc (cached_scientific_questions db)) in *.
  split; [|split].
  - rewrite length_take, <- (Permutation_length Hp). reflexivity.
  - rewrite <- (take_drop limit sorted) in Hs.
    by apply recent_first_app in Hs as [Hs _].
  - exists (skipn limit sorted). split; [by rewrite take_drop|].
    rewrite <- (take_drop limit sorted) in Hs.
    by apply recent_first_app in Hs as [_ Hs].
Qed.

End OrderProperties.

(** On a store with two rows of one image: the row used last is the one
    fetched. *)
Lemma get_cached_question_by_image_hash_latest_witness :
  Vocabulary.latest_with
    (fun q => CachedQuestion.image_hash q = Some "abc123"%string)
    (Database.cached_scientific_questions Sample.db1)
    (Sample.question 2 "What is the oxidation state of Fe in Fe2O3?"
       (Some "abc123"%string) 7 false).
Proof.
  apply (proj2 (proj2 (get_cached_question_by_image_hash_latest 9 "abc123"
                         Sample.db1))).
  reflexivity.
Defined.

Lemma get_cached_question_by_text_latest_witness :
  Vocabulary.latest_with
    (fun q => CachedQuestion.normalized_text q = "Define a catalyst"%string)
    (Database.cached_scientific_questions Sample.db0)
    (Sample.question 3 "Define a catalyst" None 6 true).
Proof.
  apply (proj2 (proj2 (get_cached_question_by_text_latest 9
                         "Define a catalyst" Sample.db0))).
  reflexivity.
Defined.

(** ** Inserting, clearing and counting *)

Section StoreRoundTrips.

Import Database Vocabulary.

Lemma filter_app_bool {A : Type} (p : A -> bool) (l1 l2 : list A) :
  List.filter p (l1 ++ l2) = List.filter p l1 ++ List.filter p l2.
Proof. apply List.filter_app. Qed.

Lemma filter_length_split {A : Type} (p : A -> bool) (l : list A) :
  (length (List.filter p l) + length (List.filter (fun x => negb (p x)) l)
   = length l)%nat.
Proof.
  induction l as [|x l IH]; cbn [List.filter]; [reflexivity|].
  destruct (p x); cbn [negb length]; lia.
Qed.

Lemma filter_length_le {A : Type} (p : A -> bool) (l : list A) :
  (length (List.filter p l) <= length l)%nat.
Proof.
  pose proof (filter_length_split p l). lia.
Qed.

Lemma filter_fixed {A : Type} (p : A -> bool) (l : list A) :
  (forall x, x ∈ l -> p x = true) -> List.filter p l = l.
Proof.
  induction l as [|x l IH]; intros H; cbn [List.filter]; [reflexivity|].
  rewrite (H x) by constructor. f_equal. apply IH.
  intros y Hy. apply H. by constructor.
Qed.

Lemma filter_filter_other {A : Type} (p q : A -> bool) (l : list A) :
  (forall x, p x = true -> q x = true) ->
  List.filter p (List.filter q l) = List.filter p l.
Proof.
  intros H. induction l as [|x l IH]; [reflexivity|]. cbn [List.filter].
  destruct (q x) eqn:Eq; cbn [List.filter].
  - destruct (p x); [f_equal|]; exact IH.
  - destruct (p x) eqn:Ep; [|exact IH]. rewrite (H x Ep) in Eq.
    discriminate Eq.
Qed.

(** X12.  When the three texts and the image hash hold no code point 0,
    the hash has at most 64 characters, the metadata can be stored, and
    the next id of the sequence is an INTEGER that no row has,
    [cache_scientific_question] returns that id, and looking the id up
    with [get_cached_question_by_id] gives the row inserted: the given
    texts, embedding, hash and metadata, [times_used] 1, both timestamps
    now, not approved; looking up any other id gives what it gave before,
    and the sequence has advanced by one.  When a text holds the code
    point 0, when the hash is too long for its column, when the metadata
    cannot be stored, or when the next id is no INTEGER or is the id of a
    row, it returns nothing, and the rows and the interactions are as
    before. *)
Theorem cache_then_get_by_id (now : Z)
    (question_text normalized_text answer_text : string) (embedding : list Q)
    (image_hash : option string) (metadata : option (list (string * string)))
    (db : Db) :
  let r := cache_scientific_question now question_text normalized_text
             answer_text embedding image_hash metadata db in
  (sendable question_text = true -> sendable normalized_text = true ->
   sendable answer_text = true -> hash_accepted image_hash = true ->
   metadata_accepted metadata = true -> int4 (cached_id_seq db) = true ->
   (forall q, q ∈ cached_scientific_questions db ->
              CachedQuestion.id q <> cached_id_seq db) ->
   r.1 = Some (cached_id_seq db)
   /\ get_cached_question_by_id (cached_id_seq db) r.2
      = Some (CachedQuestion.Row (cached_id_seq db) question_text
                normalized_text answer_text (Some embedding) image_hash 1 now
                now (Some false) None None
                (if truthy_list metadata then metadata else None))
   /\ (forall i, i <> cached_id_seq db ->
         get_cached_question_by_id i r.2 = get_cached_question_by_id i db)
   /\ cached_id_seq r.2 = (cached_id_seq db + 1)%Z)
  /\ (sendable question_text = false \/ sendable normalized_text = false
      \/ sendable answer_text = false \/ hash_overlong image_hash
      \/ metadata_accepted metadata = false
      \/ int4 (cached_id_seq db) = false
      \/ (exists q, q ∈ cached_scientific_questions db
                    /\ CachedQuestion.id q = cached_id_seq db) ->
      r.1 = None
      /\ cached_scientific_questions r.2 = cached_scientific_questions db
      /\ interactions r.2 = interactions db).
Proof.
  cbn zeta.
  pose proof (cache_scientific_question_cases now question_text
                normalized_text answer_text embedding image_hash metadata db)
    as Hcases. cbn zeta in Hcases.
  destruct (cache_scientific_question now question_text normalized_text
              answer_text embedding image_hash metadata db) as [o db'] eqn:E.
  cbn [fst snd] in *. split.
  - intros S1 S2 S3 Hh Hm Hint Hfresh.
    destruct Hcases as [(Hnone & _) | ([= -> ->] & _)].
    + exfalso. subst o. unfold cache_scientific_question in E.
      rewrite S1, S2, S3, Hh, Hm, Hint in E. cbn [andb negb orb] in E.
      replace (existsb (has_id (cached_id_seq db))
                 (cached_scientific_questions db)) with false in E;
        [discriminate E|].
      symmetry. apply not_true_is_false. intros Hex.
      apply existsb_exists in Hex as (q & Hq & Hid).
      apply has_id_true in Hid. apply list_elem_of_In in Hq.
      exact (Hfresh q Hq Hid).
    + unfold get_cached_question_by_id.
      cbn [cached_scientific_questions cached_id_seq].
      split; [reflexivity|]. split; [|split; [|reflexivity]].
      * rewrite filter_app_bool.
        replace (List.filter (has_id (cached_id_seq db))
                   (cached_scientific_questions db))
          with (@nil CachedQuestion.t).
        -- cbn [app List.filter]. unfold has_id at 1.
           cbn [CachedQuestion.id]. rewrite Z.eqb_refl. reflexivity.
        -- symmetry. apply filter_nil_iff. intros q Hq. apply has_id_false.
           by apply Hfresh.
      * intros i Hi. rewrite filter_app_bool.
        cbn [List.filter]. unfold has_id at 2. cbn [CachedQuestion.id].
        destruct (Z.eqb_spec (cached_id_seq db) i) as [Ei|Ei]; [congruence|].
        rewrite app_nil_r. reflexivity.
  - intros Hbad.
    destruct Hcases as [(Hnone & Hrows & Hint & _)
                       | (_ & S1 & S2 & S3 & Hh & Hm & Hi & Hfresh)];
      [by repeat split|exfalso].
    destruct Hbad as [H|[H|[H|[H|[H|[H|H]]]]]]; try congruence.
    + destruct H as (h & c & -> & Hc & _). cbn in Hh.
      apply andb_true_iff in Hh as [_ Hlen]. apply Nat.leb_le in Hlen.
      rewrite drop_ge in Hc by exact Hlen. inversion Hc.
    + destruct H as (q & Hq & Hid). exact (Hfresh q Hq Hid).
Qed.

(** X13.  [delete_old_cache_entries] returns the number of rows by which
    the table shrinks.  The rows it keeps are exactly those last used no
    earlier than the given number of days ago, or used at least
    [min_usage] times, whether approved or not; the interactions are
    left as they are; and running it again with the same arguments at
    the same time deletes nothing. *)
Theorem delete_old_cache_entries_effect (now days min_usage : Z) (db : Db) :
  let r := delete_old_cache_entries now days min_usage db in
  (r.1 + length (cached_scientific_questions r.2)
   = length (cached_scientific_questions db))%nat
  /\ (forall q, q ∈ cached_scientific_questions r.2 <->
                q ∈ cached_scientific_questions db
                /\ (days_ago now days <= CachedQuestion.last_used q
                    \/ min_usage <= CachedQuestion.times_used q)%Z)
  /\ interactions r.2 = interactions db
  /\ delete_old_cache_entries now days min_usage r.2 = (0%nat, r.2).
Proof.
  cbn zeta. unfold delete_old_cache_entries. cbn [fst snd].
  cbn [cached_scientific_questions interactions cached_id_seq].
  split; [|split; [|split; [reflexivity|]]].
  - rewrite length_map. apply filter_length_split.
  - intros q. rewrite elem_of_filter_bool, negb_true_iff.
    unfold old_entry. rewrite andb_false_iff, !Z.ltb_ge. reflexivity.
  - set (kept := List.filter _ (cached_scientific_questions db)).
    assert (Hk : forall x, x ∈ kept -> old_entry now days min_usage x = false).
    { intros x Hx. apply elem_of_filter_bool in Hx as [_ Hx].
      by apply negb_true_iff. }
    f_equal.
    + rewrite length_map.
      rewrite (proj2 (filter_nil_iff _ _) Hk). reflexivity.
    + f_equal. apply filter_fixed. intros x Hx. rewrite (Hk x Hx). reflexivity.
Qed.

(** X14.  [delete_old_cache_entries] does not unlink: when it deletes
    the only row of an id, an interaction linked to that id is still in
    the table afterwards, linked as before, while
    [get_cached_question_by_id] finds nothing under the id. *)
Theorem delete_old_cache_entries_keeps_links (now days min_usage : Z) (db : Db)
    (q : CachedQuestion.t) (i : Interaction.t) :
  q ∈ cached_scientific_questions db ->
  (forall q', q' ∈ cached_scientific_questions db ->
              CachedQuestion.id q' = CachedQuestion.id q -> q' = q) ->
  old_entry now days min_usage q = true ->
  i ∈ interactions db ->
  Interaction.cached_question_id i = Some (CachedQuestion.id q) ->
  let r := delete_old_cache_entries now days min_usage db in
  get_cached_question_by_id (CachedQuestion.id q) r.2 = None
  /\ i ∈ interactions r.2.
Proof.
  intros Hq Huniq Hold Hi Hlink. cbn zeta.
  unfold delete_old_cache_entries, get_cached_question_by_id.
  cbn [fst snd cached_scientific_questions interactions].
  split; [|exact Hi].
  replace (List.filter (has_id (CachedQuestion.id q)) _)
    with (@nil CachedQuestion.t); [reflexivity|].
  symmetry. apply filter_nil_iff. intros x Hx.
  apply elem_of_filter_bool in Hx as [Hx Hkeep].
  apply has_id_false. intros E. rewrite (Huniq x Hx E) in Hkeep.
  rewrite Hold in Hkeep. discriminate Hkeep.
Qed.

Lemma sum_times_used_bound (rows : list CachedQuestion.t) :
  (forall q, q ∈ rows -> (1 <= CachedQuestion.times_used q)%Z) ->
  (Z.of_nat (length rows)
   <= foldr (fun r s => CachedQuestion.times_used r + s) 0 rows)%Z.
Proof.
  induction rows as [|x rows IH]; intros H; cbn [foldr length]; [lia|].
  assert (H1 : (1 <= CachedQuestion.times_used x)%Z) by (apply H; constructor).
  assert (H2 : (Z.of_nat (length rows)
                <= foldr (fun r s => CachedQuestion.times_used r + s) 0 rows)%Z).
  { apply IH. intros q Hq. apply H. by constructor. }
  lia.
Qed.

Lemma insert_by_times_used_length (r : CachedQuestion.t)
    (l : list CachedQuestion.t) :
  length (insert_by_times_used r l) = S (length l).
Proof.
  induction l as [|y l IH]; cbn [insert_by_times_used length]; [reflexivity|].
  destruct (_ <=? _)%Z; cbn [length]; [reflexivity|]. by rewrite IH.
Qed.

(** X15.  In the statistics of [get_cache_statistics] the number of
    corrected rows is at most the number of rows, and the list of top
    questions has five entries or as many as there are rows.  On an
    empty table the hits and the hit rate are 0.  When every row counts
    at least one use, as every row does from its insertion on, the hits
    are at least the number of rows, so the hit rate of a table that is
    not empty is at least 1. *)
Theorem cache_statistics_bounds (db : Db) :
  let s := get_cache_statistics db in
  total_cached s = length (cached_scientific_questions db)
  /\ (corrected_count s <= total_cached s)%nat
  /\ length (top_questions s) = Nat.min 5 (total_cached s)
  /\ (cached_scientific_questions db = [] ->
      total_hits s = 0%Z /\ hit_rate s = 0)
  /\ ((forall q, q ∈ cached_scientific_questions db ->
                 (1 <= CachedQuestion.times_used q)%Z) ->
      (Z.of_nat (total_cached s) <= total_hits s)%Z
      /\ (cached_scientific_questions db <> [] -> 1 <= hit_rate s)).
Proof.
  cbn zeta. unfold get_cache_statistics.
  cbn [total_cached corrected_count top_questions total_hits hit_rate].
  split; [reflexivity|]. split; [apply filter_length_le|].
  split; [|split].
  - rewrite length_map, length_take.
    unfold order_by_times_used_desc.
    f_equal. induction (cached_scientific_questions db) as [|x l IH];
      [reflexivity|]. cbn [foldr length].
    by rewrite insert_by_times_used_length, IH.
  - intros ->. cbn. split; reflexivity.
  - intros Hused.
    pose proof (sum_times_used_bound _ Hused) as Hsum.
    split; [exact Hsum|]. intros Hne.
    destruct (cached_scientific_questions db) as [|x l] eqn:E;
      [contradiction|].
    change (0 <? length (x :: l))%nat with true. cbn match.
    apply Qle_shift_div_l.
    + rewrite <- (Zlt_Qlt 0). cbn [length]. lia.
    + rewrite Qmult_1_l. rewrite <- Zle_Qle. exact Hsum.
Qed.

End StoreRoundTrips.

Lemma sample_rows (P : CachedQuestion.t -> Prop) :
  P (Sample.question 1 "What is the oxidation state of Fe in Fe2O3?"
       (Some "abc123"%string) 5 true) ->
  P (Sample.question 2 "Explain NaCl solubility" (Some "ffee00"%string) 7
       false) ->
  P (Sample.question 3 "Define a catalyst" None 6 true) ->
  forall q, q ∈ Database.cached_scientific_questions Sample.db0 -> P q.
Proof.
  intros H1 H2 H3 q Hq. apply list_elem_of_In in Hq. cbn in Hq.
  destruct Hq as [<-|[<-|[<-|[]]]]; assumption.
Qed.

Lemma cache_then_get_by_id_witness :
  Database.get_cached_question_by_id 4
    (Database.cache_scientific_question 9 "What is pH?" "what ph" "7" [1; 0]
       None None Sample.db0).2
  = Some (CachedQuestion.Row 4 "What is pH?" "what ph" "7" (Some [1; 0]) None
            1 9 9 (Some false) None None None).
Proof.
  apply (cache_then_get_by_id 9 "What is pH?" "what ph" "7" [1; 0] None None
           Sample.db0); try reflexivity.
  apply sample_rows; discriminate.
Defined.

(** Ninety days after the rows of the sample store were last used,
    question 1 is cleared and interaction 10 still points to it. *)
Lemma delete_old_cache_entries_keeps_links_witness :
  Database.get_cached_question_by_id 1
    (Database.delete_old_cache_entries 8000000 90 3 Sample.db0).2 = None
  /\ Sample.interaction 10 (Some 1%Z)
     ∈ Database.interactions
         (Database.delete_old_cache_entries 8000000 90 3 Sample.db0).2.
Proof.
  apply (delete_old_cache_entries_keeps_links 8000000 90 3 Sample.db0
           (Sample.question 1 "What is the oxidation state of Fe in Fe2O3?"
              (Some "abc123"%string) 5 true)
           (Sample.interaction 10 (Some 1%Z))).
  - left.
  - apply (sample_rows (fun q' => CachedQuestion.id q' = 1%Z -> q' = _));
      [reflexivity | discriminate | discriminate].
  - reflexivity.
  - left.
  - reflexivity.
Defined.

(** ** Corrections on the interactions table *)

Section InteractionProperties.

Import Database AdminDashboard.


(** X17.  [delete_interaction_by_id] returns true exactly when an
    interaction has the id.  Afterwards [get_interaction_by_id] finds
    nothing under the id and what it found before under every other id,
    a second deletion returns false and changes nothing, and the cache
    table is as before. *)
Theorem delete_interaction_by_id_effect (interaction_id : Z) (db : Db) :
  let r := delete_interaction_by_id interaction_id db in
  (r.1 = true <->
     exists x, x ∈ interactions db /\ Interaction.id x = interaction_id)
  /\ get_interaction_by_id interaction_id r.2 = None
  /\ (forall j, j <> interaction_id ->
        get_interaction_by_id j r.2 = get_interaction_by_id j db)
  /\ delete_interaction_by_id interaction_id r.2 = (false, r.2)
  /\ cached_scientific_questions r.2 = cached_scientific_questions db.
Proof.
  cbn zeta. unfold delete_interaction_by_id, get_interaction_by_id.
  cbn [fst snd interactions cached_scientific_questions cached_id_seq].
  set (kept := List.filter (fun i => negb (has_interaction_id interaction_id i))
                 (interactions db)).
  assert (Hk : List.filter (has_interaction_id interaction_id) kept = []).
  { apply filter_nil_iff. intros x Hx.
    apply elem_of_filter_bool in Hx as [_ Hx]. by apply negb_true_iff. }
  split; [|split; [|split; [|split; [|reflexivity]]]].
  - rewrite Nat.ltb_lt. split.
    + destruct (List.filter (has_interaction_id interaction_id)
                  (interactions db)) as [|y l] eqn:E;
        cbn; [lia|]. intros _. exists y.
      assert (Hy : y ∈ List.filter (has_interaction_id interaction_id)
                     (interactions db)) by (rewrite E; constructor).
      apply elem_of_filter_bool in Hy as [Hy Hid]. split; [exact Hy|].
      by apply Z.eqb_eq.
    + intros (x & Hx & Hid).
      assert (Hy : x ∈ List.filter (has_interaction_id interaction_id)
                     (interactions db)).
      { apply elem_of_filter_bool. split; [exact Hx|]. by apply Z.eqb_eq. }
      destruct (List.filter (has_interaction_id interaction_id)
                  (interactions db)); [inversion Hy | cbn; lia].
  - rewrite Hk. reflexivity.
  - intros j Hj. f_equal. subst kept. apply filter_filter_other.
    intros x Hx. apply Z.eqb_eq in Hx. apply negb_true_iff, Z.eqb_neq.
    congruence.
  - rewrite Hk. cbn [length]. f_equal. f_equal.
    apply filter_fixed. intros x Hx.
    pose proof (proj1 (filter_nil_iff _ _) Hk x Hx) as Hf. by rewrite Hf.
Qed.



(** X19.  [update_interaction_feedback] stores a feedback that is an
    INTEGER (from -2147483648 to 2147483647): it sets the feedback of the
    interactions with the id and leaves every id, correction flag,
    corrected text and link as it is; for a feedback outside that range
    it raises and stores nothing.  A correction (with a text the driver
    can send) resets the feedback: correcting an interaction after a
    stored vote on it leaves the store as correcting it without the vote
    does, and setting the feedback to 0 after a correction changes
    nothing. *)
Theorem correction_resets_feedback (interaction_id feedback : Z)
    (corrected_text : string) (db : Db) :
  sendable corrected_text = true ->
  let corrected :=
    update_interaction_correction interaction_id corrected_text db in
  (int4 feedback = true ->
     exists voted,
       update_interaction_feedback interaction_id feedback db = Some voted
       /\ update_interaction_correction interaction_id corrected_text voted
          = corrected
       /\ (forall x, x ∈ interactions voted ->
             Interaction.id x = interaction_id ->
             Interaction.user_feedback x = feedback)
       /\ map (fun x => (Interaction.id x, Interaction.is_corrected x,
                         Interaction.corrected_text x,
                         Interaction.cached_question_id x))
            (interactions voted)
          = map (fun x => (Interaction.id x, Interaction.is_corrected x,
                           Interaction.corrected_text x,
                           Interaction.cached_question_id x))
              (interactions db))
  /\ (int4 feedback = false ->
      update_interaction_feedback interaction_id feedback db = None)
  /\ update_interaction_feedback interaction_id 0 corrected = Some corrected.
Proof.
  intros _. cbn zeta.
  unfold update_interaction_correction, update_interaction_feedback.
  split; [|split].
  - intros ->. eexists. split; [reflexivity|].
    cbn [interactions cached_scientific_questions cached_id_seq].
    unfold update_where. split; [|split].
    + f_equal. rewrite map_map. apply map_ext. intros x.
      destruct (has_interaction_id interaction_id x) eqn:E.
      * change (has_interaction_id interaction_id (set_feedback feedback x))
          with (has_interaction_id interaction_id x). rewrite E. reflexivity.
      * rewrite E. reflexivity.
    + intros x Hx Hi. apply list_elem_of_fmap in Hx as (y & -> & Hy).
      revert Hi.
      destruct (has_interaction_id interaction_id y) eqn:E; [reflexivity|].
      intros Hi. apply Z.eqb_neq in E. contradiction.
    + rewrite map_map. apply map_ext. intros x.
      destruct (has_interaction_id interaction_id x); reflexivity.
  - intros ->. reflexivity.
  - change (int4 0) with true. cbn match.
    cbn [interactions cached_scientific_questions cached_id_seq].
    unfold update_where. do 2 f_equal. rewrite map_map. apply map_ext.
    intros x. destruct (has_interaction_id interaction_id x) eqn:E.
    + change (has_interaction_id interaction_id
                (set_correction corrected_text x))
        with (has_interaction_id interaction_id x). rewrite E. reflexivity.
    + rewrite E. reflexivity.
Qed.

(** X20.  An interaction approved with [mark_interaction_as_approved]
    (which reports whether the id exists) and linked to a cached question
    with [link_correction_to_cache] is marked corrected, with the bot's
    own response as corrected text and feedback 1.  When the cached
    question is then deleted with [delete_cached_question], the deletion
    succeeds and the interaction is left unlinked, not corrected and
    without corrected text, while its feedback stays 1. *)
Theorem approval_lost_on_delete (interaction_id cached_id : Z) (db : Db) :
  (exists q, q ∈ cached_scientific_questions db
             /\ CachedQuestion.id q = cached_id) ->
  let a := mark_interaction_as_approved interaction_id db in
  let db2 := link_correction_to_cache interaction_id cached_id a.2 in
  let r := delete_cached_question cached_id db2 in
  (a.1 = true <->
     exists x, x ∈ interactions db /\ Interaction.id x = interaction_id)
  /\ (forall x, x ∈ interactions db2 -> Interaction.id x = interaction_id ->
        Interaction.is_corrected x = Some true
        /\ Interaction.corrected_text x = Some (Interaction.bot_response x)
        /\ Interaction.user_feedback x = 1%Z
        /\ Interaction.cached_question_id x = Some cached_id)
  /\ success r.1 = true
  /\ (forall x, x ∈ interactions r.2 -> Interaction.id x = interaction_id ->
        Interaction.is_corrected x = Some false
        /\ Interaction.corrected_text x = None
        /\ Interaction.cached_question_id x = None
        /\ Interaction.user_feedback x = 1%Z).
Proof.
  intros (q & Hq & Hid). cbn zeta.
  unfold mark_interaction_as_approved, link_correction_to_cache.
  cbn [fst snd interactions cached_scientific_questions cached_id_seq].
  split; [|split; [|split]].
  - rewrite Nat.ltb_lt. split.
    + destruct (List.filter (has_interaction_id interaction_id)
                  (interactions db)) as [|y l] eqn:E; cbn; [lia|].
      intros _. exists y.
      assert (Hy : y ∈ List.filter (has_interaction_id interaction_id)
                     (interactions db)) by (rewrite E; constructor).
      apply elem_of_filter_bool in Hy as [Hy Hi]. split; [exact Hy|].
      by apply Z.eqb_eq.
    + intros (x & Hx & Hi).
      assert (Hy : x ∈ List.filter (has_interaction_id interaction_id)
                     (interactions db)).
      { apply elem_of_filter_bool. split; [exact Hx|]. by apply Z.eqb_eq. }
      destruct (List.filter (has_interaction_id interaction_id)
                  (interactions db)); [inversion Hy | cbn; lia].
  - intros x Hx Hi. unfold update_where in Hx. rewrite map_map in Hx.
    apply list_elem_of_fmap in Hx as (y & -> & Hy). revert Hi.
    destruct (has_interaction_id interaction_id y) eqn:E.
    + change (has_interaction_id interaction_id (set_approved y))
        with (has_interaction_id interaction_id y). rewrite E.
      intros _. cbn. by repeat split.
    + rewrite E. intros Hi. apply Z.eqb_neq in E. contradiction.
  - unfold delete_cached_question.
    cbn [cached_scientific_questions].
    assert (Hf : q ∈ List.filter (has_id cached_id)
                   (cached_scientific_questions db)).
    { apply elem_of_filter_bool. split; [exact Hq | by apply has_id_true]. }
    destruct (List.filter (has_id cached_id) (cached_scientific_questions db));
      [inversion Hf | reflexivity].
  - unfold delete_cached_question.
    cbn [cached_scientific_questions interactions].
    assert (Hf : q ∈ List.filter (has_id cached_id)
                   (cached_scientific_questions db)).
    { apply elem_of_filter_bool. split; [exact Hq | by apply has_id_true]. }
    destruct (List.filter (has_id cached_id) (cached_scientific_questions db));
      [inversion Hf|]. cbn [snd interactions].
    intros x Hx Hi. unfold update_where in Hx. rewrite !map_map in Hx.
    apply list_elem_of_fmap in Hx as (y & -> & Hy). revert Hi.
    destruct (has_interaction_id interaction_id y) eqn:E.
    + change (has_interaction_id interaction_id (set_approved y))
        with (has_interaction_id interaction_id y). rewrite E.
      change (linked_to cached_id (set_link cached_id (set_approved y)))
        with (bool_decide (Some cached_id = Some cached_id)).
      rewrite bool_decide_eq_true_2 by reflexivity.
      intros _. cbn. by repeat split.
    + rewrite E. intros Hi. exfalso. apply Z.eqb_neq in E. apply E.
      destruct (linked_to cached_id y); exact Hi.
Qed.

End InteractionProperties.

(** A vote of 1 on interaction 10, then a correction; and a feedback of
    2^31, which is not stored. *)
Lemma correction_resets_feedback_witness :
  (exists voted,
     Database.update_interaction_feedback 10 1 Sample.db0 = Some voted
     /\ Database.update_interaction_correction 10 "Fe is +3" voted
        = Database.update_interaction_correction 10 "Fe is +3" Sample.db0)
  /\ Database.update_interaction_feedback 10 2147483648 Sample.db0 = None.
Proof.
  split.
  - destruct (proj1 (correction_resets_feedback 10 1 "Fe is +3" Sample.db0
                       eq_refl) eq_refl) as (voted & H1 & H2 & _).
    exists voted. split; [exact H1 | exact H2].
  - apply (proj1 (proj2 (correction_resets_feedback 10 2147483648 "Fe is +3"
                           Sample.db0 eq_refl))).
    reflexivity.
Defined.

Lemma approval_lost_on_delete_witness :
  AdminDashboard.success
    (AdminDashboard.delete_cached_question 1
       (Database.link_correction_to_cache 13 1
          (Database.mark_interaction_as_approved 13 Sample.db0).2)).1 = true.
Proof.
  apply (approval_lost_on_delete 13 1 Sample.db0).
  exists (Sample.question 1 "What is the oxidation state of Fe in Fe2O3?"
            (Some "abc123"%string) 5 true).
  split; [left | reflexivity].
Defined.

(** ** An invariant of the cache table *)

Section StoreInvariant.

Import Database AdminDashboard Vocabulary.

Lemma store_ok_update (p : CachedQuestion.t -> bool)
    (f : CachedQuestion.t -> CachedQuestion.t) (db : Db)
    (inter : list Interaction.t) :
  (forall q, CachedQuestion.id (f q) = CachedQuestion.id q) ->
  (forall q, (CachedQuestion.times_used q <= CachedQuestion.times_used (f q))%Z) ->
  store_ok db ->
  store_ok (MkDb (update_where p f (cached_scientific_questions db)) inter
              (cached_id_seq db)).
Proof.
  intros Hid Hused (Hnd & Hlt & Hge).
  assert (Hids : map CachedQuestion.id
                   (update_where p f (cached_scientific_questions db))
                 = map CachedQuestion.id (cached_scientific_questions db)).
  { unfold update_where. rewrite map_map. apply map_ext. intros q.
    destruct (p q); [apply Hid | reflexivity]. }
  unfold store_ok. cbn [cached_scientific_questions cached_id_seq].
  split; [by rewrite Hids|]. split.
  - intros q Hq. unfold update_where in Hq.
    apply list_elem_of_fmap in Hq as (x & -> & Hx).
    destruct (p x); [rewrite Hid|]; by apply Hlt.
  - intros q Hq. unfold update_where in Hq.
    apply list_elem_of_fmap in Hq as (x & -> & Hx).
    destruct (p x); [|by apply Hge].
    specialize (Hge x Hx). specialize (Hused x). lia.
Qed.

Lemma NoDup_ids_filter {A B : Type} (g : A -> B) (p : A -> bool) (l : list A) :
  NoDup (map g l) -> NoDup (map g (List.filter p l)).
Proof.
  induction l as [|x l IH]; cbn [map List.filter]; [done|].
  intros H. apply NoDup_cons in H as [Hx Hl].
  destruct (p x); cbn [map]; [|by apply IH].
  apply NoDup_cons. split; [|by apply IH].
  intros Hin. apply Hx. apply list_elem_of_fmap in Hin as (y & -> & Hy).
  apply elem_of_filter_bool in Hy as [Hy _].
  apply list_elem_of_fmap. by exists y.
Qed.

Lemma store_ok_filter (p : CachedQuestion.t -> bool) (db : Db)
    (inter : list Interaction.t) :
  store_ok db ->
  store_ok (MkDb (List.filter p (cached_scientific_questions db)) inter
              (cached_id_seq db)).
Proof.
  intros (Hnd & Hlt & Hge). unfold store_ok.
  cbn [cached_scientific_questions cached_id_seq].
  split; [by apply NoDup_ids_filter|]. split.
  - intros q Hq. apply elem_of_filter_bool in Hq as [Hq _]. by apply Hlt.
  - intros q Hq. apply elem_of_filter_bool in Hq as [Hq _]. by apply Hge.
Qed.

(** X21.  On a store where the ids of the cache table are distinct and
    below the next value of the sequence, and every row counts at least
    one use, that is still so after [cache_scientific_question], after
    either lookup by column with its usage bump, after
    [update_cached_question_answer], after [delete_old_cache_entries]
    and after [delete_cached_question]. *)
Theorem store_ok_kept (db : Db) :
  store_ok db ->
  (forall now question_text normalized_text answer_text embedding image_hash
          metadata,
     store_ok (cache_scientific_question now question_text normalized_text
                 answer_text embedding image_hash metadata db).2)
  /\ (forall now image_hash,
        store_ok (get_cached_question_by_image_hash now image_hash db).2)
  /\ (forall now normalized_text,
        store_ok (get_cached_question_by_text now normalized_text db).2)
  /\ (forall now cached_id new_answer correction_source,
        store_ok (update_cached_question_answer now cached_id new_answer
                    correction_source db).2)
  /\ (forall now days min_usage,
        store_ok (delete_old_cache_entries now days min_usage db).2)
  /\ (forall cached_id, store_ok (delete_cached_question cached_id db).2).
Proof.
  intros Hok. split; [|split; [|split; [|split; [|split]]]].
  - intros. destruct Hok as (Hnd & Hlt & Hge).
    destruct (cache_scientific_question_cases now question_text
                normalized_text answer_text embedding image_hash metadata db)
      as [(_ & Hrows & _ & Hseq) | (-> & _)].
    { unfold store_ok. rewrite Hrows. split; [exact Hnd|]. split.
      - intros q Hq. specialize (Hlt q Hq). lia.
      - exact Hge. }
    unfold store_ok.
    cbn [snd cached_scientific_questions cached_id_seq].
    split; [|split].
    + rewrite map_app. cbn [map CachedQuestion.id].
      apply NoDup_app. split; [exact Hnd|]. split; [|apply NoDup_singleton].
      intros i Hi Hs. apply list_elem_of_singleton in Hs as ->.
      apply list_elem_of_fmap in Hi as (q & Hq & Hin).
      specialize (Hlt q Hin). lia.
    + intros q Hq. apply elem_of_app in Hq as [Hq | Hq].
      * specialize (Hlt q Hq). lia.
      * apply list_elem_of_singleton in Hq as ->. cbn. lia.
    + intros q Hq. apply elem_of_app in Hq as [Hq | Hq]; [by apply Hge|].
      apply list_elem_of_singleton in Hq as ->. cbn. lia.
  - intros. unfold get_cached_question_by_image_hash.
    destruct (order_by_last_used_desc _); [exact Hok|]. cbn [snd].
    apply store_ok_update; [reflexivity | | exact Hok].
    intros q. cbn. lia.
  - intros. unfold get_cached_question_by_text.
    destruct (order_by_last_used_desc _); [exact Hok|]. cbn [snd].
    apply store_ok_update; [reflexivity | | exact Hok].
    intros q. cbn. lia.
  - intros. unfold update_cached_question_answer. cbn [snd].
    apply store_ok_update; [reflexivity | | exact Hok].
    intros q. cbn. lia.
  - intros. unfold delete_old_cache_entries. cbn [snd].
    by apply store_ok_filter.
  - intros. unfold delete_cached_question.
    destruct (List.filter (has_id cached_id) _); [exact Hok|]. cbn [snd].
    by apply store_ok_filter.
Qed.

End StoreInvariant.

Lemma sample_store_ok : Vocabulary.store_ok Sample.db0.
Proof.
  split; [|split].
  - cbn. repeat (apply NoDup_cons; split;
                 [rewrite ?elem_of_cons, elem_of_nil; intros H;
                  repeat (destruct H as [H|H]; [discriminate H|]); exact H|]).
    apply NoDup_nil_2.
  - apply sample_rows; reflexivity.
  - apply sample_rows; discriminate.
Qed.

Lemma store_ok_kept_witness :
  Vocabulary.store_ok
    (Database.delete_old_cache_entries 8000000 90 3 Sample.db0).2
  /\ Vocabulary.store_ok
       (Database.get_cached_question_by_image_hash 9 "abc123" Sample.db0).2.
Proof.
  split.
  - apply (store_ok_kept Sample.db0 sample_store_ok).
  - apply (store_ok_kept Sample.db0 sample_store_ok).
Defined.

(** ** What a search does to the store, and where a hit comes from *)

Section EngineEffects.

Variable ratio : string -> string -> Q.
Variable np_dot : list Q -> list Q -> option Float64.number.
Variable np_norm : list Q -> Float64.number.

Import Database Dedup Vocabulary.

Lemma update_where_usage (now i : Z) (rows : list CachedQuestion.t) :
  Forall2 (usage_only now) rows
    (update_where (has_id i) (bump_usage now) rows).
Proof.
  unfold update_where. induction rows as [|x rows IH]; cbn [map];
    constructor; [|exact IH].
  destruct (has_id i x); [by right | by left].
Qed.

Lemma usage_only_refl (now : Z) (rows : list CachedQuestion.t) :
  Forall2 (usage_only now) rows rows.
Proof. induction rows; constructor; [by left | assumption]. Qed.

Lemma usage_only_elem (now : Z) (rows rows' : list CachedQuestion.t)
    (q : CachedQuestion.t) :
  Forall2 (usage_only now) rows rows' -> q ∈ rows' ->
  exists q0, q0 ∈ rows /\ usage_only now q0 q.
Proof.
  induction 1 as [|x y rows rows' Hxy _ IH]; intros Hq; [inversion Hq|].
  apply elem_of_cons in Hq as [-> | Hq].
  - exists x. split; [constructor | exact Hxy].
  - destruct (IH Hq) as (q0 & Hq0 & Hu). exists q0. split; [by constructor|].
    exact Hu.
Qed.

Lemma fetch_by_hash_store (now : Z) (image_hash : option string) (db : Db) :
  let f := fetch_by_hash now image_hash db in
  Forall2 (usage_only now) (cached_scientific_questions db)
    (cached_scientific_questions f.2)
  /\ interactions f.2 = interactions db
  /\ cached_id_seq f.2 = cached_id_seq db
  /\ (truthy_str image_hash = false -> f.2 = db)
  /\ (forall q, f.1 = Some q ->
        q ∈ cached_scientific_questions db
        /\ truthy_str image_hash = true).
Proof.
  cbn zeta. unfold fetch_by_hash, truthy_str.
  destruct image_hash as [h|];
    [|split; [apply usage_only_refl | repeat split; discriminate]].
  case_bool_decide as Hh; cbn [negb orb];
    [split; [apply usage_only_refl | repeat split; discriminate]|].
  destruct (sendable h); cbn [negb];
    [|split; [apply usage_only_refl | repeat split; discriminate]].
  unfold get_cached_question_by_image_hash.
  pose proof (fetch_latest
    (fun r => bool_decide (CachedQuestion.image_hash r = Some h))
    (cached_scientific_questions db)) as H.
  destruct (order_by_last_used_desc _) as [|row l'].
  - split; [apply usage_only_refl | repeat split; discriminate].
  - cbn [fst snd cached_scientific_questions interactions cached_id_seq].
    split; [apply update_where_usage|]. split; [reflexivity|].
    split; [reflexivity|]. split; [discriminate|].
    intros q [= <-]. split; [apply H | reflexivity].
Qed.

(** The store after a search is the store after the fetch of layer 1. *)
Lemma find_similar_question_store
    (self : EnhancedQuestionDeduplicator) (now : Z) (question_text : string)
    (image_hash : option string) (w : world) :
  store (find_similar_question ratio np_dot np_norm self now question_text
           image_hash w).2
  = match embeddings self with
    | Some _ => (fetch_by_hash now image_hash (store w)).2
    | None => store w
    end.
Proof.
  unfold find_similar_question.
  destruct (embeddings self) as [client|]; [|reflexivity].
  rewrite image_hash_layer_fetch.
  destruct (hash_refused image_hash) eqn:Hr.
  { unfold hash_refused, truthy_str in Hr. unfold fetch_by_hash.
    destruct image_hash as [h|]; [|discriminate Hr].
    cbn [default from_option id] in Hr.
    apply andb_true_iff in Hr as [_ ->]. by rewrite orb_true_r. }
  cbn zeta.
  destruct (fetch_by_hash now image_hash (store w)) as [f db]. cbn [fst snd].
  destruct (match f with
            | Some q => if approved q then Some q else None
            | None => None
            end); [reflexivity|].
  destruct (signature_layer _ _ _) as [bm bs].
  destruct (Qgeb bs HIGH_CONFIDENCE_THRESHOLD); [reflexivity|].
  destruct (Qgeb bs MEDIUM_CONFIDENCE_THRESHOLD); [reflexivity|].
  destruct (client question_text) as [e|]; [|reflexivity].
  destruct (semantic_layer _ _ _ _) as [[sm ss]|]; [|reflexivity].
  destruct (Float64.at_least ss _); reflexivity.
Qed.

(** An entry kept by the loop of layer 3 was kept before or is an
    approved entry of the pool. *)
Lemma semantic_loop_elem (e : list Q) (pool : list CachedQuestion.t)
    (best : option CachedQuestion.t * Float64.number)
    (q : CachedQuestion.t) (s : Float64.number) :
  semantic_loop np_dot np_norm e pool best = Some (Some q, s) ->
  best.1 = Some q \/ (q ∈ pool /\ approved q = true).
Proof.
  revert best. induction pool as [|a pool IH]; intros best;
    cbn [semantic_loop].
  - intros [= ->]. by left.
  - destruct (semantic_step np_dot np_norm e best a) as [b1|] eqn:E;
      [|discriminate].
    intros H. destruct (IH b1 H) as [Hb | [Hq Ha]];
      [|right; split; [by constructor | exact Ha]].
    unfold semantic_step in E.
    destruct (approved a) eqn:Ha; cbn [negb orb] in E;
      [|injection E as <-; by left].
    destruct (negb _); [injection E as <-; by left|].
    destruct (_compute_cosine_similarity _ _ _ _) as [sim|]; [|discriminate E].
    destruct (Float64.greater sim best.2); injection E as <-; [|by left].
    cbn [fst] in Hb. injection Hb as <-. right. split; [constructor | exact Ha].
Qed.

Lemma get_recent_cached_questions_elem (limit : nat) (db : Db)
    (q : CachedQuestion.t) :
  q ∈ get_recent_cached_questions limit db -> q ∈ cached_scientific_questions db.
Proof.
  unfold get_recent_cached_questions. intros H.
  apply elem_of_take in H as (n & H & _). apply list_elem_of_lookup_2 in H.
  by rewrite order_by_last_used_desc_perm in H.
Qed.

(** Where a hit comes from: the fetch by a non-empty image hash, or the
    pool read after it; it is approved. *)
Lemma find_similar_question_hit
    (self : EnhancedQuestionDeduplicator) (now : Z) (question_text : string)
    (image_hash : option string) (w w' : world) (q : CachedQuestion.t) :
  find_similar_question ratio np_dot np_norm self now question_text
    image_hash w = (Some q, w') ->
  approved q = true
  /\ ((q ∈ cached_scientific_questions (store w)
       /\ truthy_str image_hash = true)
      \/ q ∈ get_recent_cached_questions 200 (store w')).
Proof.
  intros H.
  pose proof (find_similar_question_store self now question_text image_hash w)
    as Hst. rewrite H in Hst. cbn [snd] in Hst. revert H.
  unfold find_similar_question.
  destruct (embeddings self) as [client|]; [|discriminate].
  rewrite image_hash_layer_fetch.
  destruct (hash_refused image_hash); [discriminate|]. cbn zeta.
  pose proof (fetch_by_hash_store now image_hash (store w))
    as (_ & _ & _ & Hno & Hin). cbn zeta in Hin, Hno.
  destruct (fetch_by_hash now image_hash (store w)) as [f db]. cbn [fst snd] in *.
  subst db.
  assert (Hlayers :
    forall r : option CachedQuestion.t * world,
      (let '(best_match, best_score) :=
         signature_layer ratio (_create_question_signature question_text)
           (get_recent_cached_questions 200 (store w')) in
       if Qgeb best_score HIGH_CONFIDENCE_THRESHOLD
       then (best_match, World (store w') (embed_calls w))
       else if Qgeb best_score MEDIUM_CONFIDENCE_THRESHOLD
       then (best_match, World (store w') (embed_calls w))
       else
         match client question_text with
         | None => (None, World (store w') (question_text :: embed_calls w))
         | Some question_embedding =>
             match semantic_layer np_dot np_norm question_embedding
                     (get_recent_cached_questions 200 (store w')) with
             | None =>
                 (None, World (store w') (question_text :: embed_calls w))
             | Some (best_semantic_match, best_semantic_score) =>
                 if Float64.at_least best_semantic_score
                      (Float64.Finite SEMANTIC_EMBEDDING_THRESHOLD)
                 then (best_semantic_match,
                       World (store w') (question_text :: embed_calls w))
                 else (None, World (store w') (question_text :: embed_calls w))
             end
         end) = (Some q, w') ->
      approved q = true
      /\ q ∈ get_recent_cached_questions 200 (store w')).
  { intros _. rewrite signature_layer_best.
    destruct (fold_left (best_step Qgtb approved _) _ _) as [bm bs] eqn:E2.
    assert (H2 : bm = Some q ->
                 approved q = true
                 /\ q ∈ get_recent_cached_questions 200 (store w')).
    { intros ->.
      apply (best_fold_elem Qgtb Qgeb 0 approved _ rational_comparison_laws)
        in E2 as [? ?]. by split. }
    destruct (Qgeb bs HIGH_CONFIDENCE_THRESHOLD);
      [intros [= Hq _]; by apply H2|].
    destruct (Qgeb bs MEDIUM_CONFIDENCE_THRESHOLD);
      [intros [= Hq _]; by apply H2|].
    destruct (client question_text) as [e|]; [|discriminate].
    unfold semantic_layer.
    destruct (semantic_loop np_dot np_norm e _ _) as [[sm ss]|] eqn:E3;
      [|discriminate].
    destruct (Float64.at_least ss _); [|discriminate].
    intros [= -> _]. apply semantic_loop_elem in E3 as [E3 | [Hq Ha]];
      [discriminate E3 | by split]. }
  destruct f as [q1|].
  - destruct (approved q1) eqn:Ha.
    + intros [= <- _]. split; [exact Ha|]. left. by apply Hin.
    + intros H. destruct (Hlayers (Some q, w') H) as [? ?]. split; [|right]; done.
  - intros H. destruct (Hlayers (Some q, w') H) as [? ?]. split; [|right]; done.
Qed.

Lemma find_similar_question_read_only
    (self : EnhancedQuestionDeduplicator) (now : Z) (question_text : string)
    (image_hash : option string) (w : world) :
  truthy_str image_hash = false ->
  store (find_similar_question ratio np_dot np_norm self now question_text
           image_hash w).2 = store w.
Proof.
  intros Hh. rewrite find_similar_question_store.
  destruct (embeddings self); [|reflexivity].
  pose proof (fetch_by_hash_store now image_hash (store w))
    as (_ & _ & _ & Hsame & _). exact (Hsame Hh).
Qed.

(** X22.  [find_similar_question] never adds, removes or reorders a row
    of the cache table and never changes a text, an answer, an embedding
    or an approval: row by row the table afterwards holds the same row
    or that row with its usage bumped.  The interactions and the
    sequence are as before, and without image hash (none given, or the
    empty string) the whole store is as before. *)
Theorem find_similar_question_store_effect
    (self : EnhancedQuestionDeduplicator) (now : Z) (question_text : string)
    (image_hash : option string) (w : world) :
  let r := find_similar_question ratio np_dot np_norm self now question_text
             image_hash w in
  Forall2 (usage_only now) (cached_scientific_questions (store w))
    (cached_scientific_questions (store r.2))
  /\ interactions (store r.2) = interactions (store w)
  /\ cached_id_seq (store r.2) = cached_id_seq (store w)
  /\ (truthy_str image_hash = false -> store r.2 = store w).
Proof.
  cbn zeta. rewrite find_similar_question_store.
  destruct (embeddings self) as [client|].
  - pose proof (fetch_by_hash_store now image_hash (store w)) as H.
    cbn zeta in H. destruct H as (H1 & H2 & H3 & H4 & _). by repeat split.
  - split; [apply usage_only_refl | by repeat split].
Qed.

Lemma find_similar_question_origin
    (self : EnhancedQuestionDeduplicator) (now : Z) (question_text : string)
    (image_hash : option string) (w w' : world) (q : CachedQuestion.t) :
  find_similar_question ratio np_dot np_norm self now question_text
    image_hash w = (Some q, w') ->
  approved q = true
  /\ exists q0, q0 ∈ cached_scientific_questions (store w)
                /\ usage_only now q0 q.
Proof.
  intros H.
  pose proof (find_similar_question_store self now question_text image_hash w)
    as Hst.
  pose proof (fetch_by_hash_store now image_hash (store w)) as (Hrows & _).
  cbn zeta in Hrows. rewrite H in Hst. cbn [snd] in Hst.
  apply find_similar_question_hit in H as [Ha [[Hq _] | Hq]].
  - split; [exact Ha|]. exists q. split; [exact Hq | by left].
  - split; [exact Ha|]. apply get_recent_cached_questions_elem in Hq.
    rewrite Hst in Hq. destruct (embeddings self).
    + eapply usage_only_elem; eassumption.
    + exists q. split; [exact Hq | by left].
Qed.

(** X23.  An entry returned by [find_similar_question] is a row of the
    cache table as the call found it, or that row with its usage bumped:
    its id, question, answer, embedding, hash and approval are those of
    a stored row. *)
Theorem find_similar_question_hit_is_stored
    (self : EnhancedQuestionDeduplicator) (now : Z) (question_text : string)
    (image_hash : option string) (w : world) (q : CachedQuestion.t) :
  (find_similar_question ratio np_dot np_norm self now question_text
     image_hash w).1 = Some q ->
  exists q0, q0 ∈ cached_scientific_questions (store w)
             /\ usage_only now q0 q.
Proof.
  destruct (find_similar_question _ _ _ _ _ _ _ _) as [o w'] eqn:E.
  cbn [fst]. intros ->. by apply find_similar_question_origin in E as [_ ?].
Qed.

(** X24.  Without image hash, an entry returned by
    [find_similar_question] is approved and is one of the 200 most
    recently used rows of the table: a row outside that pool cannot be
    matched by its text or its embedding, however similar. *)
Theorem find_similar_question_within_pool
    (self : EnhancedQuestionDeduplicator) (now : Z) (question_text : string)
    (image_hash : option string) (w : world) (q : CachedQuestion.t) :
  truthy_str image_hash = false ->
  (find_similar_question ratio np_dot np_norm self now question_text
     image_hash w).1 = Some q ->
  q ∈ get_recent_cached_questions 200 (store w)
  /\ CachedQuestion.is_corrected q = Some true.
Proof.
  intros Hh.
  pose proof (find_similar_question_read_only self now question_text
                image_hash w Hh) as Hw.
  destruct (find_similar_question _ _ _ _ _ _ _ _) as [o w'] eqn:E.
  cbn [fst snd] in *. intros ->.
  apply find_similar_question_hit in E as [Ha [[_ Hf] | Hq]];
    [congruence|].
  rewrite Hw in Hq. split; [exact Hq | by apply approved_is_corrected].
Qed.

Lemma cache_question_rows (self : EnhancedQuestionDeduplicator) (now : Z)
    (question_text answer_text : string) (image_hash : option string)
    (metadata : option (list (string * string))) (w : world) :
  let rows := cached_scientific_questions (store w) in
  let rows' :=
    cached_scientific_questions
      (store (cache_question self now question_text answer_text image_hash
                metadata w).2) in
  rows' = rows
  \/ exists row, rows' = rows ++ [row]
                 /\ CachedQuestion.is_corrected row = Some false.
Proof.
  cbn zeta. unfold cache_question.
  destruct (embeddings self) as [client|]; [|by left].
  destruct (client question_text) as [e|]; [|by left].
  destruct (cache_scientific_question_cases now question_text
              (sig_fingerprint (_create_question_signature question_text))
              answer_text e image_hash metadata (store w))
    as [(_ & Hrows & _) | (E & _)].
  - left. destruct (cache_scientific_question _ _ _ _ _ _ _ _) as [o db].
    exact Hrows.
  - right. rewrite E. cbn [snd store cached_scientific_questions].
    eexists. split; reflexivity.
Qed.

(** X25.  A question cached with [cache_question] is not served before
    it is approved: whatever is searched for next, with or without the
    image hash it was cached under, an entry returned by
    [find_similar_question] is one of the rows that were in the table
    before the question was cached (possibly with its usage bumped). *)
Theorem cached_question_not_served_until_approved
    (self self' : EnhancedQuestionDeduplicator) (now now' : Z)
    (question_text answer_text question_text' : string)
    (image_hash image_hash' : option string)
    (metadata : option (list (string * string))) (w : world)
    (q : CachedQuestion.t) :
  let w1 := (cache_question self now question_text answer_text image_hash
               metadata w).2 in
  (find_similar_question ratio np_dot np_norm self' now' question_text'
     image_hash' w1).1 = Some q ->
  exists q0, q0 ∈ cached_scientific_questions (store w)
             /\ usage_only now' q0 q.
Proof.
  cbn zeta.
  destruct (find_similar_question _ _ _ _ _ _ _ _) as [o w'] eqn:E.
  cbn [fst]. intros ->.
  apply find_similar_question_origin in E as (Ha & q0 & Hq0 & Hu).
  exists q0. split; [|exact Hu].
  destruct (cache_question_rows self now question_text answer_text image_hash
              metadata w) as [E1 | (row & E1 & Hrow)]; cbn zeta in E1;
    rewrite E1 in Hq0; [exact Hq0|].
  apply elem_of_app in Hq0 as [Hq0 | Hq0]; [exact Hq0|].
  apply list_elem_of_singleton in Hq0 as ->. exfalso.
  apply approved_is_corrected in Ha.
  destruct Hu as [-> | ->]; cbn in Ha; congruence.
Qed.

Lemma order_by_last_used_desc_newest (l : list CachedQuestion.t)
    (x : CachedQuestion.t) :
  (forall q, q ∈ l ->
     (CachedQuestion.last_used q < CachedQuestion.last_used x)%Z) ->
  exists t, order_by_last_used_desc (l ++ [x]) = x :: t.
Proof.
  unfold order_by_last_used_desc. induction l as [|a l IH]; intros H.
  - by exists [].
  - destruct IH as [t Ht]; [intros q Hq; apply H; by constructor|].
    cbn [app foldr]. rewrite Ht. cbn [insert_by_last_used].
    assert (Ha : (CachedQuestion.last_used a < CachedQuestion.last_used x)%Z)
      by (apply H; constructor).
    apply Z.leb_gt in Ha. rewrite Ha. by eexists.
Qed.

Lemma update_where_app {A : Type} (p : A -> bool) (f : A -> A) (l1 l2 : list A) :
  update_where p f (l1 ++ l2) = update_where p f l1 ++ update_where p f l2.
Proof. unfold update_where. apply map_app. Qed.

(** The hit of layer 1 on a store whose last row is approved and the
    newest of its image hash. *)
Lemma find_newest_by_hash (self : EnhancedQuestionDeduplicator)
    (client : embedder) (now : Z) (question_text image_hash : string)
    (rows : list CachedQuestion.t) (row : CachedQuestion.t)
    (inter : list Interaction.t) (seq : Z) (calls : list string) :
  embeddings self = Some client ->
  image_hash <> ""%string ->
  sendable image_hash = true ->
  CachedQuestion.image_hash row = Some image_hash ->
  approved row = true ->
  (forall q, q ∈ rows -> CachedQuestion.image_hash q = Some image_hash ->
     (CachedQuestion.last_used q < CachedQuestion.last_used row)%Z) ->
  let r := find_similar_question ratio np_dot np_norm self now question_text
             (Some image_hash) (World (MkDb (rows ++ [row]) inter seq) calls) in
  r.1 = Some row /\ embed_calls r.2 = calls.
Proof.
  intros Hc Hh Hs Hrow Ha Hold. cbn zeta. unfold find_similar_question.
  rewrite Hc, image_hash_layer_fetch.
  unfold hash_refused, fetch_by_hash. cbn [default from_option id].
  rewrite Hs, andb_false_r. cbn zeta.
  rewrite (bool_decide_eq_false_2 _ Hh). cbn [negb orb].
  unfold get_cached_question_by_image_hash.
  cbn [store cached_scientific_questions]. rewrite filter_app_bool.
  cbn [List.filter]. rewrite (bool_decide_eq_true_2 _ Hrow).
  destruct (order_by_last_used_desc_newest
              (List.filter
                 (fun r => bool_decide
                             (CachedQuestion.image_hash r = Some image_hash))
                 rows) row) as [t ->].
  { intros q Hq. apply elem_of_filter_bool in Hq as [Hq Hp].
    apply bool_decide_eq_true in Hp. by apply Hold. }
  cbn [fst snd]. rewrite Ha. cbn. split; reflexivity.
Qed.

(** The fingerprint of a text holds no code point 0: the driver accepts
    it. *)
Lemma fingerprint_sendable (text : string) :
  sendable (_extract_question_fingerprint text) = true.
Proof.
  unfold sendable, _extract_question_fingerprint.
  rewrite of_to_string. apply forallb_forall. intros c Hc.
  apply list_elem_of_In in Hc.
  pose proof (proj1 (Forall_forall _ _)
                (fingerprint_kept (Str.of_string text)) c Hc) as Hk.
  cbn beta in Hk. destruct (Char.is_code 0 c) eqn:E; [|reflexivity].
  exfalso. unfold Char.is_code, Char.code in E. apply N.eqb_eq in E.
  assert (Hz : c = ascii_of_N 0) by (rewrite <- E; symmetry; apply ascii_N_embedding).
  subst c. vm_compute in Hk. discriminate Hk.
Qed.

(** X26.  Cache, approve, find again.  With an embedding client that
    answers, for texts, a (non-empty) image hash and metadata that the
    database accepts (no code point 0 in the question, the answers, the
    hash and the correction source; a hash of at most 64 characters and a
    correction source of at most 50; metadata that can be stored), on a
    store where the next id of the sequence is an INTEGER that no row
    has and every row of the image hash was last used before the time of
    caching: after [cache_question] under that hash and
    [update_cached_answer] for the new id, the update reports success,
    and [find_similar_question] with the same hash, whatever the
    question text, returns the new row with the updated answer, approved,
    without sending a text to the embedding service. *)
Theorem cache_approve_find_round_trip
    (self : EnhancedQuestionDeduplicator) (client : embedder)
    (now1 now2 now3 : Z)
    (question_text answer_text new_answer correction_source : string)
    (image_hash : string) (metadata : option (list (string * string)))
    (e : list Q) (question_text' : string) (w : world) :
  embeddings self = Some client ->
  client question_text = Some e ->
  sendable question_text = true ->
  sendable answer_text = true ->
  image_hash <> ""%string ->
  hash_accepted (Some image_hash) = true ->
  metadata_accepted metadata = true ->
  sendable new_answer = true ->
  sendable correction_source = true ->
  (length (Str.of_string correction_source) <= 50)%nat ->
  int4 (cached_id_seq (store w)) = true ->
  (forall q, q ∈ cached_scientific_questions (store w) ->
             CachedQuestion.id q <> cached_id_seq (store w)) ->
  (forall q, q ∈ cached_scientific_questions (store w) ->
             CachedQuestion.image_hash q = Some image_hash ->
             (CachedQuestion.last_used q < now1)%Z) ->
  let cached_id := cached_id_seq (store w) in
  let c := cache_question self now1 question_text answer_text
             (Some image_hash) metadata w in
  let u := update_cached_answer now2 cached_id new_answer correction_source
             c.2 in
  let r := find_similar_question ratio np_dot np_norm self now3
             question_text' (Some image_hash) u.2 in
  u.1 = true
  /\ exists row,
       r.1 = Some row
       /\ CachedQuestion.id row = cached_id
       /\ CachedQuestion.question_text row = question_text
       /\ CachedQuestion.answer_text row = new_answer
       /\ CachedQuestion.is_corrected row = Some true
       /\ embed_calls r.2 = embed_calls u.2.
Proof.
  intros Hc He Sq Sa Hh Hacc Hm _ _ _ Hint Hfresh Hold. cbn zeta.
  unfold cache_question. rewrite Hc, He.
  rewrite (cache_scientific_question_accepted now1 question_text
             (sig_fingerprint (_create_question_signature question_text))
             answer_text e (Some image_hash) metadata (store w) Sq
             (fingerprint_sendable question_text) Sa Hacc Hm Hint Hfresh).
  cbn [fst snd store embed_calls].
  destruct w as [[rows inter seq] calls].
  cbn [store cached_scientific_questions interactions cached_id_seq
         embed_calls] in *.
  unfold update_cached_answer, update_cached_question_answer.
  cbn [fst snd store embed_calls cached_scientific_questions interactions
         cached_id_seq].
  rewrite filter_app_bool, update_where_app.
  rewrite (update_where_untouched (has_id seq) _ rows)
    by (intros x Hx; apply has_id_false; by apply Hfresh).
  set (new := CachedQuestion.Row seq question_text _ answer_text (Some e)
                (Some image_hash) 1 now1 now1 (Some false) None None _).
  assert (Hnew : has_id seq new = true) by apply Z.eqb_refl.
  assert (Hup : update_where (has_id seq)
                  (set_answer now2 new_answer correction_source) [new]
                = [set_answer now2 new_answer correction_source new]).
  { unfold update_where. cbn [map]. rewrite Hnew. reflexivity. }
  rewrite Hup. cbn [List.filter]. rewrite Hnew. subst new.
  split.
  { rewrite length_app. cbn [length]. apply Nat.ltb_lt. lia. }
  eexists.
  assert (Hs : sendable image_hash = true).
  { cbn in Hacc. by apply andb_true_iff in Hacc as [? _]. }
  pose proof (find_newest_by_hash self client now3 question_text' image_hash
                rows
                (set_answer now2 new_answer correction_source
                   (CachedQuestion.Row seq question_text
                      (sig_fingerprint (_create_question_signature question_text))
                      answer_text (Some e) (Some image_hash) 1 now1 now1
                      (Some false) None None
                      (if truthy_list metadata then metadata else None)))
                inter (seq + 1)%Z (question_text :: calls) Hc Hh Hs eq_refl
                eq_refl)
    as Hfind.
  cbn zeta in Hfind. destruct Hfind as [H1 H2]; [exact Hold|].
  split; [exact H1|]. repeat split. exact H2.
Qed.

Lemma usage_only_id (now : Z) (q0 q : CachedQuestion.t) :
  usage_only now q0 q -> CachedQuestion.id q = CachedQuestion.id q0.
Proof. by intros [-> | ->]. Qed.

(** X27.  A deleted answer is not served again: after
    [delete_cached_question], whatever it answered, no search returns an
    entry with the deleted id. *)
Theorem deleted_question_not_served
    (self : EnhancedQuestionDeduplicator) (now : Z) (question_text : string)
    (image_hash : option string) (cached_id : Z) (w : world)
    (q : CachedQuestion.t) :
  let db := (AdminDashboard.delete_cached_question cached_id (store w)).2 in
  (find_similar_question ratio np_dot np_norm self now question_text
     image_hash (World db (embed_calls w))).1 = Some q ->
  CachedQuestion.id q <> cached_id.
Proof.
  cbn zeta.
  destruct (find_similar_question _ _ _ _ _ _ _ _) as [o w'] eqn:E.
  cbn [fst]. intros ->.
  apply find_similar_question_origin in E as (_ & q0 & Hq0 & Hu).
  rewrite (usage_only_id _ _ _ Hu). cbn [store] in Hq0.
  apply has_id_false.
  assert (Hgone : List.filter (has_id cached_id)
                    (cached_scientific_questions
                       (AdminDashboard.delete_cached_question cached_id
                          (store w)).2) = []).
  { unfold AdminDashboard.delete_cached_question.
    destruct (List.filter (has_id cached_id)
                (cached_scientific_questions (store w)))
      as [|d ds] eqn:E; cbn [snd cached_scientific_questions]; [exact E|].
    apply filter_nil_iff. intros x Hx.
    apply elem_of_filter_bool in Hx as [_ Hx]. by apply negb_true_iff. }
  exact (proj1 (filter_nil_iff _ _) Hgone q0 Hq0).
Qed.

End EngineEffects.

Lemma find_similar_question_hit_is_stored_witness :
  exists q0,
    q0 ∈ Database.cached_scientific_questions Sample.db0
    /\ Vocabulary.usage_only 9 q0
         (Sample.question 1 "What is the oxidation state of Fe in Fe2O3?"
            (Some "abc123"%string) 5 true).
Proof.
  apply (find_similar_question_hit_is_stored Sample.ratio Sample.np_dot
           Sample.np_norm (Dedup.Deduplicator (Some Sample.constant_client))
           9 "What is the oxidation state of Fe in Fe2O3?" None Sample.world0).
  vm_compute. reflexivity.
Defined.

(** The question of row 1 is cached again, unapproved; a search for it
    still returns row 1. *)
Lemma cached_question_not_served_until_approved_witness :
  exists q0,
    q0 ∈ Database.cached_scientific_questions Sample.db0
    /\ Vocabulary.usage_only 12 q0
         (Sample.question 1 "What is the oxidation state of Fe in Fe2O3?"
            (Some "abc123"%string) 5 true).
Proof.
  apply (cached_question_not_served_until_approved Sample.ratio Sample.np_dot
           Sample.np_norm (Dedup.Deduplicator (Some Sample.constant_client))
           (Dedup.Deduplicator (Some Sample.constant_client)) 9 12
           "What is the oxidation state of Fe in Fe2O3?" "+2"
           "What is the oxidation state of Fe in Fe2O3?" None None None
           Sample.world0).
  vm_compute. reflexivity.
Defined.

Lemma cache_approve_find_round_trip_witness :
  exists row,
    (Dedup.find_similar_question Sample.ratio Sample.np_dot Sample.np_norm
       (Dedup.Deduplicator (Some Sample.constant_client)) 30
       "Another question" (Some "0a1b2c"%string)
       (Dedup.update_cached_answer 20 4 "7" "manual_correction"
          (Dedup.cache_question
             (Dedup.Deduplicator (Some Sample.constant_client)) 10
             "What is pH?" "6" (Some "0a1b2c"%string) None Sample.world0).2).2).1
    = Some row
    /\ CachedQuestion.answer_text row = "7"%string.
Proof.
  destruct (cache_approve_find_round_trip Sample.ratio Sample.np_dot
              Sample.np_norm (Dedup.Deduplicator (Some Sample.constant_client))
              Sample.constant_client 10 20 30 "What is pH?" "6" "7"
              "manual_correction" "0a1b2c" None [1; 0] "Another question"
              Sample.world0 eq_refl eq_refl eq_refl eq_refl)
    as (_ & row & H1 & _ & _ & H2 & _).
  - discriminate.
  - reflexivity.
  - reflexivity.
  - reflexivity.
  - reflexivity.
  - vm_compute. lia.
  - reflexivity.
  - apply (sample_rows (fun q => CachedQuestion.id q <> 4%Z)); discriminate.
  - apply (sample_rows
             (fun q => CachedQuestion.image_hash q = Some "0a1b2c"%string ->
                       (CachedQuestion.last_used q < 10)%Z)); discriminate.
  - exists row. split; [exact H1 | exact H2].
Defined.

Lemma find_similar_question_within_pool_witness :
  Sample.question 1 "What is the oxidation state of Fe in Fe2O3?"
    (Some "abc123"%string) 5 true
  ∈ Database.get_recent_cached_questions 200 Sample.db0.
Proof.
  apply (find_similar_question_within_pool Sample.ratio Sample.np_dot
           Sample.np_norm (Dedup.Deduplicator (Some Sample.constant_client))
           9 "What is the oxidation state of Fe in Fe2O3?" None Sample.world0).
  - reflexivity.
  - vm_compute. reflexivity.
Defined.

(** Question 1 is deleted; a search for "Define a catalyst" returns
    question 3. *)
Lemma deleted_question_not_served_witness :
  CachedQuestion.id (Sample.question 3 "Define a catalyst" None 6 true)
  <> 1%Z.
Proof.
  apply (deleted_question_not_served Sample.ratio Sample.np_dot
           Sample.np_norm (Dedup.Deduplicator (Some Sample.constant_client))
           9 "Define a catalyst" None 1 Sample.world0).
  vm_compute. reflexivity.
Defined.

(** ** The dashboard: forced updates, deletions, uploads *)

Section ForceUpdateProperties.

Variable ratio : string -> string -> Q.
Variable np_dot : list Q -> list Q -> option Float64.number.
Variable np_norm : list Q -> Float64.number.

Import Database Dedup Vocabulary AdminDashboard.



End ForceUpdateProperties.


Section DeleteThen.

Import Database AdminDashboard.

(** X29.  After [delete_cached_question], whatever it answered, no row
    has the id: [get_cached_question_by_id] finds nothing,
    [update_cached_question_answer] on the id returns false and changes
    nothing, and a second deletion answers "not found" and changes
    nothing.  After a successful deletion no interaction is linked to
    the id. *)
Theorem delete_cached_question_then (cached_id : Z) (db : Db) :
  let r := delete_cached_question cached_id db in
  get_cached_question_by_id cached_id r.2 = None
  /\ (forall now new_answer correction_source,
        update_cached_question_answer now cached_id new_answer
          correction_source r.2 = (false, r.2))
  /\ delete_cached_question cached_id r.2 = (NotFound, r.2)
  /\ (success r.1 = true ->
      forall i, i ∈ interactions r.2 ->
        Interaction.cached_question_id i <> Some cached_id).
Proof.
  cbn zeta.
  assert (Hgone : List.filter (has_id cached_id)
                    (cached_scientific_questions
                       (delete_cached_question cached_id db).2) = []).
  { unfold delete_cached_question.
    destruct (List.filter (has_id cached_id) (cached_scientific_questions db))
      as [|d ds] eqn:E; cbn [snd cached_scientific_questions]; [exact E|].
    apply filter_nil_iff. intros x Hx.
    apply elem_of_filter_bool in Hx as [_ Hx]. by apply negb_true_iff. }
  split; [|split; [|split]].
  - unfold get_cached_question_by_id. rewrite Hgone. reflexivity.
  - intros now new_answer correction_source.
    unfold update_cached_question_answer. rewrite Hgone. cbn [length].
    f_equal. rewrite update_where_untouched
      by (by apply filter_nil_iff).
    by destruct (delete_cached_question cached_id db).2.
  - unfold delete_cached_question at 1. rewrite Hgone. reflexivity.
  - unfold delete_cached_question.
    destruct (List.filter (has_id cached_id) (cached_scientific_questions db))
      as [|d ds]; cbn [fst snd success interactions]; [discriminate|].
    intros _ i Hi. unfold update_where in Hi.
    apply list_elem_of_fmap in Hi as (x & -> & Hx).
    unfold linked_to. case_bool_decide as Hl; [discriminate | exact Hl].
Qed.

End DeleteThen.

Section AllowedFile.

Import AdminDashboard Vocabulary.

Lemma rsplit1_no_sep (sep : ascii) (s : Str.t) :
  Forall (fun c => c <> sep) s -> Str.rsplit1 sep s = [s].
Proof.
  induction 1 as [|c s Hc _ IH]; [reflexivity|]. cbn [Str.rsplit1].
  rewrite IH. destruct (Char.eqb c sep) eqn:E; [|reflexivity].
  apply char_eqb_eq in E. contradiction.
Qed.

Lemma char_eqb_refl (c : ascii) : Char.eqb c c = true.
Proof. unfold Char.eqb. apply N.eqb_refl. Qed.

Lemma rsplit1_last (sep : ascii) (a b : Str.t) :
  Forall (fun c => c <> sep) b -> Str.rsplit1 sep (a ++ sep :: b) = [a; b].
Proof.
  intros Hb. induction a as [|c a IH]; cbn [app Str.rsplit1].
  - rewrite (rsplit1_no_sep sep b Hb), char_eqb_refl. reflexivity.
  - rewrite IH. reflexivity.
Qed.

Lemma contains_char (sep : ascii) (s : Str.t) :
  Str.contains [sep] s = true <-> sep ∈ s.
Proof.
  induction s as [|c s IH]; cbn [Str.contains Str.starts_with].
  - split; [discriminate | intros H; inversion H].
  - rewrite andb_true_r, orb_true_iff, IH, elem_of_cons. split.
    + intros [H | H]; [left; by apply char_eqb_eq | by right].
    + intros [-> | H]; [left; apply char_eqb_refl | by right].
Qed.

(** X30.  [allowed_file] goes by what follows the last full stop of the
    file name: a name that ends in a full stop and an extension without
    full stop is allowed exactly when the extension, lower-cased, is one
    of the twelve allowed ones, whatever precedes it; a name without
    full stop is never allowed. *)
Theorem allowed_file_extension :
  (forall name ext : string,
     no_dot (Str.of_string ext) ->
     allowed_file (name +:+ "." +:+ ext)
     = bool_decide (Str.to_string (Str.lower (Str.of_string ext))
                      ∈ ALLOWED_EXTENSIONS))
  /\ (forall filename : string,
        no_dot (Str.of_string filename) -> allowed_file filename = false).
Proof.
  split.
  - intros name ext Hext. unfold allowed_file. cbn zeta.
    rewrite !of_string_app.
    change (Str.of_string ".") with ["."%char]. cbn [app].
    rewrite (rsplit1_last "." _ _ Hext). cbn [nth].
    replace (Str.contains ["."%char] _) with true; [reflexivity|].
    symmetry. apply contains_char, elem_of_app. right. constructor.
  - intros filename Hf. unfold allowed_file. cbn zeta.
    change (Str.of_string ".") with ["."%char].
    replace (Str.contains ["."%char] _) with false; [reflexivity|].
    symmetry. apply not_true_iff_false. rewrite contains_char.
    intros Hin. unfold no_dot in Hf. rewrite Forall_forall in Hf.
    by apply (Hf _ Hin).
Qed.

End AllowedFile.

(** An upper-case extension after a name with a full stop of its own. *)
Lemma allowed_file_extension_witness :
  AdminDashboard.allowed_file ("lecture.final" +:+ "." +:+ "PDF") = true.
Proof.
  rewrite (proj1 allowed_file_extension "lecture.final" "PDF").
  - vm_compute. reflexivity.
  - repeat constructor; discriminate.
Defined.
